(** * Position-preserving redaction pipeline: a shallow embedding

    The Python sources of the masking tool are rendered as Rocq functions:
    strings are lists of Unicode code points, offsets are integers ([Z]),
    dictionaries are finite maps, scores and page coordinates are rationals,
    and the loops that thread mutable locals become folds over an explicit
    state.  Each module of the development mirrors one source file. *)

From Stdlib Require Import ZArith QArith Qabs Lqa List Ascii String Lia Bool Sorting.Sorted.
From Stdlib Require Import DecimalString.
From stdpp Require Import base list gmap sorting.

Import ListNotations.
Local Open Scope Z_scope.

(** ** Python values *)

Module Py.

(** A Python [str] is a sequence of code points. *)
Definition char := N.
Definition str := list N.

(** ASCII literals, written as Rocq strings. *)
Definition lit (s : String.string) : str :=
  List.map N_of_ascii (list_ascii_of_string s).

Definition len {A} (s : list A) : Z := Z.of_nat (length s).

Definition NL : char := 10%N.

Definition eqb (a b : str) : bool := bool_decide (a = b).

(** Index normalisation of a slice bound: negative bounds count from the
    end, and every bound is clamped into [0, len]. *)
Definition clamp (n i : Z) : Z :=
  if i <? 0 then Z.max 0 (i + n) else Z.min i n.

(** [s[i:j]] *)
Definition slice {A} (s : list A) (i j : Z) : list A :=
  let lo := clamp (len s) i in
  let hi := clamp (len s) j in
  take (Z.to_nat (hi - lo)) (drop (Z.to_nat lo) s).

(** [s[i:]] and [s[:j]] *)
Definition slice_from {A} (s : list A) (i : Z) : list A :=
  drop (Z.to_nat (clamp (len s) i)) s.
Definition slice_to {A} (s : list A) (j : Z) : list A :=
  take (Z.to_nat (clamp (len s) j)) s.

(** [s[i]] for an index already known to be in range (the callers guard
    it); [None] stands for IndexError. *)
Definition index {A} (s : list A) (i : Z) : option A :=
  if (0 <=? i) && (i <? len s) then s !! Z.to_nat i
  else if (- len s <=? i) && (i <? 0) then s !! Z.to_nat (i + len s)
  else None.

(** [s.startswith(p)] *)
Fixpoint startswith (s p : str) : bool :=
  match p, s with
  | [], _ => true
  | _ :: _, [] => false
  | c :: p', d :: s' => (c =? d)%N && startswith s' p'
  end.

(** [sub in s] *)
Fixpoint contains (s sub : str) : bool :=
  startswith s sub ||
  match s with
  | [] => false
  | _ :: s' => contains s' sub
  end.

Fixpoint takewhile {A} (f : A -> bool) (s : list A) : list A :=
  match s with
  | [] => []
  | c :: s' => if f c then c :: takewhile f s' else []
  end.

Fixpoint dropwhile {A} (f : A -> bool) (s : list A) : list A :=
  match s with
  | [] => []
  | c :: s' => if f c then dropwhile f s' else s
  end.

(** [c * n] for a one-character string [c] *)
Definition repeat_char (c : char) (n : Z) : str := replicate (Z.to_nat n) c.

(** [x in xs] for a tuple or list of strings *)
Definition mem (x : str) (xs : list str) : bool := bool_decide (x ∈ xs).

(** Zero-padded decimal rendering, the format spec [0<w>d]: the sign comes
    first and the zeros fill up to width [w]. *)
Definition digits (n : N) : str := lit (NilZero.string_of_uint (N.to_uint n)).

Definition zero_pad (w : nat) (n : Z) : str :=
  let body := digits (Z.to_N (Z.abs n)) in
  if n <? 0
  then lit "-" ++ replicate (w - 1 - length body)%nat 48%N ++ body
  else replicate (w - length body)%nat 48%N ++ body.

End Py.

(** ** pipelines/docx_segments.py *)

Module DocxSegments.

(** What the traversal reads from a python-docx document: per section the
    texts of the header and footer paragraphs, the body paragraphs, and
    the tables as rows of cell texts.  [xml] is the document element
    rendered as text. *)
Record SectionPart := {
  header_paragraphs : list Py.str;
  footer_paragraphs : list Py.str
}.

Record Document := {
  xml : Py.str;
  sections : list SectionPart;
  paragraphs : list Py.str;
  tables : list (list (list Py.str))
}.

(** A reference to the python-docx object a segment was read from. *)
Inductive ObjRef :=
| HeaderOf (sec : nat)
| FooterOf (sec : nat)
| ParagraphAt (i : nat)
| CellAt (table row col : nat).

Record Segment := {
  seg_id : Py.str;
  kind : Py.str;
  obj : ObjRef;
  text : Py.str;
  global_start : Z;
  global_end : Z
}.

(** The locals that [add_seg] closes over. *)
Record Acc := {
  segments : list Segment;
  buf : list Py.str;
  cur : Z;
  idx : Z
}.

Definition acc0 : Acc := {| segments := []; buf := []; cur := 0; idx := 0 |}.

Definition add_seg (kind : Py.str) (obj : ObjRef) (text : option Py.str) (a : Acc) : Acc :=
  let t := default [] text in
  let seg_id := kind ++ Py.zero_pad 6 (idx a) in
  let start := cur a in
  let end_ := cur a + Py.len t in
  {| segments := segments a ++ [Build_Segment seg_id kind obj t start end_];
     buf := buf a ++ [t; [Py.NL]];
     cur := end_ + 1;
     idx := idx a + 1 |}.

Definition visit_section (i : nat) (sec : SectionPart) (a : Acc) : Acc :=
  let a1 :=
    match header_paragraphs sec with
    | t :: _ => add_seg (Py.lit "H") (HeaderOf i) (Some t) a
    | [] => a
    end in
  match footer_paragraphs sec with
  | t :: _ => add_seg (Py.lit "F") (FooterOf i) (Some t) a1
  | [] => a1
  end.

(** [for i, x in enumerate(xs, k): a = f i x a] *)
Fixpoint fold_indexed {A St} (f : nat -> A -> St -> St) (k : nat) (xs : list A) (a : St) : St :=
  match xs with
  | [] => a
  | x :: xs' => fold_indexed f (S k) xs' (f k x a)
  end.

Definition visit_row (ti ri : nat) (cells : list Py.str) (a : Acc) : Acc :=
  fold_indexed (fun ci c => add_seg (Py.lit "C") (CellAt ti ri ci) (Some c)) 0 cells a.

Definition visit_table (ti : nat) (rows : list (list Py.str)) (a : Acc) : Acc :=
  fold_indexed (visit_row ti) 0 rows a.

Definition track_changes (d : Document) : list Py.str :=
  if Py.contains (xml d) (Py.lit "<w:ins") || Py.contains (xml d) (Py.lit "<w:del")
  then [Py.lit "warning:track_changes_detected"]
  else [].

Definition extract_docx_segments (d : Document) : Py.str * list Segment * list Py.str :=
  let a1 := fold_indexed visit_section 0 (sections d) acc0 in
  let a2 := fold_indexed (fun i p => add_seg (Py.lit "P") (ParagraphAt i) (Some p)) 0 (paragraphs d) a1 in
  let a3 := fold_indexed visit_table 0 (tables d) a2 in
  (concat (buf a3), segments a3, track_changes d).

(** The text the segment list stands for: each segment's text followed by
    the one-character separator. *)
Definition reconstruct (segs : list Segment) : Py.str :=
  concat (List.map (fun s => text s ++ [Py.NL]) segs).

(** Segments laid out one after the other from offset [from]: each starts
    where the previous one ended plus the separator. *)
Fixpoint laid_out (from : Z) (segs : list Segment) : Prop :=
  match segs with
  | [] => True
  | s :: rest =>
      global_start s = from /\
      global_end s = global_start s + Py.len (text s) /\
      laid_out (global_end s + 1) rest
  end.

End DocxSegments.

(** ** Functions of the host runtime and of collaborating detectors

    Unicode normalisation, the Unicode white-space table and [str.format]
    belong to the Python runtime; the date renderer and the party extractor
    are regular-expression collaborators whose output the pipeline only
    passes along.  They are parameters of the development. *)

Class Runtime := {
  (** [unicodedata.normalize("NFKC", s)] *)
  nfkc : Py.str -> Py.str;
  (** the characters matched by [\s] and removed by [str.strip()] *)
  isspace : Py.char -> bool;
  (** [template.format(n=n)] *)
  str_format : Py.str -> Z -> Py.str;
  (** [date_rules.date_granular(original, mode)] *)
  date_granular : Py.str -> Py.str -> Py.str;
  (** [party_extractor.extract_parties_full(text)]: the self names and the
      allow-list labels of the result *)
  extract_parties_full : Py.str -> list Py.str * list Py.str
}.

(** ** engine/normalize.py *)

Module Normalize.
Section WithRuntime.
Context `{Runtime}.

Definition lstrip (s : Py.str) : Py.str := Py.dropwhile isspace s.
Definition strip (s : Py.str) : Py.str := rev (Py.dropwhile isspace (rev (lstrip s))).

(** [_WS_RE.sub(" ", s)]: every maximal run of white space becomes one
    space.  [in_ws] tells whether the previous character was white space. *)
Fixpoint ws_sub_from (in_ws : bool) (s : Py.str) : Py.str :=
  match s with
  | [] => []
  | c :: s' =>
      if isspace c
      then (if in_ws then ws_sub_from true s' else 32%N :: ws_sub_from true s')
      else c :: ws_sub_from false s'
  end.

Definition ws_sub (s : Py.str) : Py.str := ws_sub_from false s.

Definition normalize_term (s : Py.str) : Py.str := strip (ws_sub (nfkc s)).

End WithRuntime.
End Normalize.

(** ** engine/text_rules.py *)

Module TextRules.

Definition MONEY_CTX_WORDS : list Py.str :=
  [ [20870%N]; [165%N]; [65509%N];
    [31246%N; 36796%N]; [31246%N; 25244%N]; [21512%N; 35336%N]; [32207%N; 38989%N];
    [23550%N; 20385%N]; [22577%N; 37228%N]; [21336%N; 20385%N]; [37329%N; 38989%N];
    [25903%N; 25173%N]; [35531%N; 27714%N]; [20837%N; 37329%N]; [25391%N; 36796%N];
    [22770%N; 36023%N; 20195%N; 37329%N]; [22996%N; 35351%N; 26009%N];
    [21033%N; 29992%N; 26009%N]; [26009%N; 37329%N] ].

Definition has_money_context (text : Py.str) (start end_ : Z) : bool :=
  let window := 12 in
  let s := Z.max 0 (start - window) in
  let e := Z.min (Py.len text) (end_ + window) in
  let ctx := Py.slice text s e in
  existsb (fun w => Py.contains ctx w) MONEY_CTX_WORDS.

Section WithRuntime.
Context `{Runtime}.

Definition in_list (term : Py.str) (allowlist : list Py.str) : bool :=
  let t := Normalize.normalize_term term in
  match t with
  | [] => false
  | _ => existsb (fun a => Py.eqb t (Normalize.normalize_term a)) allowlist
  end.

End WithRuntime.
End TextRules.

(** ** engine/stable_id.py *)

Module StableId.

Record StableIdState := {
  counters : gmap Py.str Z;
  mapping : gmap (Py.str * Py.str) Py.str
}.

Definition create : StableIdState := {| counters := ∅; mapping := ∅ |}.

(** The template used when [label_format] has no entry for the entity:
    the f-string [f"[{entity}_{{n:02d}}]"]. *)
Definition default_format (entity : Py.str) : Py.str :=
  Py.lit "[" ++ entity ++ Py.lit "_{n:02d}]".

Section WithRuntime.
Context `{Runtime}.

(** Returns the label and the state after the call. *)
Definition get_label (st : StableIdState) (entity original : Py.str)
    (label_format : gmap Py.str Py.str) : Py.str * StableIdState :=
  let key := (entity, Normalize.normalize_term original) in
  match mapping st !! key with
  | Some l => (l, st)
  | None =>
      let n := default 0 (counters st !! entity) + 1 in
      let fmt := default (default_format entity) (label_format !! entity) in
      let label := str_format fmt n in
      (label, {| counters := <[entity := n]> (counters st);
                 mapping := <[key := label]> (mapping st) |})
  end.

End WithRuntime.
End StableId.

(** ** engine/address_rules.py *)

Module AddressRules.

(** the character classes of the two regular expressions *)
Definition is_pref_suffix (c : Py.char) : bool :=
  bool_decide (c ∈ [37117%N; 36947%N; 24220%N; 30476%N]).
Definition is_muni_suffix (c : Py.char) : bool :=
  bool_decide (c ∈ [24066%N; 21306%N; 30010%N; 26449%N]).

(** [.] matches every character but the newline *)
Definition dot (c : Py.char) : bool := negb (c =? Py.NL)%N.

(** [ADDRESS_SPLIT_RE.match(s)]: the groups [pref] and [rest].  The lazy
    [.??] first tries the two-character prefecture, then the
    three-character one; [rest] runs to the end of the line. *)
Definition address_split (s : Py.str) : option (Py.str * Py.str) :=
  match s with
  | c0 :: c1 :: tl =>
      if dot c0 && is_pref_suffix c1 then Some ([c0; c1], Py.takewhile dot tl)
      else match tl with
           | c2 :: tl' =>
               if dot c0 && dot c1 && is_pref_suffix c2
               then Some ([c0; c1; c2], Py.takewhile dot tl')
               else None
           | [] => None
           end
  | _ => None
  end.

(** [re.match(r"^(.{1,10}?[市区町村])", rest)]: group 1.  [k] characters
    have been taken by the lazy repetition so far. *)
Fixpoint muni_scan (fuel : nat) (taken rest : Py.str) : option Py.str :=
  match fuel, rest with
  | S fuel', c :: rest' =>
      if is_muni_suffix c && negb (bool_decide (taken = []))
      then Some (taken ++ [c])
      else if dot c then muni_scan fuel' (taken ++ [c]) rest'
      else None
  | _, _ => None
  end.

Definition muni_match (rest : Py.str) : option Py.str := muni_scan 11 [] rest.

Definition _longest_prefix_match (s : Py.str) (candidates : list Py.str) : option Py.str :=
  List.find (fun c => Py.startswith s c) candidates.

(** Python truthiness of an [Optional[str]] *)
Definition truthy (o : option Py.str) : option Py.str :=
  match o with
  | Some (_ :: _ as p) => o
  | _ => None
  end.

Section WithRuntime.
Context `{Runtime}.

Definition mask_address_granular (original granularity : Py.str)
    (prefectures municipalities : list Py.str) : Py.str :=
  let s := Normalize.strip original in
  match s with
  | [] => s
  | _ =>
    if Py.eqb granularity (Py.lit "FULL_MASK") then Py.lit "[ADDRESS]" else
    let found :=
      match truthy (match prefectures with
                    | [] => None
                    | _ => _longest_prefix_match s prefectures
                    end) with
      | Some pref => Some (pref, Py.slice_from s (Py.len pref))
      | None => address_split s
      end in
    match found with
    | None => Py.lit "[ADDRESS]"
    | Some (pref, rest) =>
      if Py.eqb granularity (Py.lit "UNTIL_PREF") then pref else
      let muni :=
        match municipalities with
        | [] => None
        | _ => truthy (_longest_prefix_match (pref ++ rest) municipalities)
        end in
      match muni with
      | Some m =>
          if Py.startswith m pref then m
          else match muni_match rest with
               | Some g => pref ++ g
               | None => pref
               end
      | None =>
          match muni_match rest with
          | Some g => pref ++ g
          | None => pref
          end
      end
    end
  end.

End WithRuntime.
End AddressRules.

(** ** engine/masking_engine.py *)

Module MaskingEngine.

Definition BLACK_CHAR : Py.char := 9632%N.

(** *** Records exchanged with the detectors and the caller *)

(** What Presidio returns. *)
Record RecognizerResult := {
  r_start : Z;
  r_end : Z;
  r_entity_type : Py.str;
  r_score : Q
}.

(** What the regular-expression analyzer returns. *)
Record FastResult := {
  f_start : Z;
  f_end : Z;
  f_entity_type : Py.str;
  f_score : Q;
  f_pattern : Py.str
}.

(** A forced-mask descriptor as the caller supplies it; a missing or
    non-numeric [start] or [end] is [None]. *)
Record ForcedMaskInput := {
  fi_start : option Z;
  fi_end : option Z;
  fi_entity_type : option Py.str;
  fi_label : option Py.str;
  fi_reason : option Py.str
}.

Record ForcedMask := {
  fm_start : Z;
  fm_end : Z;
  fm_entity_type : Py.str;
  fm_label : option Py.str;
  fm_reason : Py.str
}.

Record KeepSpan := { ks_start : Z; ks_end : Z }.

Record RuntimeOverrides := {
  once_allowlist : list Py.str;
  forced_masks : list ForcedMaskInput;
  keep_spans : list KeepSpan
}.

Inductive Source := SrcAnalyzer | SrcForced.

Definition is_forced (s : Source) : bool :=
  match s with SrcForced => true | SrcAnalyzer => false end.

(** The candidate dictionaries built in [mask_text_with_report]. *)
Record Candidate := {
  start : Z;
  end_ : Z;
  entity_type : Py.str;
  score : Q;
  source : Source;
  pattern : option Py.str;
  label : option Py.str;
  forced_reason : option Py.str
}.

Record Hit := {
  h_doc_id : Py.str;
  h_entity_type : Py.str;
  h_start : Z;
  h_end : Z;
  h_score : Q;
  h_original : Py.str;
  h_replacement : Py.str;
  h_reason : Py.str;
  h_source : Source
}.

(** An entry of the review list: a copy of the hit with its flag. *)
Record ReviewHit := { rv_hit : Hit; review_flag : bool }.

Record Report := {
  rep_doc_id : Py.str;
  total_hits : Z;
  review_hits : Z;
  by_entity : gmap Py.str Z;
  hits : list Hit;
  review : list ReviewHit;
  rep_review_threshold : Q;
  rep_forced_masks : list ForcedMask
}.

(** The engine after [__init__]: the policy values with their defaults
    applied, the two analyzers, and the runtime overrides.  An analyzer
    call that raises is [None]. *)
Record Engine := {
  entity_priority : gmap Py.str Z;
  base_allowlist : list Py.str;
  output_mode : Py.str;
  black_min_len : Z;
  label_format : gmap Py.str Py.str;
  addr_granularity : Py.str;
  review_threshold : Q;
  analyzer : option (Py.str -> list Py.str -> option (list RecognizerResult));
  fast_analyzer : Py.str -> list Py.str -> option (list FastResult);
  nlp_chunk_size : Z;
  nlp_chunk_overlap : Z;
  fast_threshold_chars : Z;
  force_fast : bool;
  runtime : RuntimeOverrides;
  prefectures : list Py.str;
  municipalities : list Py.str
}.

Definition nlp_available (eng : Engine) : bool :=
  match analyzer eng with Some _ => true | None => false end.

(** *** Helpers *)

Definition _count_by_entity (hs : list Hit) : gmap Py.str Z :=
  foldl (fun out h =>
           let e := match h_entity_type h with [] => Py.lit "UNKNOWN" | e => e end in
           <[e := default 0 (out !! e) + 1]> out) ∅ hs.

Definition _normalize_forced_masks (fms : list ForcedMaskInput) : list ForcedMask :=
  foldl (fun out fm =>
           match fi_start fm, fi_end fm with
           | Some s, Some e =>
               if (0 <=? s) && (s <? e)
               then out ++ [{| fm_start := s; fm_end := e;
                               fm_entity_type := default (Py.lit "CUSTOM") (fi_entity_type fm);
                               fm_label := fi_label fm;
                               fm_reason := default (Py.lit "forced:mask_once") (fi_reason fm) |}]
               else out
           | _, _ => out
           end) [] fms.

Definition set_runtime_overrides (eng : Engine) (once : list Py.str)
    (forced : list ForcedMaskInput) (keep : list KeepSpan) : Engine :=
  {| entity_priority := entity_priority eng;
     base_allowlist := base_allowlist eng;
     output_mode := output_mode eng;
     black_min_len := black_min_len eng;
     label_format := label_format eng;
     addr_granularity := addr_granularity eng;
     review_threshold := review_threshold eng;
     analyzer := analyzer eng;
     fast_analyzer := fast_analyzer eng;
     nlp_chunk_size := nlp_chunk_size eng;
     nlp_chunk_overlap := nlp_chunk_overlap eng;
     fast_threshold_chars := fast_threshold_chars eng;
     force_fast := force_fast eng;
     runtime := {| once_allowlist := once;
                   forced_masks := forced;
                   keep_spans := List.filter (fun x => (0 <=? ks_start x) && (ks_start x <? ks_end x)) keep |};
     prefectures := prefectures eng;
     municipalities := municipalities eng |}.

(** *** Sorting and tuple comparison *)

(** Lexicographic chaining of comparisons, as Python compares tuples. *)
Definition lex (c1 c2 : comparison) : comparison :=
  match c1 with Eq => c2 | _ => c1 end.

Definition is_lt (c : comparison) : bool :=
  match c with Lt => true | _ => false end.
Definition is_gt (c : comparison) : bool :=
  match c with Gt => true | _ => false end.

(** [sorted(xs, key=...)] is stable: an element goes before the first one
    that is not smaller than it. *)
Fixpoint insert_by {A} (cmp : A -> A -> comparison) (x : A) (l : list A) : list A :=
  match l with
  | [] => [x]
  | y :: l' => if is_gt (cmp x y) then y :: insert_by cmp x l' else x :: l
  end.

Definition sorted_by {A} (cmp : A -> A -> comparison) (l : list A) : list A :=
  foldr (insert_by cmp) [] l.

(** The sweep shared by the three overlap passes: the last accepted element
    is replaced when [better] says so, kept otherwise. *)
Definition sweep_step {A} (st en : A -> Z) (better : A -> A -> bool)
    (acc : list A) (r : A) : list A :=
  match last acc with
  | None => acc ++ [r]
  | Some prev =>
      if st r <? en prev
      then (if better r prev then removelast acc ++ [r] else acc)
      else acc ++ [r]
  end.

Definition sweep {A} (st en : A -> Z) (better : A -> A -> bool) (l : list A) : list A :=
  foldl (sweep_step st en better) [] l.

Definition priority_of (eng : Engine) (entity : Py.str) : Z :=
  default 0 (entity_priority eng !! entity).

(** key [(r.start, -(r.end - r.start))] *)
Definition span_key_cmp (s1 e1 s2 e2 : Z) : comparison :=
  lex (s1 ?= s2) (- (e1 - s1) ?= - (e2 - s2)).

(** [(p_new, len_new, s_new) > (p_prev, len_prev, s_prev)] *)
Definition triple_gt (p1 l1 : Z) (s1 : Q) (p2 l2 : Z) (s2 : Q) : bool :=
  is_gt (lex (p1 ?= p2) (lex (l1 ?= l2) (s1 ?= s2)%Q)).

Definition _merge_overlaps (eng : Engine) (results : list RecognizerResult) : list RecognizerResult :=
  let rs := sorted_by (fun a b => span_key_cmp (r_start a) (r_end a) (r_start b) (r_end b)) results in
  sweep r_start r_end
    (fun r prev =>
       triple_gt (priority_of eng (r_entity_type r)) (r_end r - r_start r) (r_score r)
                 (priority_of eng (r_entity_type prev)) (r_end prev - r_start prev) (r_score prev))
    rs.

(** *** Chunked analysis of large documents *)

(** [text.rfind(c, lo, hi)] for a one-character [c]: the highest index in
    the slice, or -1. *)
Fixpoint rfind_in (c : Py.char) (seg : Py.str) (i : Z) : Z :=
  match seg with
  | [] => -1
  | d :: seg' =>
      let r := rfind_in c seg' (i + 1) in
      if 0 <=? r then r else if (d =? c)%N then i else -1
  end.

Definition rfind (text : Py.str) (c : Py.char) (lo hi : Z) : Z :=
  rfind_in c (Py.slice text lo hi) (Py.clamp (Py.len text) lo).

(** The body of the [while pos < text_len] loop; [fuel] bounds the number
    of iterations and [None] means it ran out. *)
Fixpoint chunk_loop (fuel : nat) (text : Py.str) (chunk_size overlap : Z)
    (pos : Z) (chunks : list (Z * Py.str)) : option (list (Z * Py.str)) :=
  let text_len := Py.len text in
  if pos <? text_len then
    match fuel with
    | O => None
    | S fuel' =>
        let end0 := Z.min (pos + chunk_size) text_len in
        let end1 :=
          if end0 <? text_len then
            let break_at := rfind text Py.NL (pos + chunk_size / 2) end0 in
            if pos <? break_at then break_at + 1 else end0
          else end0 in
        let chunks' := chunks ++ [(pos, Py.slice text pos end1)] in
        let next_pos := end1 - overlap in
        let next_pos' := if next_pos <=? pos then end1 else next_pos in
        chunk_loop fuel' text chunk_size overlap next_pos' chunks'
    end
  else Some chunks.

Definition _split_into_chunks (text : Py.str) (chunk_size overlap : Z)
    : option (list (Z * Py.str)) :=
  if Py.len text <=? chunk_size then Some [(0, text)]
  else chunk_loop (S (length text)) text chunk_size overlap 0 [].

Definition cand_of_result (offset : Z) (r : RecognizerResult) : Candidate :=
  {| start := r_start r + offset; end_ := r_end r + offset;
     entity_type := r_entity_type r; score := r_score r;
     source := SrcAnalyzer; pattern := None; label := None; forced_reason := None |}.

Definition cand_of_fast (offset : Z) (r : FastResult) : Candidate :=
  {| start := f_start r + offset; end_ := f_end r + offset;
     entity_type := f_entity_type r; score := f_score r;
     source := SrcAnalyzer; pattern := Some (f_pattern r); label := None; forced_reason := None |}.

(** One chunk: full analysis, on failure the regular-expression analyzer,
    and when that fails too the chunk contributes nothing. *)
Definition analyze_chunk (eng : Engine) (allowlist : list Py.str)
    (all_results : list Candidate) (chunk : Z * Py.str) : list Candidate :=
  let '(chunk_offset, chunk_text) := chunk in
  match (match analyzer eng with
         | Some an => an chunk_text allowlist
         | None => None
         end) with
  | Some results =>
      all_results ++ List.map (cand_of_result chunk_offset) (_merge_overlaps eng results)
  | None =>
      match fast_analyzer eng chunk_text allowlist with
      | Some fast_results => all_results ++ List.map (cand_of_fast chunk_offset) fast_results
      | None => all_results
      end
  end.

Definition _analyze_chunked (eng : Engine) (text : Py.str) (allowlist : list Py.str)
    : option (list Candidate) :=
  chunks ← _split_into_chunks text (nlp_chunk_size eng) (nlp_chunk_overlap eng);
  let all_results := foldl (analyze_chunk eng allowlist) [] chunks in
  let sorted := sorted_by (fun a b => span_key_cmp (start a) (end_ a) (start b) (end_ b)) all_results in
  Some (sweep start end_
          (fun r prev =>
             triple_gt (priority_of eng (entity_type r)) (end_ r - start r) (score r)
                       (priority_of eng (entity_type prev)) (end_ prev - start prev) (score prev))
          sorted).

(** The three-tier choice of analyzer and the detector candidates it gives. *)
Definition detect (eng : Engine) (text : Py.str) (allowlist : list Py.str)
    : option (list Candidate) :=
  let use_fast := force_fast eng || negb (nlp_available eng)
                  || (fast_threshold_chars eng <=? Py.len text) in
  let use_chunked := negb use_fast && (nlp_chunk_size eng <=? Py.len text) in
  if use_fast then
    merged_fast ← fast_analyzer eng text allowlist;
    Some (List.map (cand_of_fast 0) merged_fast)
  else if use_chunked then _analyze_chunked eng text allowlist
  else
    an ← analyzer eng;
    results ← an text allowlist;
    Some (List.map (cand_of_result 0) (_merge_overlaps eng results)).

Definition cand_of_forced (fm : ForcedMask) : Candidate :=
  {| start := fm_start fm; end_ := fm_end fm;
     entity_type := fm_entity_type fm; score := 1%Q;
     source := SrcForced; pattern := None;
     label := fm_label fm; forced_reason := Some (fm_reason fm) |}.

(** *** Overlap resolution *)

(** [_cand_key]: smaller is better. *)
Definition _cand_key (eng : Engine) (x : Candidate) : Z * Z * Z * Q :=
  let src_rank := if is_forced (source x) then 0 else 1 in
  let pr := priority_of eng (entity_type x) in
  let ln := end_ x - start x in
  (src_rank, - pr, - ln, (- score x)%Q).

Definition key_cmp (a b : Z * Z * Z * Q) : comparison :=
  let '(a1, a2, a3, a4) := a in
  let '(b1, b2, b3, b4) := b in
  lex (a1 ?= b1) (lex (a2 ?= b2) (lex (a3 ?= b3) (a4 ?= b4)%Q)).

(** [_cand_key(c) < _cand_key(prev)] *)
Definition better (eng : Engine) (c prev : Candidate) : bool :=
  is_lt (key_cmp (_cand_key eng c) (_cand_key eng prev)).

(** key [(x["start"],) + _cand_key(x)] *)
Definition sort_cmp (eng : Engine) (a b : Candidate) : comparison :=
  lex (start a ?= start b) (key_cmp (_cand_key eng a) (_cand_key eng b)).

Definition resolve (eng : Engine) (candidates : list Candidate) : list Candidate :=
  sweep start end_ (better eng) (sorted_by (sort_cmp eng) candidates).

Definition _overlaps (a_s a_e b_s b_e : Z) : bool := (a_s <? b_e) && (b_s <? a_e).

Definition apply_keep_spans (keep : list KeepSpan) (resolved : list Candidate) : list Candidate :=
  match keep with
  | [] => resolved
  | _ => List.filter
           (fun r => negb (existsb (fun ks => _overlaps (start r) (end_ r) (ks_start ks) (ks_end ks)) keep))
           resolved
  end.

(** *** Company span expansion *)

Definition corp_prefixes : list Py.str :=
  [ [26666%N; 24335%N; 20250%N; 31038%N]; [26377%N; 38480%N; 20250%N; 31038%N];
    [21512%N; 21516%N; 20250%N; 31038%N]; [21512%N; 21517%N; 20250%N; 31038%N];
    [21512%N; 36039%N; 20250%N; 31038%N] ].
Definition corp_abbr : list Py.str :=
  [ [40%N; 26666%N; 41%N]; [65288%N; 26666%N; 65289%N] ].
Definition corp_suffixes : list Py.str := corp_prefixes.

Definition boundaries : list Py.char :=
  [32; 9; 13; 10; 12289; 12290; 44; 46; 65292; 65294; 58; 65306; 59; 65307; 40; 41;
   65288; 65289; 91; 93; 65339; 65341; 123; 125; 65371; 65373; 60; 62; 65308; 65310;
   12298; 12299; 12304; 12305; 12300; 12301; 12302; 12303; 34; 39; 8220; 8221; 8216;
   8217; 12539; 47; 92; 124; 63; 33; 65311; 33]%N.

Definition is_boundary (c : Py.char) : bool := bool_decide (c ∈ boundaries).
Definition is_blank (c : Py.char) : bool := bool_decide (c ∈ [32; 9; 13; 10]%N).

(** [while rr < len(text) and p(text[rr]): rr += 1], at most [budget] times *)
Fixpoint advance (p : Py.char -> bool) (budget : nat) (text : Py.str) (rr : Z) : Z :=
  match budget with
  | O => rr
  | S b =>
      if rr <? Py.len text then
        match Py.index text rr with
        | Some c => if p c then advance p b text (rr + 1) else rr
        | None => rr
        end
      else rr
  end.

(** [while ll > 0 and p(text[ll - 1]): ll -= 1], at most [budget] times *)
Fixpoint retreat (p : Py.char -> bool) (budget : nat) (text : Py.str) (ll : Z) : Z :=
  match budget with
  | O => ll
  | S b =>
      if 0 <? ll then
        match Py.index text (ll - 1) with
        | Some c => if p c then retreat p b text (ll - 1) else ll
        | None => ll
        end
      else ll
  end.

Definition _expand_company_span (text : Py.str) (s e : Z) : Z * Z :=
  if (s <? 0) || (e <=? s) || (Py.len text <? e) then (s, e) else
  let seg := Py.slice text s e in
  if Py.mem seg corp_prefixes || Py.mem seg corp_abbr then
    let rr := advance is_blank (length text) text e in
    let rr := advance (fun c => negb (is_boundary c)) 80 text rr in
    (s, rr)
  else if Py.mem seg corp_suffixes then
    let ll := retreat is_blank (length text) text s in
    let ll := retreat (fun c => negb (is_boundary c)) 80 text ll in
    (ll, e)
  else (s, e).

(** *** Labelling loop *)

(** The locals the [for r in resolved] loop updates. *)
Record Loop := {
  out : list Py.str;
  l_hits : list Hit;
  l_review : list ReviewHit;
  last_ : Z;
  state : StableId.StableIdState
}.

Definition loop0 : Loop :=
  {| out := []; l_hits := []; l_review := []; last_ := 0; state := StableId.create |}.

Definition black (eng : Engine) (original : Py.str) : Py.str :=
  Py.repeat_char BLACK_CHAR (Z.max (black_min_len eng) (Py.len original)).

Section WithRuntime.
Context `{Runtime}.

(** The span of the hit after the optional company expansion. *)
Definition hit_span (text : Py.str) (r : Candidate) : Z * Z :=
  if Py.eqb (entity_type r) (Py.lit "COMPANY") && negb (is_forced (source r))
  then _expand_company_span text (start r) (end_ r)
  else (start r, end_ r).

(** "decide replacement": the replacement, the reason and the label state. *)
Definition decide_replacement (eng : Engine) (text : Py.str) (allowlist : list Py.str)
    (st : StableId.StableIdState) (r : Candidate) (start end_ : Z) (original : Py.str)
    : Py.str * Py.str * StableId.StableIdState :=
  let entity := entity_type r in
  if is_forced (source r) then
    let reason := default (Py.lit "forced:mask_once") (forced_reason r) in
    if Py.eqb (output_mode eng) (Py.lit "BLACK") then (black eng original, reason, st)
    else
      match label r with
      | Some (_ :: _ as l) => (l, reason, st)
      | _ =>
          let '(l, st') := StableId.get_label st entity original (label_format eng) in
          (l, reason, st')
      end
  else if Py.eqb entity (Py.lit "PARTIES") then (original, Py.lit "keep:parties", st)
  else if TextRules.in_list original allowlist then (original, Py.lit "keep:allowlist", st)
  else if Py.eqb entity (Py.lit "MONEY") && negb (TextRules.has_money_context text start end_)
  then (original, Py.lit "keep:money_no_context", st)
  else if Py.eqb (output_mode eng) (Py.lit "BLACK") then (black eng original, Py.lit "mask:black", st)
  else if Py.eqb entity (Py.lit "DATE")
  then (date_granular original (Py.lit "YEAR"), Py.lit "mask:date_granular", st)
  else if Py.eqb entity (Py.lit "ADDRESS")
  then (AddressRules.mask_address_granular original (addr_granularity eng)
          (prefectures eng) (municipalities eng),
        Py.lit "mask:address_granular", st)
  else
    let '(l, st') := StableId.get_label st entity original (label_format eng) in
    (l, Py.lit "mask:stable_id", st').

(** [(score and score < review_th) or reason in (...) or source == "forced"] *)
Definition needs_review (eng : Engine) (sc : Q) (reason : Py.str) (src : Source) : bool :=
  (negb (Qeq_bool sc 0) && is_lt (sc ?= review_threshold eng)%Q)
  || Py.mem reason [Py.lit "keep:money_no_context"]
  || is_forced src.

Definition label_step (eng : Engine) (text : Py.str) (allowlist : list Py.str)
    (doc_id : Py.str) (lp : Loop) (r : Candidate) : Loop :=
  let '(start, end_) := hit_span text r in
  let original := Py.slice text start end_ in
  let out1 := out lp ++ [Py.slice text (last_ lp) start] in
  let '(repl, reason, st') := decide_replacement eng text allowlist (state lp) r start end_ original in
  let hit := {| h_doc_id := doc_id; h_entity_type := entity_type r;
                h_start := start; h_end := end_; h_score := score r;
                h_original := original; h_replacement := repl;
                h_reason := reason; h_source := source r |} in
  {| out := out1 ++ [repl];
     l_hits := l_hits lp ++ [hit];
     l_review := if needs_review eng (score r) reason (source r)
                 then l_review lp ++ [{| rv_hit := hit; review_flag := true |}]
                 else l_review lp;
     last_ := end_;
     state := st' |}.

(** [list(dict.fromkeys(xs))]: the first occurrence of each term is kept. *)
Fixpoint dedup (seen xs : list Py.str) : list Py.str :=
  match xs with
  | [] => []
  | x :: xs' => if Py.mem x seen then dedup seen xs' else x :: dedup (x :: seen) xs'
  end.

Definition run_allowlist (eng : Engine) (text : Py.str) : list Py.str :=
  let '(self_names, party_labels) := extract_parties_full text in
  dedup [] (base_allowlist eng ++ self_names ++ party_labels ++ once_allowlist (runtime eng)).

(** Everything after the detector call: forced masks, overlap resolution,
    keep spans and the labelling loop. *)
Definition mask_candidates (eng : Engine) (text doc_id : Py.str) (allowlist : list Py.str)
    (detected : list Candidate) : Py.str * Report :=
  let forced := _normalize_forced_masks (forced_masks (runtime eng)) in
  let candidates := detected ++ List.map cand_of_forced forced in
  let resolved := apply_keep_spans (keep_spans (runtime eng)) (resolve eng candidates) in
  let lp := foldl (label_step eng text allowlist doc_id) loop0 resolved in
  let masked := concat (out lp ++ [Py.slice_from text (last_ lp)]) in
  (masked,
   {| rep_doc_id := doc_id;
      total_hits := Py.len (l_hits lp);
      review_hits := Py.len (l_review lp);
      by_entity := _count_by_entity (l_hits lp);
      hits := l_hits lp;
      review := l_review lp;
      rep_review_threshold := review_threshold eng;
      rep_forced_masks := forced |}).

(** [None] when the analyzer of a single-pass analysis raises, or when the
    chunk loop does not end. *)
Definition mask_text_with_report (eng : Engine) (text doc_id : Py.str)
    : option (Py.str * Report) :=
  let allowlist := run_allowlist eng text in
  detected ← detect eng text allowlist;
  Some (mask_candidates eng text doc_id allowlist detected).

End WithRuntime.
End MaskingEngine.

(** ** pipelines/docx_rewrite.py *)

Module DocxRewrite.
Section WithFormat.

(** The formatting properties of a run (its [w:rPr] element); the code
    only ever copies them. *)
Context {Format : Type}.

(** A run node of a paragraph.  [rid] is the identity of the Python [Run]
    object, so that the list [runs] can refer to nodes of the paragraph. *)
Record Run := {
  rid : nat;
  text : Py.str;
  fmt : Format
}.

(** The paragraph: its run nodes in document order. *)
Definition Paragraph := list Run.

Definition get_text (p : Paragraph) (id : nat) : Py.str :=
  match List.find (fun r => Nat.eqb (rid r) id) p with
  | Some r => text r
  | None => []
  end.

(** [run.text = t] *)
Definition set_text (p : Paragraph) (id : nat) (t : Py.str) : Paragraph :=
  List.map (fun r => if Nat.eqb (rid r) id then {| rid := rid r; text := t; fmt := fmt r |} else r) p.

Definition fresh_id (p : Paragraph) : nat := S (foldr Nat.max 0%nat (List.map rid p)).

(** [run_elem.addnext(deepcopy(run_elem))]: the copy, named [new_id],
    becomes the next sibling. *)
Fixpoint add_copy_after (p : Paragraph) (id new_id : nat) : Paragraph :=
  match p with
  | [] => []
  | r :: p' =>
      if Nat.eqb (rid r) id
      then r :: {| rid := new_id; text := text r; fmt := fmt r |} :: p'
      else r :: add_copy_after p' id new_id
  end.

Definition _split_run_at (p : Paragraph) (run : nat) (offset : Z)
    : Paragraph * (option nat * option nat) :=
  let text := get_text p run in
  if offset <=? 0 then (p, (None, Some run))
  else if Py.len text <=? offset then (p, (Some run, None))
  else
    let before_text := Py.slice_to text offset in
    let after_text := Py.slice_from text offset in
    let new_run := fresh_id p in
    let p1 := add_copy_after p run new_run in
    let p2 := set_text p1 run before_text in
    let p3 := set_text p2 new_run after_text in
    (p3, (Some run, Some new_run)).

Record Replacement := {
  rp_start : Z;
  rp_end : Z;
  rp_replacement : Py.str
}.

Definition _apply_backward (text : Py.str) (repls : list Replacement) : Py.str :=
  foldl (fun out r => Py.slice_to out (rp_start r) ++ rp_replacement r ++ Py.slice_from out (rp_end r))
        text
        (MaskingEngine.sorted_by (fun a b => rp_start b ?= rp_start a) repls).

Record RunInfo := { ri_run : nat; ri_start : Z; ri_end : Z }.

(** [build_map]: the offsets of the runs of the list, from their current
    texts. *)
Fixpoint build_map_from (p : Paragraph) (runs : list nat) (pos : Z) : list RunInfo :=
  match runs with
  | [] => []
  | r :: runs' =>
      let t := get_text p r in
      {| ri_run := r; ri_start := pos; ri_end := pos + Py.len t |}
        :: build_map_from p runs' (pos + Py.len t)
  end.

Definition build_map (p : Paragraph) (runs : list nat) : list RunInfo :=
  build_map_from p runs 0.

(** One iteration of the loop over the replacements. *)
Definition apply_one (runs : list nat) (p : Paragraph) (repl : Replacement) : Paragraph :=
  let rs := rp_start repl in
  let re_ := rp_end repl in
  let new_text := rp_replacement repl in
  let run_info := build_map p runs in
  let affected := List.filter (fun ri => (ri_start ri <? re_) && (rs <? ri_end ri)) run_info in
  match affected with
  | [] => p
  | [ri] =>
      let local_s := rs - ri_start ri in
      let local_e := re_ - ri_start ri in
      let old := get_text p (ri_run ri) in
      set_text p (ri_run ri) (Py.slice_to old local_s ++ new_text ++ Py.slice_from old local_e)
  | first_ri :: rest =>
      let last_ri := List.last rest first_ri in
      let local_s_first := rs - ri_start first_ri in
      let local_e_last := re_ - ri_start last_ri in
      let last_run := ri_run last_ri in
      let last_text := get_text p last_run in
      let suffix_text := Py.slice_from last_text local_e_last in
      let p1 :=
        if (local_e_last <? Py.len last_text) && negb (bool_decide (suffix_text = []))
        then set_text (fst (_split_run_at p last_run local_e_last)) last_run []
        else set_text p last_run [] in
      let first_run := ri_run first_ri in
      let first_text := get_text p1 first_run in
      let prefix := Py.slice_to first_text local_s_first in
      let p2 := set_text p1 first_run (prefix ++ new_text) in
      let p3 := foldl (fun q ri => set_text q (ri_run ri) []) p2 (removelast rest) in
      (* [last_idx != first_idx] holds here: two or more runs are affected *)
      if bool_decide (suffix_text = [])
      then set_text p3 last_run []
      else p3
  end.

Definition _apply_replacements_to_runs (p : Paragraph) (runs : list nat)
    (replacements : list Replacement) : Paragraph :=
  match runs, replacements with
  | [], _ | _, [] => p
  | _, _ =>
      foldl (apply_one runs) p
            (MaskingEngine.sorted_by (fun a b => rp_start b ?= rp_start a) replacements)
  end.

(** [list(p.runs)] *)
Definition runs_of (p : Paragraph) : list nat := List.map rid p.

(** What a reader of the paragraph sees: every character with the
    formatting of the run that carries it. *)
Definition styled_chars (p : Paragraph) : list (Py.char * Format) :=
  flat_map (fun r => List.map (fun c => (c, fmt r)) (text r)) p.

Definition run_sequence (p : Paragraph) : list (Py.str * Format) :=
  List.map (fun r => (text r, fmt r)) p.

End WithFormat.
Arguments Run : clear implicits.
Arguments Paragraph : clear implicits.
End DocxRewrite.

(** ** pipelines/pdf_pipeline.py *)

Module PdfPipeline.

Record CharInfo := {
  page_idx : nat;
  x0 : Q;
  y0 : Q;
  x1 : Q;
  y1 : Q;
  char : Py.char
}.

(** [fitz.Rect(x0, y0, x1, y1)] *)
Definition Rect : Type := Q * Q * Q * Q.

Definition Qltb (a b : Q) : bool := MaskingEngine.is_lt (a ?= b)%Q.
(** [max(a, b)] and [min(a, b)] return the first argument on a tie. *)
Definition pymax (a b : Q) : Q := if Qltb a b then b else a.
Definition pymin (a b : Q) : Q := if Qltb b a then b else a.

Definition SAME_LINE_TOLERANCE : Q := 2%Q.

Record Scan := {
  page_rects : gmap nat (list Rect);
  current_page : option nat;
  current_y0 : option Q;
  current_rect : option Rect
}.

Definition scan0 : Scan :=
  {| page_rects := ∅; current_page := None; current_y0 := None; current_rect := None |}.

(** [page_rects.setdefault(page, []).append(rect)] *)
Definition append_rect (m : gmap nat (list Rect)) (page : nat) (r : Rect) : gmap nat (list Rect) :=
  <[page := default [] (m !! page) ++ [r]]> m.

Definition flush (s : Scan) : gmap nat (list Rect) :=
  match current_rect s, current_page s with
  | Some r, Some pg => append_rect (page_rects s) pg r
  | _, _ => page_rects s
  end.

Definition is_dummy (ci : CharInfo) : bool :=
  (char ci =? Py.NL)%N
  || (Qeq_bool (x0 ci) 0 && Qeq_bool (y0 ci) 0 && Qeq_bool (x1 ci) 0 && Qeq_bool (y1 ci) 0).

Definition same_line (s : Scan) (ci : CharInfo) : bool :=
  match current_rect s, current_page s, current_y0 s with
  | Some _, Some pg, Some y => Nat.eqb (page_idx ci) pg && Qltb (Qabs (y0 ci - y)) SAME_LINE_TOLERANCE
  | _, _, _ => false
  end.

Definition scan_step (chars : list CharInfo) (s : Scan) (i : Z) : Scan :=
  match Py.index chars i with
  | None => s
  | Some ci =>
      if is_dummy ci then s
      else if same_line s ci then
        match current_rect s with
        | Some (rx0, ry0, rx1, ry1) =>
            {| page_rects := page_rects s;
               current_page := current_page s;
               current_y0 := current_y0 s;
               current_rect := Some (pymin rx0 (x0 ci), pymin ry0 (y0 ci),
                                     pymax rx1 (x1 ci), pymax ry1 (y1 ci)) |}
        | None => s
        end
      else
        {| page_rects := flush s;
           current_page := Some (page_idx ci);
           current_y0 := Some (y0 ci);
           current_rect := Some (x0 ci, y0 ci, x1 ci, y1 ci) |}
  end.

(** [range(start, end)] *)
Definition range (start end_ : Z) : list Z :=
  List.map (fun k => start + Z.of_nat k) (seq 0 (Z.to_nat (end_ - start))).

Definition _get_quads_for_span (chars : list CharInfo) (start end_ : Z) : gmap nat (list Rect) :=
  if (start <? 0) || (Py.len chars <? end_) || (end_ <=? start) then ∅
  else flush (foldl (scan_step chars) scan0 (range start end_)).

(** The number of rectangles of a result, over all pages. *)
Definition rect_count (m : gmap nat (list Rect)) : nat :=
  map_fold (fun _ rs n => (length rs + n)%nat) 0%nat m.

End PdfPipeline.

(** ** A small runtime for the worked examples

    Enough of the host functions to evaluate the pipeline on sample texts:
    the identity for NFKC (the sample texts are already normalised), the
    white space of ASCII together with the ideographic space, and the
    expansion of the [{n:02d}] field of a label template. *)

Module Sample.

Definition space (c : Py.char) : bool :=
  bool_decide (c ∈ [9; 10; 11; 12; 13; 28; 29; 30; 31; 32; 133; 160; 12288]%N).

(** Replaces every [{n:02d}] of the template; [skip] counts the characters
    of a field still to be dropped. *)
Fixpoint expand_field (skip : nat) (t : Py.str) (n : Z) : Py.str :=
  match t with
  | [] => []
  | c :: t' =>
      match skip with
      | S k => expand_field k t' n
      | O =>
          if Py.startswith t (Py.lit "{n:02d}")
          then Py.zero_pad 2 n ++ expand_field 6 t' n
          else c :: expand_field 0 t' n
      end
  end.

Definition runtime : Runtime := {|
  nfkc := fun s => s;
  isspace := space;
  str_format := expand_field 0;
  date_granular := fun _ _ => Py.lit "[DATE]";
  extract_parties_full := fun _ => ([], [])
|}.

(** A policy with two prioritised entity types, label output and the
    default thresholds.  The full analyzer answers [detections] for every
    text; the regular-expression analyzer finds nothing. *)
Definition engine (mode : Py.str) (detections : list MaskingEngine.RecognizerResult)
    (forced : list MaskingEngine.ForcedMaskInput) : MaskingEngine.Engine :=
  {| MaskingEngine.entity_priority := {[ Py.lit "PARTIES" := 100; Py.lit "PHONE" := 50 ]};
     MaskingEngine.base_allowlist := [];
     MaskingEngine.output_mode := mode;
     MaskingEngine.black_min_len := 3;
     MaskingEngine.label_format := ∅;
     MaskingEngine.addr_granularity := Py.lit "UNTIL_CITY";
     MaskingEngine.review_threshold := (8 # 10)%Q;
     MaskingEngine.analyzer := Some (fun _ _ => Some detections);
     MaskingEngine.fast_analyzer := fun _ _ => Some [];
     MaskingEngine.nlp_chunk_size := 15000;
     MaskingEngine.nlp_chunk_overlap := 300;
     MaskingEngine.fast_threshold_chars := 400000;
     MaskingEngine.force_fast := false;
     MaskingEngine.runtime :=
       {| MaskingEngine.once_allowlist := [];
          MaskingEngine.forced_masks := forced;
          MaskingEngine.keep_spans := [] |};
     MaskingEngine.prefectures := [];
     MaskingEngine.municipalities := [] |}.

(** A forced mask over [[s, e)] with the defaults of the descriptor. *)
Definition force (s e : Z) : MaskingEngine.ForcedMaskInput :=
  {| MaskingEngine.fi_start := Some s; MaskingEngine.fi_end := Some e;
     MaskingEngine.fi_entity_type := None; MaskingEngine.fi_label := None;
     MaskingEngine.fi_reason := None |}.

Definition forced_candidate (s e : Z) : MaskingEngine.Candidate :=
  MaskingEngine.cand_of_forced
    {| MaskingEngine.fm_start := s; MaskingEngine.fm_end := e;
       MaskingEngine.fm_entity_type := Py.lit "CUSTOM"; MaskingEngine.fm_label := None;
       MaskingEngine.fm_reason := Py.lit "forced:mask_once" |}.

Definition detection (s e : Z) (entity : Py.str) (sc : Q) : MaskingEngine.RecognizerResult :=
  {| MaskingEngine.r_start := s; MaskingEngine.r_end := e;
     MaskingEngine.r_entity_type := entity; MaskingEngine.r_score := sc |}.

End Sample.

(** * Properties *)

(** ** Slices *)

Section SliceFacts.
Context {A : Type}.
Implicit Types s a b c : list A.

Lemma len_nonneg s : 0 <= Py.len s.
Proof. unfold Py.len; lia. Qed.

Lemma len_app a b : Py.len (a ++ b) = Py.len a + Py.len b.
Proof. unfold Py.len; rewrite length_app; lia. Qed.

Lemma len_cons (x : A) s : Py.len (x :: s) = 1 + Py.len s.
Proof. unfold Py.len; simpl; lia. Qed.

Lemma clamp_inside n i : 0 <= i <= n -> Py.clamp n i = i.
Proof.
  intros Hi; unfold Py.clamp.
  destruct (Z.ltb_spec i 0); lia.
Qed.

Lemma clamp_beyond n i : 0 <= n <= i -> Py.clamp n i = n.
Proof.
  intros Hi; unfold Py.clamp.
  destruct (Z.ltb_spec i 0); lia.
Qed.

Lemma clamp_range n i : 0 <= n -> 0 <= Py.clamp n i <= n.
Proof.
  intros Hn; unfold Py.clamp.
  destruct (Z.ltb_spec i 0); lia.
Qed.

Lemma clamp_mono n i j : 0 <= n -> 0 <= i <= j -> Py.clamp n i <= Py.clamp n j.
Proof.
  intros Hn Hij; unfold Py.clamp.
  destruct (Z.ltb_spec i 0), (Z.ltb_spec j 0); lia.
Qed.

Lemma slice_app_mid a b c :
  Py.slice (a ++ b ++ c) (Py.len a) (Py.len a + Py.len b) = b.
Proof.
  unfold Py.slice.
  rewrite !clamp_inside by (rewrite !len_app; pose proof (len_nonneg a);
                            pose proof (len_nonneg b); pose proof (len_nonneg c); lia).
  unfold Py.len.
  replace (Z.to_nat (Z.of_nat (length a) + Z.of_nat (length b) - Z.of_nat (length a)))
    with (length b) by lia.
  rewrite Nat2Z.id, drop_app_length, take_app_length.
  reflexivity.
Qed.

Lemma index_app_mid a (x : A) c : Py.index (a ++ x :: c) (Py.len a) = Some x.
Proof.
  unfold Py.index.
  pose proof (len_nonneg a) as Ha.
  rewrite len_app.
  replace (Py.len (x :: c)) with (1 + Py.len c) by (unfold Py.len; simpl; lia).
  pose proof (len_nonneg c) as Hc.
  destruct (Z.leb_spec 0 (Py.len a)); [|lia].
  destruct (Z.ltb_spec (Py.len a) (Py.len a + (1 + Py.len c))); [|lia].
  simpl. unfold Py.len. rewrite Nat2Z.id.
  rewrite lookup_app_r by lia.
  replace (length a - length a)%nat with 0%nat by lia.
  reflexivity.
Qed.

Lemma slice_from_zero s : Py.slice_from s 0 = s.
Proof.
  unfold Py.slice_from.
  rewrite clamp_inside by (pose proof (len_nonneg s); lia).
  reflexivity.
Qed.

End SliceFacts.

(** ** Segments of a word-processor document *)

Section DocxSegmentsFacts.
Import DocxSegments.

(** What [add_seg] maintains: the buffer holds the reconstruction of the
    segments, [cur] is its length, and the segments are laid out from 0. *)
Definition acc_ok (a : Acc) : Prop :=
  concat (buf a) = reconstruct (segments a) /\
  cur a = Py.len (reconstruct (segments a)) /\
  laid_out 0 (segments a).

Lemma reconstruct_snoc segs s :
  reconstruct (segs ++ [s]) = reconstruct segs ++ text s ++ [Py.NL].
Proof.
  unfold reconstruct.
  rewrite List.map_app, concat_app. simpl.
  rewrite app_nil_r. reflexivity.
Qed.

Lemma laid_out_snoc from segs s :
  laid_out from segs ->
  global_start s = from + Py.len (reconstruct segs) ->
  global_end s = global_start s + Py.len (text s) ->
  laid_out from (segs ++ [s]).
Proof.
  revert from.
  induction segs as [|s0 segs IH]; intros from Hl Hs He; simpl in *.
  - unfold reconstruct in Hs; simpl in Hs. unfold Py.len in Hs at 1. simpl in Hs.
    split; [lia | split; [exact He | exact I]].
  - destruct Hl as (H1 & H2 & H3).
    repeat split; [exact H1 | exact H2 |].
    apply IH; [exact H3 | | exact He].
    rewrite Hs, H2, H1. unfold reconstruct. simpl.
    rewrite !len_app. change (Py.len [Py.NL]) with 1. lia.
Qed.

Lemma acc0_ok : acc_ok acc0.
Proof. repeat split. Qed.

Lemma add_seg_ok k o t a : acc_ok a -> acc_ok (add_seg k o t a).
Proof.
  intros (Hb & Hc & Hl).
  unfold acc_ok, add_seg; simpl.
  rewrite reconstruct_snoc, concat_app, Hb. simpl.
  split; [reflexivity|]. split.
  - rewrite !len_app, Hc. change (Py.len [Py.NL]) with 1. lia.
  - apply laid_out_snoc; simpl; [exact Hl | lia | reflexivity].
Qed.

Lemma fold_indexed_ok {X} (f : nat -> X -> Acc -> Acc) :
  (forall i x a, acc_ok a -> acc_ok (f i x a)) ->
  forall xs k a, acc_ok a -> acc_ok (fold_indexed f k xs a).
Proof.
  intros Hf xs.
  induction xs as [|x xs IH]; intros k a Ha; simpl; [exact Ha|].
  apply IH, Hf, Ha.
Qed.

Lemma visit_section_ok i sec a : acc_ok a -> acc_ok (visit_section i sec a).
Proof.
  intros Ha. unfold visit_section.
  destruct (header_paragraphs sec), (footer_paragraphs sec);
    repeat apply add_seg_ok; exact Ha.
Qed.

Lemma visit_table_ok ti rows a : acc_ok a -> acc_ok (visit_table ti rows a).
Proof.
  apply fold_indexed_ok. intros ri cells a' Ha'.
  apply fold_indexed_ok; [|exact Ha'].
  intros; apply add_seg_ok; assumption.
Qed.

(** Every laid-out segment can be read back from the text by its offsets,
    and the separator sits right behind it. *)
Lemma laid_out_read_back pre segs post :
  laid_out (Py.len pre) segs ->
  Forall (fun s =>
            Py.slice (pre ++ reconstruct segs ++ post) (global_start s) (global_end s) = text s /\
            Py.index (pre ++ reconstruct segs ++ post) (global_end s) = Some Py.NL) segs.
Proof.
  revert pre.
  induction segs as [|s segs IH]; intros pre Hl; [constructor|].
  simpl in Hl. destruct Hl as (Hs & He & Hl).
  assert (Hrec : reconstruct (s :: segs) = text s ++ [Py.NL] ++ reconstruct segs).
  { unfold reconstruct. simpl. rewrite <- app_assoc. reflexivity. }
  constructor.
  - rewrite Hrec, He, Hs. split.
    + rewrite <- (app_assoc (text s)). apply slice_app_mid.
    + rewrite <- len_app.
      replace (pre ++ (text s ++ [Py.NL] ++ reconstruct segs) ++ post)
        with ((pre ++ text s) ++ Py.NL :: (reconstruct segs ++ post))
        by (rewrite <- !app_assoc; reflexivity).
      apply index_app_mid.
  - specialize (IH (pre ++ text s ++ [Py.NL])).
    rewrite Hrec.
    replace (pre ++ (text s ++ [Py.NL] ++ reconstruct segs) ++ post)
      with ((pre ++ text s ++ [Py.NL]) ++ reconstruct segs ++ post)
      by (rewrite <- !app_assoc; reflexivity).
    apply IH.
    rewrite !len_app. change (Py.len [Py.NL]) with 1.
    rewrite He, Hs in Hl.
    replace (Py.len pre + (Py.len (text s) + 1)) with (Py.len pre + Py.len (text s) + 1) by lia.
    exact Hl.
Qed.

Lemma len_reconstruct segs :
  Py.len (reconstruct segs) = fold_right (fun s n => Py.len (text s) + 1 + n) 0 segs.
Proof.
  induction segs as [|s segs IH]; [reflexivity|].
  unfold reconstruct in *. simpl.
  rewrite !len_app, IH.
  change (Py.len [Py.NL]) with 1. lia.
Qed.

(** C1. The segments returned by [extract_docx_segments] partition the
    canonical text: they are laid out from offset 0, each ending at its
    start plus the length of its text and each followed by exactly one
    separator character; the text is the concatenation of every segment's
    text followed by the separator, so its length is the sum of the segment
    lengths plus one separator each; and each segment's offsets read its
    own text back from the canonical text. *)
Theorem C1_segments_partition_text (d : Document) :
  let '(full_text, segs, _) := extract_docx_segments d in
  laid_out 0 segs /\
  full_text = reconstruct segs /\
  Py.len full_text = fold_right (fun s n => Py.len (text s) + 1 + n) 0 segs /\
  Forall (fun s =>
            global_end s = global_start s + Py.len (text s) /\
            Py.slice full_text (global_start s) (global_end s) = text s /\
            Py.index full_text (global_end s) = Some Py.NL) segs.
Proof.
  unfold extract_docx_segments.
  set (a3 := fold_indexed visit_table 0 _ _).
  assert (Hok : acc_ok a3).
  { subst a3.
    apply fold_indexed_ok; [intros; apply visit_table_ok; assumption|].
    apply fold_indexed_ok; [intros; apply add_seg_ok; assumption|].
    apply fold_indexed_ok; [intros; apply visit_section_ok; assumption|].
    exact acc0_ok. }
  destruct Hok as (Hb & Hc & Hl).
  repeat split.
  - exact Hl.
  - exact Hb.
  - rewrite Hb. apply len_reconstruct.
  - rewrite Hb.
    pose proof (laid_out_read_back [] (segments a3) [] Hl) as Hr.
    simpl in Hr. rewrite app_nil_r in Hr.
    assert (Hends : forall from l, laid_out from l ->
              Forall (fun s => global_end s = global_start s + Py.len (text s)) l).
    { intros from l; revert from.
      induction l as [|s l IH]; intros from Hlo; constructor.
      - apply Hlo.
      - eapply IH, Hlo. }
    specialize (Hends _ _ Hl).
    rewrite Forall_forall in *.
    intros s Hs. split; [apply Hends, Hs | apply Hr, Hs].
Qed.

End DocxSegmentsFacts.

(** ** Stable labels *)

Section StableIdFacts.
Context `{Runtime}.
Import StableId.

(** The label requests made between two calls of interest. *)
Definition run_calls (st : StableIdState) (calls : list (Py.str * Py.str * gmap Py.str Py.str))
    : StableIdState :=
  foldl (fun s '(e, o, f) => snd (get_label s e o f)) st calls.

Lemma get_label_keeps st e o f k l :
  mapping st !! k = Some l -> mapping (snd (get_label st e o f)) !! k = Some l.
Proof.
  intros Hk. unfold get_label.
  destruct (mapping st !! (e, Normalize.normalize_term o)) as [l'|] eqn:Hkey; simpl.
  - exact Hk.
  - rewrite lookup_insert_ne; [exact Hk|].
    intros Heq. subst k. congruence.
Qed.

Lemma get_label_records st e o f :
  mapping (snd (get_label st e o f)) !! (e, Normalize.normalize_term o)
  = Some (fst (get_label st e o f)).
Proof.
  unfold get_label.
  destruct (mapping st !! (e, Normalize.normalize_term o)) as [l'|] eqn:Hkey; simpl.
  - exact Hkey.
  - apply lookup_insert_eq.
Qed.

Lemma run_calls_keeps calls : forall st k l,
  mapping st !! k = Some l -> mapping (run_calls st calls) !! k = Some l.
Proof.
  induction calls as [|[[e o] f] calls IH]; intros st k l Hk; simpl; [exact Hk|].
  apply IH, get_label_keeps, Hk.
Qed.

Lemma get_label_hit st e o f l :
  mapping st !! (e, Normalize.normalize_term o) = Some l ->
  get_label st e o f = (l, st).
Proof. intros Hk. unfold get_label. rewrite Hk. reflexivity. Qed.

End StableIdFacts.


(** ** Sorting and the overlap sweep *)

Section SortFacts.
Context {A : Type} (cmp : A -> A -> comparison).

Lemma insert_by_perm x l : MaskingEngine.insert_by cmp x l ≡ₚ x :: l.
Proof.
  induction l as [|y l IH]; simpl; [reflexivity|].
  destruct (MaskingEngine.is_gt (cmp x y)); [|reflexivity].
  rewrite IH. apply Permutation_swap.
Qed.

Lemma sorted_by_perm l : MaskingEngine.sorted_by cmp l ≡ₚ l.
Proof.
  induction l as [|x l IH]; simpl; [reflexivity|].
  rewrite insert_by_perm, IH. reflexivity.
Qed.

(** A key [k] the comparison agrees with: the sort orders by it. *)
Context (k : A -> Z).
Hypothesis cmp_gt : forall x y, MaskingEngine.is_gt (cmp x y) = true -> k y <= k x.
Hypothesis cmp_not_gt : forall x y, MaskingEngine.is_gt (cmp x y) = false -> k x <= k y.

Lemma insert_by_sorted x l :
  StronglySorted (fun a b => k a <= k b) l ->
  StronglySorted (fun a b => k a <= k b) (MaskingEngine.insert_by cmp x l).
Proof.
  induction l as [|y l IH]; intros Hs; simpl.
  - repeat constructor.
  - apply StronglySorted_cons in Hs as [Hy Hl].
    destruct (MaskingEngine.is_gt (cmp x y)) eqn:Hc.
    + apply StronglySorted_cons. split; [|apply IH, Hl].
      rewrite Forall_forall. intros z Hz.
      rewrite insert_by_perm in Hz.
      apply elem_of_cons in Hz as [->|Hz]; [apply cmp_gt, Hc|].
      rewrite Forall_forall in Hy. apply Hy, Hz.
    + apply StronglySorted_cons. split.
      * pose proof (cmp_not_gt _ _ Hc) as Hxy.
        constructor; [exact Hxy|].
        eapply Forall_impl; [exact Hy|]. simpl. intros; lia.
      * apply StronglySorted_cons. split; assumption.
Qed.

Lemma sorted_by_sorted l :
  StronglySorted (fun a b => k a <= k b) (MaskingEngine.sorted_by cmp l).
Proof.
  induction l as [|x l IH]; simpl; [constructor|].
  apply insert_by_sorted, IH.
Qed.

End SortFacts.

Section SweepFacts.
Context {A : Type} (st en : A -> Z) (better : A -> A -> bool).

Local Abbreviation step := (MaskingEngine.sweep_step st en better).

(** Two accepted elements in order: the first starts no later than the
    second and ends where the second starts or before. *)
Definition apart (a b : A) : Prop := st a <= st b /\ en a <= st b.

Lemma sweep_step_nil r : step [] r = [r].
Proof. reflexivity. Qed.

(** The overlap case and the append case of the sweep, on an accumulator
    whose last element is [prev]. *)
Lemma sweep_step_snoc l prev r :
  step (l ++ [prev]) r =
  if st r <? en prev
  then l ++ [if better r prev then r else prev]
  else (l ++ [prev]) ++ [r].
Proof.
  unfold MaskingEngine.sweep_step.
  rewrite last_snoc, removelast_last.
  destruct (st r <? en prev); [|reflexivity].
  destruct (better r prev); reflexivity.
Qed.

Lemma acc_cases (acc : list A) : acc = [] \/ exists l prev, acc = l ++ [prev].
Proof.
  destruct (last acc) as [x|] eqn:Hl.
  - right. apply last_Some in Hl as [l' ->]. eauto.
  - left. apply last_None, Hl.
Qed.

Lemma sweep_from_subset l : forall acc x,
  x ∈ foldl step acc l -> x ∈ acc \/ x ∈ l.
Proof.
  induction l as [|c l IH]; intros acc x Hx; simpl in Hx; [left; exact Hx|].
  apply IH in Hx as [Hx|Hx]; [|right; right; exact Hx].
  destruct (acc_cases acc) as [->|(l0 & prev & ->)].
  - rewrite sweep_step_nil in Hx. apply list_elem_of_singleton in Hx as ->.
    right; left.
  - rewrite sweep_step_snoc in Hx.
    destruct (st c <? en prev).
    + apply elem_of_app in Hx as [Hx|Hx]; [left; apply elem_of_app; left; exact Hx|].
      apply list_elem_of_singleton in Hx.
      destruct (better c prev); subst x.
      * right; left.
      * left. apply elem_of_app; right; left.
    + apply elem_of_app in Hx as [Hx|Hx]; [left; exact Hx|].
      apply list_elem_of_singleton in Hx as ->. right; left.
Qed.

Lemma sweep_from_apart l : forall acc,
  StronglySorted (fun a b => st a <= st b) l ->
  StronglySorted apart acc ->
  (forall a c, a ∈ acc -> c ∈ l -> st a <= st c) ->
  StronglySorted apart (foldl step acc l).
Proof.
  induction l as [|c l IH]; intros acc Hl Hacc Hle; simpl; [exact Hacc|].
  apply StronglySorted_cons in Hl as [Hc Hl].
  rewrite Forall_forall in Hc.
  assert (Hstep : StronglySorted apart (step acc c) /\
                  forall a, a ∈ step acc c -> st a <= st c).
  { destruct (acc_cases acc) as [->|(l0 & prev & ->)].
    - rewrite sweep_step_nil. split; [repeat constructor|].
      intros a Ha. apply list_elem_of_singleton in Ha as ->. lia.
    - rewrite sweep_step_snoc.
      apply StronglySorted_app in Hacc as (Hcross & Hl0 & _).
      assert (Hprev : st prev <= st c).
      { apply Hle; [apply elem_of_app; right; left | left]. }
      assert (Hl0c : forall a, a ∈ l0 -> apart a c).
      { intros a Ha.
        destruct (Hcross a prev Ha) as [H1 H2]; [left|].
        split; lia. }
      destruct (Z.ltb_spec (st c) (en prev)) as [Hov|Hno].
      + destruct (better c prev).
        * split.
          -- apply StronglySorted_app. split; [|split; [exact Hl0 | repeat constructor]].
             intros x1 x2 H1 H2. apply list_elem_of_singleton in H2 as ->. apply Hl0c, H1.
          -- intros a Ha. apply elem_of_app in Ha as [Ha|Ha].
             ++ apply Hl0c, Ha.
             ++ apply list_elem_of_singleton in Ha as ->. lia.
        * split.
          -- apply StronglySorted_app. split; [exact Hcross|split; [exact Hl0 | repeat constructor]].
          -- intros a Ha. apply Hle; [exact Ha | left].
      + split.
        * apply StronglySorted_app. split; [|split; [|repeat constructor]].
          -- intros x1 x2 H1 H2. apply list_elem_of_singleton in H2 as ->.
             apply elem_of_app in H1 as [H1|H1]; [apply Hl0c, H1|].
             apply list_elem_of_singleton in H1 as ->. split; lia.
          -- apply StronglySorted_app.
             split; [exact Hcross|split; [exact Hl0 | repeat constructor]].
        * intros a Ha. apply elem_of_app in Ha as [Ha|Ha].
          -- apply Hle; [exact Ha | left].
          -- apply list_elem_of_singleton in Ha as ->. lia. }
  destruct Hstep as [Hs1 Hs2].
  apply IH; [exact Hl | exact Hs1 |].
  intros a c' Ha Hc'. specialize (Hs2 a Ha). specialize (Hc c' Hc'). lia.
Qed.

Lemma sweep_apart l :
  StronglySorted (fun a b => st a <= st b) l ->
  StronglySorted apart (MaskingEngine.sweep st en better l).
Proof.
  intros Hl. apply sweep_from_apart; [exact Hl | constructor |].
  intros a c Ha. inversion Ha.
Qed.

Lemma sweep_subset l x : x ∈ MaskingEngine.sweep st en better l -> x ∈ l.
Proof.
  intros Hx. apply sweep_from_subset in Hx as [Hx|Hx]; [inversion Hx | exact Hx].
Qed.

End SweepFacts.

(** ** Overlap resolution *)

Section ResolveFacts.
Import MaskingEngine.

Lemma lex_opp c1 c2 : CompOpp (lex c1 c2) = lex (CompOpp c1) (CompOpp c2).
Proof. destruct c1; reflexivity. Qed.

Lemma key_cmp_antisym a b : key_cmp b a = CompOpp (key_cmp a b).
Proof.
  destruct a as [[[a1 a2] a3] a4], b as [[[b1 b2] b3] b4]. simpl.
  rewrite !lex_opp, <- !Z.compare_antisym, Qcompare_antisym. reflexivity.
Qed.

Lemma better_asym eng a b : better eng a b = true -> better eng b a = false.
Proof.
  unfold better. rewrite (key_cmp_antisym (_cand_key eng a)).
  destruct (key_cmp (_cand_key eng a) (_cand_key eng b)); simpl; congruence.
Qed.

Lemma sort_cmp_gt eng x y : is_gt (sort_cmp eng x y) = true -> start y <= start x.
Proof.
  unfold sort_cmp, lex.
  destruct (Z.compare_spec (start x) (start y)); simpl; intros; try lia; discriminate.
Qed.

Lemma sort_cmp_not_gt eng x y : is_gt (sort_cmp eng x y) = false -> start x <= start y.
Proof.
  unfold sort_cmp, lex.
  destruct (Z.compare_spec (start x) (start y)); simpl; intros; try lia; discriminate.
Qed.

(** Two candidates overlap when each starts before the other ends. *)
Definition overlap (a b : Candidate) : Prop := start a < end_ b /\ start b < end_ a.

(** The resolved list is ordered by start and each element ends where the
    next one starts or before. *)
Lemma resolve_apart eng cs : StronglySorted (apart start end_) (resolve eng cs).
Proof.
  apply sweep_apart.
  apply (sorted_by_sorted (sort_cmp eng) start (sort_cmp_gt eng) (sort_cmp_not_gt eng)).
Qed.

Lemma resolve_subset eng cs x : x ∈ resolve eng cs -> x ∈ cs.
Proof.
  intros Hx. apply sweep_subset in Hx.
  rewrite sorted_by_perm in Hx. exact Hx.
Qed.

(** Two retained candidates at different places of the resolved list do
    not overlap. *)
Lemma resolve_no_overlap eng cs i j a b :
  (i < j)%nat -> resolve eng cs !! i = Some a -> resolve eng cs !! j = Some b ->
  ~ overlap a b.
Proof.
  intros Hij Ha Hb [_ Hov].
  pose proof (resolve_apart eng cs) as Hs.
  rewrite <- (take_drop j (resolve eng cs)) in Hs.
  apply StronglySorted_app in Hs as (Hcross & _ & _).
  destruct (Hcross a b) as [_ Hend].
  - apply list_elem_of_lookup. exists i. rewrite lookup_take_lt by exact Hij. exact Ha.
  - apply list_elem_of_lookup. exists 0%nat. rewrite lookup_drop, Nat.add_0_r. exact Hb.
  - lia.
Qed.

(** The rank behind [_cand_key]: forced provenance first, then the higher
    configured priority, then the longer span, then the higher score. *)
Definition outranks (eng : Engine) (c p : Candidate) : Prop :=
  (is_forced (source c) = true /\ is_forced (source p) = false) \/
  (is_forced (source c) = is_forced (source p) /\
   (priority_of eng (entity_type p) < priority_of eng (entity_type c) \/
    (priority_of eng (entity_type p) = priority_of eng (entity_type c) /\
     (end_ p - start p < end_ c - start c \/
      (end_ p - start p = end_ c - start c /\ (score p < score c)%Q))))).

Lemma lex_lt c1 c2 : lex c1 c2 = Lt <-> c1 = Lt \/ (c1 = Eq /\ c2 = Lt).
Proof.
  destruct c1; simpl; split; intros Hx;
    try (destruct Hx as [Hx|[Hx1 Hx2]]); try discriminate; auto.
Qed.

Lemma is_lt_true c : is_lt c = true <-> c = Lt.
Proof. destruct c; simpl; split; congruence. Qed.

Lemma Qcompare_opp_lt (x y : Q) : ((- x ?= - y)%Q = Lt) <-> (y < x)%Q.
Proof.
  rewrite <- Qlt_alt. split; intros Hlt.
  - apply Qopp_lt_compat in Hlt. rewrite !Qopp_involutive in Hlt. exact Hlt.
  - apply Qopp_lt_compat, Hlt.
Qed.

Lemma better_outranks eng c p : better eng c p = true <-> outranks eng c p.
Proof.
  unfold better, outranks, _cand_key, key_cmp.
  rewrite is_lt_true, !lex_lt, Qcompare_opp_lt, !Z.compare_lt_iff, !Z.compare_eq_iff.
  destruct (is_forced (source c)), (is_forced (source p)); simpl.
  - split.
    + intros [Hx|[_ Hx]]; [lia|]. right. split; [reflexivity|].
      destruct Hx as [Hx|[H2 [Hx|[H3 Hx]]]]; [left; lia|right..].
      * split; [lia|]. left; lia.
      * split; [lia|]. right. split; [lia | exact Hx].
    + intros [[_ Hx]|[_ Hx]]; [discriminate|]. right. split; [reflexivity|].
      destruct Hx as [Hx|[H2 [Hx|[H3 Hx]]]]; [left; lia|right..].
      * split; [lia|]. left; lia.
      * split; [lia|]. right. split; [lia | exact Hx].
  - split; [intros _; left; split; reflexivity | intros _; left; lia].
  - split.
    + intros [Hx|[Hx _]]; lia.
    + intros [[Hx _]|[Hx _]]; discriminate.
  - split.
    + intros [Hx|[_ Hx]]; [lia|]. right. split; [reflexivity|].
      destruct Hx as [Hx|[H2 [Hx|[H3 Hx]]]]; [left; lia|right..].
      * split; [lia|]. left; lia.
      * split; [lia|]. right. split; [lia | exact Hx].
    + intros [[Hx _]|[_ Hx]]; [discriminate|]. right. split; [reflexivity|].
      destruct Hx as [Hx|[H2 [Hx|[H3 Hx]]]]; [left; lia|right..].
      * split; [lia|]. left; lia.
      * split; [lia|]. right. split; [lia | exact Hx].
Qed.

End ResolveFacts.

Section ResolveClaim.
Import MaskingEngine.

Lemma sweep_pair {A} (st en : A -> Z) (bt : A -> A -> bool) x y :
  sweep st en bt [x; y] = if st y <? en x then [if bt y x then y else x] else [x; y].
Proof.
  unfold sweep. simpl. rewrite sweep_step_nil.
  apply (sweep_step_snoc st en bt [] x y).
Qed.

Lemma resolve_pair eng a b :
  overlap a b ->
  exists w, resolve eng [a; b] = [w] /\ (w = a \/ w = b) /\
            (outranks eng a b -> w = a) /\ (outranks eng b a -> w = b).
Proof.
  intros [Hab Hba].
  unfold resolve, sorted_by. simpl.
  destruct (is_gt (sort_cmp eng a b)); rewrite sweep_pair.
  - destruct (Z.ltb_spec (start a) (end_ b)); [|lia].
    destruct (better eng a b) eqn:Hb.
    + exists a. repeat split; auto.
      intros Ho. apply better_outranks in Ho.
      apply better_asym in Hb. congruence.
    + exists b. repeat split; auto.
      intros Ho. apply better_outranks in Ho. congruence.
  - destruct (Z.ltb_spec (start b) (end_ a)); [|lia].
    destruct (better eng b a) eqn:Hb.
    + exists b. repeat split; auto.
      intros Ho. apply better_outranks in Ho.
      apply better_asym in Hb. congruence.
    + exists a. repeat split; auto.
      intros Ho. apply better_outranks in Ho. congruence.
Qed.

(** C2, as the sweep does it.  When the sweep meets a candidate that
    starts before the end of the last accepted one, exactly one of the two
    stays in that place: the new one if it ranks higher (forced first, then
    higher priority, then longer span, then higher score), the accepted one
    otherwise.  Every retained candidate is an input candidate, two
    retained candidates never overlap, and when the input is one
    overlapping pair exactly one of the two is retained, the higher-ranking
    one whenever one outranks the other. *)
Theorem C2_sweep_keeps_higher_rank (eng : Engine) :
  (forall l prev c,
      start c < end_ prev ->
      sweep_step start end_ (better eng) (l ++ [prev]) c
      = l ++ [if better eng c prev then c else prev]) /\
  (forall c p, better eng c p = true <-> outranks eng c p) /\
  (forall cs x, x ∈ resolve eng cs -> x ∈ cs) /\
  (forall cs i j a b,
      (i < j)%nat -> resolve eng cs !! i = Some a -> resolve eng cs !! j = Some b ->
      ~ overlap a b) /\
  (forall a b,
      overlap a b ->
      exists w, resolve eng [a; b] = [w] /\ (w = a \/ w = b) /\
                (outranks eng a b -> w = a) /\ (outranks eng b a -> w = b)).
Proof.
  split; [|split; [|split; [|split]]].
  - intros l prev c Hov. rewrite sweep_step_snoc.
    destruct (Z.ltb_spec (start c) (end_ prev)); [reflexivity | lia].
  - apply better_outranks.
  - apply resolve_subset.
  - apply resolve_no_overlap.
  - apply resolve_pair.
Qed.

End ResolveClaim.

(** A long forced mask and a short one inside it: the long one is kept. *)
Lemma C2_sweep_keeps_higher_rank_witness :
  let eng := Sample.engine (Py.lit "LABEL") [] [] in
  let a := Sample.forced_candidate 0 10 in
  let b := Sample.forced_candidate 2 5 in
  overlap a b /\
  exists w, MaskingEngine.resolve eng [a; b] = [w] /\ (w = a \/ w = b) /\
            (outranks eng a b -> w = a) /\ (outranks eng b a -> w = b).
Proof.
  intros eng a b.
  assert (Hov : overlap a b) by (split; vm_compute; reflexivity).
  split; [exact Hov|].
  exact (proj2 (proj2 (proj2 (proj2 (C2_sweep_keeps_higher_rank eng)))) a b Hov).
Defined.

(** Three forced masks [0,10), [2,5) and [4,6): the second and the third
    overlap each other, and neither is retained, because both lose to the
    first.  So "exactly one of every overlapping pair is retained" fails. *)
Lemma C2_overlapping_pair_both_dropped :
  ~ (forall (eng : MaskingEngine.Engine) (cs : list MaskingEngine.Candidate)
            (a b : MaskingEngine.Candidate),
        a ∈ cs -> b ∈ cs -> a <> b -> overlap a b ->
        (a ∈ MaskingEngine.resolve eng cs /\ b ∉ MaskingEngine.resolve eng cs) \/
        (b ∈ MaskingEngine.resolve eng cs /\ a ∉ MaskingEngine.resolve eng cs)).
Proof.
  intros Hclaim.
  pose (eng := Sample.engine (Py.lit "LABEL") [] []).
  pose (a := Sample.forced_candidate 0 10).
  pose (b := Sample.forced_candidate 2 5).
  pose (c := Sample.forced_candidate 4 6).
  assert (Hres : MaskingEngine.resolve eng [a; b; c] = [a]) by (vm_compute; reflexivity).
  destruct (Hclaim eng [a; b; c] b c) as [[Hin _]|[Hin _]].
  - right; left.
  - right; right; left.
  - discriminate.
  - split; vm_compute; reflexivity.
  - rewrite Hres in Hin. apply list_elem_of_singleton in Hin. discriminate.
  - rewrite Hres in Hin. apply list_elem_of_singleton in Hin. discriminate.
Qed.

(** ** The labelling loop *)

Section LoopFacts.
Context `{Runtime}.
Import MaskingEngine.

Variables (eng : Engine) (text : Py.str) (allowlist : list Py.str) (doc_id : Py.str).

(** The hit that one iteration records, and the label state it leaves. *)
Definition hit_of (st : StableId.StableIdState) (r : Candidate) : Hit :=
  let '(s, e) := hit_span text r in
  let original := Py.slice text s e in
  let '(repl, reason, _) := decide_replacement eng text allowlist st r s e original in
  {| h_doc_id := doc_id; h_entity_type := entity_type r;
     h_start := s; h_end := e; h_score := score r;
     h_original := original; h_replacement := repl;
     h_reason := reason; h_source := source r |}.

Definition next_state (st : StableId.StableIdState) (r : Candidate) : StableId.StableIdState :=
  let '(s, e) := hit_span text r in
  let '(_, _, st') := decide_replacement eng text allowlist st r s e (Py.slice text s e) in
  st'.

Fixpoint hits_from (st : StableId.StableIdState) (rs : list Candidate) : list Hit :=
  match rs with
  | [] => []
  | r :: rs' => hit_of st r :: hits_from (next_state st r) rs'
  end.

Definition flagged (h : Hit) : bool :=
  needs_review eng (h_score h) (h_reason h) (h_source h).

Definition flag (h : Hit) : ReviewHit := {| rv_hit := h; review_flag := true |}.

Lemma label_step_eq lp r :
  label_step eng text allowlist doc_id lp r =
  let h := hit_of (state lp) r in
  {| out := out lp ++ [Py.slice text (last_ lp) (h_start h); h_replacement h];
     l_hits := l_hits lp ++ [h];
     l_review := if flagged h then l_review lp ++ [flag h] else l_review lp;
     last_ := h_end h;
     state := next_state (state lp) r |}.
Proof.
  unfold label_step, hit_of, next_state, flagged, flag.
  destruct (hit_span text r) as [s e].
  destruct (decide_replacement eng text allowlist (state lp) r s e (Py.slice text s e))
    as [[repl reason] st'].
  simpl. rewrite <- app_assoc. reflexivity.
Qed.

Local Abbreviation run := (foldl (label_step eng text allowlist doc_id)).

Lemma run_hits rs : forall lp,
  l_hits (run lp rs) = l_hits lp ++ hits_from (state lp) rs.
Proof.
  induction rs as [|r rs IH]; intros lp; simpl; [rewrite app_nil_r; reflexivity|].
  rewrite IH, label_step_eq. simpl. rewrite <- app_assoc. reflexivity.
Qed.

Lemma run_review rs : forall lp,
  l_review (run lp rs)
  = l_review lp ++ List.map flag (List.filter flagged (hits_from (state lp) rs)).
Proof.
  induction rs as [|r rs IH]; intros lp; simpl; [rewrite app_nil_r; reflexivity|].
  rewrite IH, label_step_eq. simpl.
  destruct (flagged (hit_of (state lp) r)); simpl; [rewrite <- app_assoc|]; reflexivity.
Qed.

(** The untouched ranges of the input, in output order: before the first
    hit, between consecutive hits, and after the last one. *)
Fixpoint gaps (n last : Z) (hs : list Hit) : list (Z * Z) :=
  match hs with
  | [] => [(last, n)]
  | h :: hs' => (last, h_start h) :: gaps n (h_end h) hs'
  end.

(** Untouched slices and replacements, alternating. *)
Fixpoint weave (slices repls : list Py.str) : Py.str :=
  match slices, repls with
  | g :: slices', r :: repls' => g ++ r ++ weave slices' repls'
  | g :: _, [] => g
  | [], _ => []
  end.

Definition frame (last : Z) (hs : list Hit) : Py.str :=
  weave (List.map (fun g => Py.slice text (fst g) (snd g)) (gaps (Py.len text) last hs))
        (List.map h_replacement hs).

Lemma slice_to_end (i : Z) : Py.slice text i (Py.len text) = Py.slice_from text i.
Proof.
  unfold Py.slice, Py.slice_from.
  pose proof (len_nonneg text) as Hn.
  rewrite (clamp_inside (Py.len text) (Py.len text)) by lia.
  pose proof (clamp_range (Py.len text) i Hn) as Hc.
  apply take_ge. rewrite length_drop. unfold Py.len in *. lia.
Qed.

Lemma run_out rs : forall lp,
  concat (out (run lp rs)) ++ Py.slice_from text (last_ (run lp rs))
  = concat (out lp) ++ frame (last_ lp) (hits_from (state lp) rs).
Proof.
  induction rs as [|r rs IH]; intros lp; simpl.
  - unfold frame. simpl. rewrite slice_to_end. reflexivity.
  - rewrite IH, label_step_eq. simpl.
    rewrite concat_app. simpl. rewrite app_nil_r, <- !app_assoc. reflexivity.
Qed.

(** What a run reports, in terms of the resolved candidates. *)
Definition resolved_of (detected : list Candidate) : list Candidate :=
  apply_keep_spans (keep_spans (runtime eng))
    (resolve eng (detected ++
                  List.map cand_of_forced (_normalize_forced_masks (forced_masks (runtime eng))))).

Lemma mask_candidates_eq detected :
  let hs := hits_from StableId.create (resolved_of detected) in
  let '(masked, rep) := mask_candidates eng text doc_id allowlist detected in
  masked = frame 0 hs /\
  hits rep = hs /\
  review rep = List.map flag (List.filter flagged hs).
Proof.
  unfold mask_candidates. fold (resolved_of detected).
  simpl. repeat split.
  - rewrite concat_app. simpl. rewrite app_nil_r.
    rewrite run_out. reflexivity.
  - rewrite run_hits. reflexivity.
  - rewrite run_review. reflexivity.
Qed.

End LoopFacts.

Section HitFacts.
Context `{Runtime}.
Import MaskingEngine.

Variables (eng : Engine) (text : Py.str) (allowlist : list Py.str) (doc_id : Py.str).

Local Abbreviation hit_at := (hit_of eng text allowlist doc_id).
Local Abbreviation hits_at := (hits_from eng text allowlist doc_id).

Lemma advance_ge p budget : forall rr, rr <= advance p budget text rr.
Proof.
  induction budget as [|b IH]; intros rr; simpl; [lia|].
  destruct (rr <? Py.len text); [|lia].
  destruct (Py.index text rr) as [c|]; [|lia].
  destruct (p c); [|lia].
  specialize (IH (rr + 1)). lia.
Qed.

(** The expansion never moves the start and never shrinks the span: the
    test for a bare suffix repeats the test for a bare prefix, so only the
    rightward branch can run. *)
Lemma expand_bounds s e :
  fst (_expand_company_span text s e) = s /\ e <= snd (_expand_company_span text s e).
Proof.
  unfold _expand_company_span, corp_suffixes.
  destruct ((s <? 0) || (e <=? s) || (Py.len text <? e)); cbn [fst snd]; [lia|].
  assert (Hadv : e <= advance (fun c => negb (is_boundary c)) 80 text
                        (advance is_blank (length text) text e)).
  { etransitivity; [apply (advance_ge is_blank (length text) e)|]. apply advance_ge. }
  destruct (Py.mem (Py.slice text s e) corp_prefixes) eqn:Hp; cbn [orb fst snd].
  - split; [reflexivity | exact Hadv].
  - destruct (Py.mem (Py.slice text s e) corp_abbr); cbn [fst snd].
    + split; [reflexivity | exact Hadv].
    + lia.
Qed.

Lemma hit_span_bounds r :
  fst (hit_span text r) = start r /\ end_ r <= snd (hit_span text r).
Proof.
  unfold hit_span.
  destruct (Py.eqb (entity_type r) (Py.lit "COMPANY") && negb (is_forced (source r))).
  - apply expand_bounds.
  - cbn [fst snd]. lia.
Qed.

Lemma hit_of_fields st r :
  h_start (hit_at st r) = fst (hit_span text r) /\
  h_end (hit_at st r) = snd (hit_span text r) /\
  h_score (hit_at st r) = score r /\
  h_source (hit_at st r) = source r /\
  h_entity_type (hit_at st r) = entity_type r /\
  h_original (hit_at st r) = Py.slice text (fst (hit_span text r)) (snd (hit_span text r)).
Proof.
  unfold hit_of.
  destruct (hit_span text r) as [s e].
  destruct (decide_replacement eng text allowlist st r s e (Py.slice text s e))
    as [[repl reason] st'].
  simpl. repeat split.
Qed.

Lemma hits_from_starts rs : forall st,
  List.map h_start (hits_at st rs) = List.map start rs.
Proof.
  induction rs as [|r rs IH]; intros st; simpl; [reflexivity|].
  rewrite IH. f_equal.
  destruct (hit_of_fields st r) as (-> & _). apply hit_span_bounds.
Qed.

Lemma hits_from_wf rs : forall st,
  Forall (fun c => 0 <= start c <= end_ c) rs ->
  Forall (fun h => 0 <= h_start h <= h_end h) (hits_at st rs).
Proof.
  induction rs as [|r rs IH]; intros st Hwf; simpl; [constructor|].
  apply Forall_cons in Hwf as [Hr Hwf].
  constructor; [|apply IH, Hwf].
  destruct (hit_of_fields st r) as (-> & -> & _).
  destruct (hit_span_bounds r) as [-> Hend]. lia.
Qed.

(** The replacement of a hit that is not passed through, in BLACK mode. *)
Definition passed_through (h : Hit) : bool :=
  negb (is_forced (h_source h))
  && Py.mem (h_reason h)
       [Py.lit "keep:parties"; Py.lit "keep:allowlist"; Py.lit "keep:money_no_context"].

Lemma hit_of_black st r :
  output_mode eng = Py.lit "BLACK" ->
  passed_through (hit_at st r) = false ->
  h_replacement (hit_at st r) = black eng (h_original (hit_at st r)).
Proof.
  intros Hmode. unfold passed_through, hit_of.
  destruct (hit_span text r) as [s e].
  unfold decide_replacement. rewrite Hmode.
  change (Py.eqb (Py.lit "BLACK") (Py.lit "BLACK")) with true.
  destruct (is_forced (source r)) eqn:Hf; simpl; [rewrite Hf; reflexivity|].
  destruct (Py.eqb (entity_type r) (Py.lit "PARTIES")); simpl;
    [rewrite Hf; simpl; discriminate|].
  destruct (TextRules.in_list (Py.slice text s e) allowlist); simpl;
    [rewrite Hf; simpl; discriminate|].
  destruct (Py.eqb (entity_type r) (Py.lit "MONEY")
            && negb (TextRules.has_money_context text s e)); simpl;
    [rewrite Hf; simpl; discriminate|].
  reflexivity.
Qed.

Lemma hits_from_black rs : forall st,
  output_mode eng = Py.lit "BLACK" ->
  Forall (fun h => passed_through h = false ->
                   h_replacement h = black eng (h_original h)) (hits_at st rs).
Proof.
  induction rs as [|r rs IH]; intros st Hmode; simpl; constructor.
  - apply hit_of_black, Hmode.
  - apply IH, Hmode.
Qed.

End HitFacts.

(** ** The frame around the hits *)

Section FrameFacts.
Import MaskingEngine.

(** A position lies outside every hit span. *)
Definition outside (p : Z) (hs : list Hit) : Prop :=
  Forall (fun h => ~ (h_start h <= p < h_end h)) hs.

Lemma gaps_cover n hs : forall last p,
  0 <= last <= p -> p < n ->
  Forall (fun h => 0 <= h_end h) hs ->
  outside p hs ->
  exists i lo hi, gaps n last hs !! i = Some (lo, hi) /\ 0 <= lo <= p /\ p < hi.
Proof.
  induction hs as [|h hs IH]; intros last p Hlast Hp Hends Hout; simpl.
  - exists 0%nat, last, n. repeat split; lia.
  - apply Forall_cons in Hends as [Hh Hends].
    apply Forall_cons in Hout as [Hph Hout].
    destruct (Z.lt_ge_cases p (h_start h)) as [Hlt|Hge].
    + exists 0%nat, last, (h_start h). repeat split; lia.
    + destruct (IH (h_end h) p) as (i & lo & hi & Hi & Hb); try assumption; [lia|].
      exists (S i), lo, hi. split; assumption.
Qed.

Lemma gaps_lower n b hs : forall last,
  b <= last ->
  Forall (fun h => b <= h_end h) hs ->
  Forall (fun g => b <= fst g) (gaps n last hs).
Proof.
  induction hs as [|h hs IH]; intros last Hlast Hends; simpl.
  - repeat constructor. exact Hlast.
  - apply Forall_cons in Hends as [Hh Hends].
    constructor; [exact Hlast|]. apply IH; assumption.
Qed.

(** With hits ordered by start, each untouched range ends where every
    later one begins or before. *)
Lemma gaps_ascending n hs : forall last,
  StronglySorted (fun a b => h_start a <= h_start b) hs ->
  Forall (fun h => h_start h <= h_end h) hs ->
  StronglySorted (fun g1 g2 => snd g1 <= fst g2) (gaps n last hs).
Proof.
  induction hs as [|h hs IH]; intros last Hs Hwf; simpl.
  - repeat constructor.
  - apply StronglySorted_cons in Hs as [Hh Hs].
    apply Forall_cons in Hwf as [Hhw Hwf].
    apply StronglySorted_cons. split; [|apply IH; assumption].
    simpl. apply gaps_lower; [exact Hhw|].
    rewrite Forall_forall in Hh, Hwf. rewrite Forall_forall. intros x Hx.
    specialize (Hh x Hx). specialize (Hwf x Hx). lia.
Qed.

(** The character at an in-range position of a slice is the character of
    the text at that position. *)
Lemma slice_index {X} (s : list X) lo hi p :
  0 <= lo <= p -> p < hi -> p < Py.len s ->
  Py.index (Py.slice s lo hi) (p - lo) = Py.index s p.
Proof.
  intros Hlo Hhi Hp.
  pose proof (len_nonneg s) as Hn.
  assert (Hclo : Py.clamp (Py.len s) lo = lo) by (apply clamp_inside; lia).
  assert (Hchi : p < Py.clamp (Py.len s) hi).
  { unfold Py.clamp. destruct (Z.ltb_spec hi 0); lia. }
  assert (Hlen : Py.len (Py.slice s lo hi) = Py.clamp (Py.len s) hi - lo).
  { unfold Py.slice. rewrite Hclo. unfold Py.len at 1.
    rewrite length_take, length_drop.
    pose proof (clamp_range (Py.len s) hi Hn). unfold Py.len in *. lia. }
  unfold Py.index. rewrite Hlen.
  destruct (Z.leb_spec 0 (p - lo)); [|lia].
  destruct (Z.ltb_spec (p - lo) (Py.clamp (Py.len s) hi - lo)); [|lia].
  destruct (Z.leb_spec 0 p); [|lia].
  destruct (Z.ltb_spec p (Py.len s)); [|lia].
  simpl. unfold Py.slice. rewrite Hclo.
  rewrite lookup_take_lt by lia.
  rewrite lookup_drop. f_equal. lia.
Qed.

Lemma sorted_transfer {X Y} (f : X -> Z) (g : Y -> Z) (l1 : list X) : forall (l2 : list Y),
  List.map f l1 = List.map g l2 ->
  StronglySorted (fun a b => f a <= f b) l1 ->
  StronglySorted (fun a b => g a <= g b) l2.
Proof.
  induction l1 as [|x l1 IH]; intros [|y l2] Hmap Hs; try discriminate; [constructor|].
  simpl in Hmap. injection Hmap as Hxy Hmap.
  apply StronglySorted_cons in Hs as [Hx Hs].
  apply StronglySorted_cons. split; [|apply IH; assumption].
  rewrite Forall_forall in Hx. rewrite Forall_forall. intros z Hz.
  assert (Hgz : g z ∈ List.map g l2) by (apply list_elem_of_fmap; eauto).
  rewrite <- Hmap in Hgz. apply list_elem_of_fmap in Hgz as (x' & Heq & Hx').
  specialize (Hx x' Hx'). lia.
Qed.

Lemma sorted_weaken {X} (R S : X -> X -> Prop) (l : list X) :
  (forall a b, R a b -> S a b) -> StronglySorted R l -> StronglySorted S l.
Proof.
  intros HRS. induction 1 as [|x l Hl IH Hx]; constructor; [exact IH|].
  eapply Forall_impl; [exact Hx | auto].
Qed.

Lemma sorted_filter {X} (R : X -> X -> Prop) (f : X -> bool) (l : list X) :
  StronglySorted R l -> StronglySorted R (List.filter f l).
Proof.
  induction 1 as [|x l Hl IH Hx]; simpl; [constructor|].
  destruct (f x); [|exact IH].
  constructor; [exact IH|].
  rewrite Forall_forall in Hx. rewrite Forall_forall. intros y Hy.
  apply Hx. apply list_elem_of_In in Hy. apply list_elem_of_In.
  apply filter_In in Hy. apply Hy.
Qed.

Lemma normalize_forced_wf fms :
  Forall (fun fm => 0 <= fm_start fm < fm_end fm) (_normalize_forced_masks fms).
Proof.
  unfold _normalize_forced_masks.
  assert (Hgen : forall acc,
            Forall (fun fm => 0 <= fm_start fm < fm_end fm) acc ->
            Forall (fun fm => 0 <= fm_start fm < fm_end fm)
              (foldl (fun out fm =>
                 match fi_start fm, fi_end fm with
                 | Some s, Some e =>
                     if (0 <=? s) && (s <? e)
                     then out ++ [{| fm_start := s; fm_end := e;
                                     fm_entity_type := default (Py.lit "CUSTOM") (fi_entity_type fm);
                                     fm_label := fi_label fm;
                                     fm_reason := default (Py.lit "forced:mask_once") (fi_reason fm) |}]
                     else out
                 | _, _ => out
                 end) acc fms)).
  { induction fms as [|fm fms IH]; intros acc Hacc; simpl; [exact Hacc|].
    apply IH.
    destruct (fi_start fm) as [s|]; [|exact Hacc].
    destruct (fi_end fm) as [e|]; [|exact Hacc].
    destruct (Z.leb_spec 0 s); simpl; [|exact Hacc].
    destruct (Z.ltb_spec s e); [|exact Hacc].
    apply Forall_app. split; [exact Hacc|].
    repeat constructor; simpl; lia. }
  apply Hgen. constructor.
Qed.

Lemma keep_spans_subset keep rs x : x ∈ apply_keep_spans keep rs -> x ∈ rs.
Proof.
  unfold apply_keep_spans. destruct keep; [auto|].
  intros Hx. apply list_elem_of_In in Hx. apply filter_In in Hx.
  apply list_elem_of_In, Hx.
Qed.

Lemma keep_spans_sorted {R : Candidate -> Candidate -> Prop} keep rs :
  StronglySorted R rs -> StronglySorted R (apply_keep_spans keep rs).
Proof.
  unfold apply_keep_spans. destruct keep; [auto|]. apply sorted_filter.
Qed.

End FrameFacts.

(** ** What a run reports *)

Section ReportFacts.
Context `{Runtime}.
Import MaskingEngine.

Variables (eng : Engine) (text doc_id : Py.str).

(** A completed run is the labelling of the resolved candidates of some
    detector answer. *)
Lemma run_inv masked rep :
  mask_text_with_report eng text doc_id = Some (masked, rep) ->
  exists detected,
    detect eng text (run_allowlist eng text) = Some detected /\
    let hs := hits_from eng text (run_allowlist eng text) doc_id StableId.create
                (resolved_of eng detected) in
    masked = frame text 0 hs /\
    hits rep = hs /\
    review rep = List.map flag (List.filter (flagged eng) hs).
Proof.
  unfold mask_text_with_report. intros Hrun.
  destruct (detect eng text (run_allowlist eng text)) as [detected|] eqn:Hd;
    [|discriminate].
  exists detected. split; [reflexivity|].
  pose proof (mask_candidates_eq eng text (run_allowlist eng text) doc_id detected) as Heq.
  cbn [mbind option_bind] in Hrun.
  assert (Hmc : mask_candidates eng text doc_id (run_allowlist eng text) detected
                = (masked, rep)) by congruence.
  rewrite Hmc in Heq. exact Heq.
Qed.

Lemma resolved_sorted detected :
  StronglySorted (fun a b => start a <= start b) (resolved_of eng detected).
Proof.
  unfold resolved_of. apply keep_spans_sorted.
  eapply sorted_weaken; [|apply resolve_apart].
  intros a b [Hab _]. exact Hab.
Qed.

Lemma resolved_wf detected :
  Forall (fun c => 0 <= start c <= end_ c) detected ->
  Forall (fun c => 0 <= start c <= end_ c) (resolved_of eng detected).
Proof.
  intros Hwf. rewrite Forall_forall. intros c Hc.
  unfold resolved_of in Hc.
  apply keep_spans_subset, resolve_subset in Hc.
  apply elem_of_app in Hc as [Hc|Hc].
  - rewrite Forall_forall in Hwf. apply Hwf, Hc.
  - apply list_elem_of_fmap in Hc as (fm & -> & Hfm).
    pose proof (normalize_forced_wf (forced_masks (runtime eng))) as Hn.
    rewrite Forall_forall in Hn. specialize (Hn fm Hfm). simpl. lia.
Qed.

(** The reported hits are ordered by start offset. *)
Lemma report_hits_sorted masked rep :
  mask_text_with_report eng text doc_id = Some (masked, rep) ->
  StronglySorted (fun a b => h_start a <= h_start b) (hits rep).
Proof.
  intros Hrun. apply run_inv in Hrun as (detected & _ & _ & -> & _).
  eapply (sorted_transfer start h_start); [|apply resolved_sorted].
  symmetry. apply hits_from_starts.
Qed.

End ReportFacts.

(** ** Blackout replacement *)

Section BlackClaim.
Context `{Runtime}.
Import MaskingEngine.

(** C4. In BLACK output mode every reported hit that is masked rather than
    passed through (it is forced, or its reason is none of the three keep
    reasons) has as replacement the filler character repeated
    [max(black_min_len, L')] times, [L'] being the length of the hit's
    original text. *)
Theorem C4_black_replacement (eng : Engine) (text doc_id masked : Py.str) (rep : Report) :
  output_mode eng = Py.lit "BLACK" ->
  mask_text_with_report eng text doc_id = Some (masked, rep) ->
  Forall (fun h =>
            passed_through h = false ->
            h_replacement h
            = replicate (Z.to_nat (Z.max (black_min_len eng) (Py.len (h_original h)))) BLACK_CHAR
            /\ Py.len (h_replacement h) = Z.max (black_min_len eng) (Py.len (h_original h)))
         (hits rep).
Proof.
  intros Hmode Hrun.
  apply run_inv in Hrun as (detected & _ & _ & -> & _).
  eapply Forall_impl;
    [apply (hits_from_black eng text (run_allowlist eng text) doc_id _ _ Hmode)|].
  simpl. intros h Hh Hpass. specialize (Hh Hpass).
  rewrite Hh. unfold black, Py.repeat_char. split; [reflexivity|].
  unfold Py.len at 1. rewrite length_replicate.
  pose proof (len_nonneg (h_original h)). lia.
Qed.

End BlackClaim.

(** A two-character name and a forced five-character span in BLACK mode
    with the minimum length 3: three and five filler characters. *)
Lemma C4_black_replacement_witness :
  let eng := Sample.engine (Py.lit "BLACK")
               [Sample.detection 0 2 (Py.lit "PERSON") (9 # 10)] [Sample.force 4 9] in
  let text := Py.lit "abcdefghijkl" in
  MaskingEngine.output_mode eng = Py.lit "BLACK" /\
  exists masked rep,
    MaskingEngine.mask_text_with_report (H := Sample.runtime) eng text (Py.lit "doc")
    = Some (masked, rep) /\
    Forall (fun h =>
              passed_through h = false ->
              MaskingEngine.h_replacement h
              = replicate (Z.to_nat (Z.max (MaskingEngine.black_min_len eng)
                                           (Py.len (MaskingEngine.h_original h))))
                          MaskingEngine.BLACK_CHAR
              /\ Py.len (MaskingEngine.h_replacement h)
                 = Z.max (MaskingEngine.black_min_len eng) (Py.len (MaskingEngine.h_original h)))
           (MaskingEngine.hits rep).
Proof.
  intros eng text. split; [reflexivity|].
  assert (Hsome : is_Some (MaskingEngine.mask_text_with_report (H := Sample.runtime)
                             eng text (Py.lit "doc"))).
  { vm_compute. eexists. reflexivity. }
  destruct Hsome as [[masked rep] Hrun].
  exists masked, rep. split; [exact Hrun|].
  exact (C4_black_replacement (H := Sample.runtime) eng text (Py.lit "doc") masked rep
           eq_refl Hrun).
Defined.

(** ** Review list *)

Section ReviewClaim.
Context `{Runtime}.
Import MaskingEngine.

Lemma needs_review_intro eng sc reason src :
  (~ (sc == 0)%Q /\ (sc < review_threshold eng)%Q) \/
  src = SrcForced \/ reason = Py.lit "keep:money_no_context" ->
  needs_review eng sc reason src = true.
Proof.
  unfold needs_review. intros [[Hnz Hlt]|[ -> | -> ]].
  - assert (Hq : Qeq_bool sc 0 = false).
    { destruct (Qeq_bool sc 0) eqn:Hq; [|reflexivity].
      apply Qeq_bool_iff in Hq. contradiction. }
    assert (Hc : (sc ?= review_threshold eng)%Q = Lt) by (apply Qlt_alt; exact Hlt).
    rewrite Hq, Hc. reflexivity.
  - rewrite orb_true_r. reflexivity.
  - replace (Py.mem (Py.lit "keep:money_no_context") [Py.lit "keep:money_no_context"])
      with true by reflexivity.
    rewrite orb_true_r. reflexivity.
Qed.

(** C6, as the code flags.  The review list is exactly the reported hits
    for which the flag condition holds, each copied with [review_flag]
    set; so every hit with a non-zero score below the threshold is on the
    review list, and so is every forced hit and every hit whose reason is
    the money-no-context pass-through. *)
Theorem C6_review_list (eng : Engine) (text doc_id masked : Py.str) (rep : Report) :
  mask_text_with_report eng text doc_id = Some (masked, rep) ->
  review rep = List.map flag (List.filter (flagged eng) (hits rep)) /\
  forall h,
    h ∈ hits rep ->
    (~ (h_score h == 0)%Q /\ (h_score h < review_threshold eng)%Q) \/
    h_source h = SrcForced \/ h_reason h = Py.lit "keep:money_no_context" ->
    {| rv_hit := h; review_flag := true |} ∈ review rep.
Proof.
  intros Hrun.
  apply run_inv in Hrun as (detected & _ & _ & Hhits & Hrev).
  rewrite <- Hhits in Hrev. split; [exact Hrev|].
  intros h Hh Hcond. rewrite Hrev.
  apply list_elem_of_fmap. exists h. split; [reflexivity|].
  apply list_elem_of_In, filter_In. split; [apply list_elem_of_In, Hh|].
  apply needs_review_intro, Hcond.
Qed.

End ReviewClaim.

(** A detection scored 0.5 against the threshold 0.8 is on the review
    list. *)
Lemma C6_review_list_witness :
  let eng := Sample.engine (Py.lit "LABEL")
               [Sample.detection 0 3 (Py.lit "PERSON") (1 # 2)] [] in
  exists masked rep,
    MaskingEngine.mask_text_with_report (H := Sample.runtime) eng (Py.lit "abcdef") (Py.lit "doc")
    = Some (masked, rep) /\
    MaskingEngine.review rep
    = List.map flag (List.filter (flagged eng) (MaskingEngine.hits rep)) /\
    length (MaskingEngine.review rep) = 1%nat.
Proof.
  intros eng.
  assert (Hsome : is_Some (MaskingEngine.mask_text_with_report (H := Sample.runtime)
                             eng (Py.lit "abcdef") (Py.lit "doc"))).
  { vm_compute. eexists. reflexivity. }
  destruct Hsome as [[masked rep] Hrun].
  exists masked, rep. split; [exact Hrun|].
  split.
  - exact (proj1 (C6_review_list (H := Sample.runtime) eng (Py.lit "abcdef") (Py.lit "doc")
                    masked rep Hrun)).
  - revert Hrun. vm_compute. intros Hrun. injection Hrun as _ <-. reflexivity.
Defined.

(** A detection that carries the score 0 is below the threshold 0.8, is
    reported as a hit, and is not put on the review list. *)
Lemma C6_zero_score_not_flagged :
  ~ (forall (rt : Runtime) (eng : MaskingEngine.Engine) (text doc_id masked : Py.str)
            (rep : MaskingEngine.Report) (h : MaskingEngine.Hit),
        MaskingEngine.mask_text_with_report eng text doc_id = Some (masked, rep) ->
        h ∈ MaskingEngine.hits rep ->
        (MaskingEngine.h_score h < MaskingEngine.review_threshold eng)%Q ->
        {| MaskingEngine.rv_hit := h; MaskingEngine.review_flag := true |}
          ∈ MaskingEngine.review rep).
Proof.
  intros Hclaim.
  pose (eng := Sample.engine (Py.lit "LABEL") [Sample.detection 0 3 (Py.lit "PERSON") 0] []).
  destruct (MaskingEngine.mask_text_with_report (H := Sample.runtime)
              eng (Py.lit "abcdef") (Py.lit "doc")) as [[masked rep]|] eqn:Hrun;
    [|vm_compute in Hrun; discriminate].
  assert (Hrev : MaskingEngine.review rep = []).
  { revert Hrun. vm_compute. intros Hrun. injection Hrun as _ <-. reflexivity. }
  assert (Hh : exists h, h ∈ MaskingEngine.hits rep /\ MaskingEngine.h_score h = 0%Q).
  { revert Hrun. vm_compute. intros Hrun. injection Hrun as _ <-.
    eexists. split; [left | reflexivity]. }
  destruct Hh as (h & Hh & Hsc).
  specialize (Hclaim Sample.runtime eng (Py.lit "abcdef") (Py.lit "doc") masked rep h Hrun Hh).
  rewrite Hrev in Hclaim.
  assert (Hlt : (MaskingEngine.h_score h < MaskingEngine.review_threshold eng)%Q).
  { rewrite Hsc. reflexivity. }
  specialize (Hclaim Hlt). inversion Hclaim.
Qed.

(** ** Frame of the masked text *)

Section FrameClaim.
Context `{Runtime}.
Import MaskingEngine.

(** C10. The masked text is the untouched input slices and the
    replacements of the reported hits woven in order: the slice from the
    end of the previous hit (0 at first) to the start of the hit, the hit's
    replacement, and at the end the input's tail after the last hit.  With
    no hit the output is the input.  When the detector answers with spans
    [0 <= start <= end], the untouched ranges are ascending, and every
    input position outside every hit span lies in one of them, whose slice
    carries the input character of that position. *)
Theorem C10_masked_text_frame (eng : Engine) (text doc_id masked : Py.str) (rep : Report) :
  mask_text_with_report eng text doc_id = Some (masked, rep) ->
  let gs := gaps (Py.len text) 0 (hits rep) in
  masked = weave (List.map (fun g => Py.slice text (fst g) (snd g)) gs)
                 (List.map h_replacement (hits rep)) /\
  (hits rep = [] -> masked = text) /\
  ((forall detected,
       detect eng text (run_allowlist eng text) = Some detected ->
       Forall (fun c => 0 <= start c <= end_ c) detected) ->
   StronglySorted (fun g1 g2 => snd g1 <= fst g2) gs /\
   forall p,
     0 <= p < Py.len text -> outside p (hits rep) ->
     exists i lo hi,
       gs !! i = Some (lo, hi) /\ lo <= p < hi /\
       Py.index (Py.slice text lo hi) (p - lo) = Py.index text p).
Proof.
  intros Hrun gs.
  pose proof (report_hits_sorted eng text doc_id masked rep Hrun) as Hsorted.
  apply run_inv in Hrun as (detected & Hdet & Hmasked & Hhits & _).
  rewrite <- Hhits in Hmasked.
  split; [exact Hmasked|]. split.
  - intros Hnil. rewrite Hmasked, Hnil. unfold frame. simpl.
    rewrite slice_to_end. apply slice_from_zero.
  - intros Hwf. specialize (Hwf detected Hdet).
    assert (Hhwf : Forall (fun h => 0 <= h_start h <= h_end h) (hits rep)).
    { rewrite Hhits. apply hits_from_wf, resolved_wf, Hwf. }
    split.
    + apply gaps_ascending; [exact Hsorted|].
      eapply Forall_impl; [exact Hhwf|]. simpl. intros; lia.
    + intros p Hp Hout.
      destruct (gaps_cover (Py.len text) (hits rep) 0 p) as (i & lo & hi & Hi & Hlo & Hhi);
        [lia | lia | | exact Hout |].
      * eapply Forall_impl; [exact Hhwf|]. simpl. intros; lia.
      * exists i, lo, hi. split; [exact Hi|]. split; [lia|].
        apply slice_index; lia.
Qed.

End FrameClaim.

(** A name at [2,4) in "abcdef": the output is "ab", the label, "ef". *)
Lemma C10_masked_text_frame_witness :
  let eng := Sample.engine (Py.lit "LABEL")
               [Sample.detection 2 4 (Py.lit "PERSON") (9 # 10)] [] in
  let text := Py.lit "abcdef" in
  exists masked rep,
    MaskingEngine.mask_text_with_report (H := Sample.runtime) eng text (Py.lit "doc")
    = Some (masked, rep) /\
    (forall detected,
        MaskingEngine.detect eng text (MaskingEngine.run_allowlist (H := Sample.runtime) eng text)
        = Some detected ->
        Forall (fun c => 0 <= MaskingEngine.start c <= MaskingEngine.end_ c) detected) /\
    masked = weave (List.map (fun g => Py.slice text (fst g) (snd g))
                      (gaps (Py.len text) 0 (MaskingEngine.hits rep)))
                   (List.map MaskingEngine.h_replacement (MaskingEngine.hits rep)) /\
    StronglySorted (fun g1 g2 => snd g1 <= fst g2)
      (gaps (Py.len text) 0 (MaskingEngine.hits rep)) /\
    masked = Py.lit "ab[PERSON_01]ef".
Proof.
  intros eng text.
  assert (Hsome : is_Some (MaskingEngine.mask_text_with_report (H := Sample.runtime)
                             eng text (Py.lit "doc"))).
  { vm_compute. eexists. reflexivity. }
  destruct Hsome as [[masked rep] Hrun].
  assert (Hwf : forall detected,
             MaskingEngine.detect eng text
               (MaskingEngine.run_allowlist (H := Sample.runtime) eng text) = Some detected ->
             Forall (fun c => 0 <= MaskingEngine.start c <= MaskingEngine.end_ c) detected).
  { intros detected Hd. vm_compute in Hd. injection Hd as <-.
    repeat constructor; simpl; discriminate. }
  exists masked, rep. split; [exact Hrun|]. split; [exact Hwf|].
  pose proof (C10_masked_text_frame (H := Sample.runtime) eng text (Py.lit "doc") masked rep Hrun)
    as (Hframe & _ & Hrest).
  split; [exact Hframe|]. split; [exact (proj1 (Hrest Hwf))|].
  revert Hrun. vm_compute. intros Hrun. injection Hrun as <- _. reflexivity.
Defined.

(** ** Order and overlap of the reported hits *)

(** C3 at a failing input.  In the text of a company name, the corporate
    designator at [0,4) is detected as COMPANY and the two characters at
    [4,6) as PERSON.  The two detections do not overlap, yet the reported
    COMPANY hit is widened to [0,8) and so covers the PERSON hit [4,6); the
    last two characters of the name, inside the widened span, come out
    unmasked behind the second label. *)
Lemma C3_expanded_company_overlaps_next_hit :
  let text := [26666; 24335; 20250; 31038; 23665; 30000; 21830; 20107]%N in
  let eng := Sample.engine (Py.lit "LABEL")
               [Sample.detection 0 4 (Py.lit "COMPANY") (9 # 10);
                Sample.detection 4 6 (Py.lit "PERSON") (85 # 100)] [] in
  exists masked rep,
    MaskingEngine.mask_text_with_report (H := Sample.runtime) eng text (Py.lit "doc")
    = Some (masked, rep) /\
    List.map (fun h => (MaskingEngine.h_start h, MaskingEngine.h_end h)) (MaskingEngine.hits rep)
    = [(0, 8); (4, 6)] /\
    masked = Py.lit "[COMPANY_01][PERSON_01]" ++ [21830; 20107]%N.
Proof.
  intros text eng.
  assert (Hsome : is_Some (MaskingEngine.mask_text_with_report (H := Sample.runtime)
                             eng text (Py.lit "doc"))).
  { vm_compute. eexists. reflexivity. }
  destruct Hsome as [[masked rep] Hrun].
  exists masked, rep. split; [exact Hrun|].
  revert Hrun. vm_compute. intros Hrun. injection Hrun as <- <-.
  split; reflexivity.
Qed.

(** ** Rectangles of a hit span *)

Section QuadFacts.
Import PdfPipeline.

Lemma index_app_off {X} (pre l : list X) (k : nat) (x : X) :
  l !! k = Some x -> Py.index (pre ++ l) (Py.len pre + Z.of_nat k) = Some x.
Proof.
  intros Hk.
  pose proof (lookup_lt_Some _ _ _ Hk) as Hlt.
  unfold Py.index. rewrite len_app.
  pose proof (len_nonneg pre) as Hn.
  destruct (Z.leb_spec 0 (Py.len pre + Z.of_nat k)); [|lia].
  destruct (Z.ltb_spec (Py.len pre + Z.of_nat k) (Py.len pre + Py.len l));
    [|unfold Py.len in *; lia].
  simpl. unfold Py.len.
  replace (Z.to_nat (Z.of_nat (length pre) + Z.of_nat k)) with (length pre + k)%nat by lia.
  rewrite lookup_app_r by lia.
  replace (length pre + k - length pre)%nat with k by lia.
  exact Hk.
Qed.

Lemma Qltb_true a b : Qltb a b = true <-> (a < b)%Q.
Proof.
  unfold Qltb. rewrite Qlt_alt.
  destruct (a ?= b)%Q; simpl; split; congruence.
Qed.

Lemma Qltb_false a b : Qltb a b = false <-> ~ (a < b)%Q.
Proof.
  rewrite <- Qltb_true. destruct (Qltb a b); split; congruence.
Qed.

(** The bounding box of two characters, as the loop grows it. *)
Definition box2 (c1 c2 : CharInfo) : Rect :=
  (pymin (x0 c1) (x0 c2), pymin (y0 c1) (y0 c2),
   pymax (x1 c1) (x1 c2), pymax (y1 c1) (y1 c2)).

Definition box1 (c : CharInfo) : Rect := (x0 c, y0 c, x1 c, y1 c).

(** The scan of three real characters of which the second continues the
    line of the first and the third does not. *)
Lemma quads_two_then_one (pre post : list CharInfo) (c1 c2 c3 : CharInfo) :
  is_dummy c1 = false -> is_dummy c2 = false -> is_dummy c3 = false ->
  page_idx c1 = page_idx c2 ->
  Qltb (Qabs (y0 c2 - y0 c1)) SAME_LINE_TOLERANCE = true ->
  Qltb (Qabs (y0 c3 - y0 c1)) SAME_LINE_TOLERANCE = false ->
  _get_quads_for_span (pre ++ [c1; c2; c3] ++ post) (Py.len pre) (Py.len pre + 3)
  = append_rect (append_rect ∅ (page_idx c1) (box2 c1 c2)) (page_idx c3) (box1 c3).
Proof.
  intros Hd1 Hd2 Hd3 Hpage H12 H13.
  unfold _get_quads_for_span.
  pose proof (len_nonneg pre) as Hn.
  destruct (Z.ltb_spec (Py.len pre) 0); [lia|].
  destruct (Z.ltb_spec (Py.len (pre ++ [c1; c2; c3] ++ post)) (Py.len pre + 3)).
  { rewrite !len_app in *. change (Py.len [c1; c2; c3]) with 3 in *.
    pose proof (len_nonneg post). lia. }
  destruct (Z.leb_spec (Py.len pre + 3) (Py.len pre)); [lia|].
  cbn [orb]. unfold range.
  replace (Z.to_nat (Py.len pre + 3 - Py.len pre)) with 3%nat by lia.
  cbn [seq List.map foldl].
  assert (Hi1 : Py.index (pre ++ [c1; c2; c3] ++ post) (Py.len pre + Z.of_nat 0) = Some c1)
    by (apply index_app_off; reflexivity).
  assert (Hi2 : Py.index (pre ++ [c1; c2; c3] ++ post) (Py.len pre + Z.of_nat 1) = Some c2)
    by (apply index_app_off; reflexivity).
  assert (Hi3 : Py.index (pre ++ [c1; c2; c3] ++ post) (Py.len pre + Z.of_nat 2) = Some c3)
    by (apply index_app_off; reflexivity).
  unfold scan_step at 3. rewrite Hi1, Hd1. cbn [same_line scan0 current_rect].
  unfold scan_step at 2. rewrite Hi2, Hd2.
  cbn [same_line current_rect current_page current_y0 page_rects].
  rewrite <- Hpage, Nat.eqb_refl, H12. cbn [andb].
  unfold scan_step. rewrite Hi3, Hd3.
  cbn [same_line current_rect current_page current_y0 page_rects].
  rewrite H13, andb_false_r.
  unfold flush. cbn [current_rect current_page page_rects flush scan0].
  reflexivity.
Qed.

Lemma rect_count_singleton (pg : nat) (rs : list Rect) :
  rect_count {[ pg := rs ]} = length rs.
Proof. unfold rect_count. rewrite map_fold_singleton. lia. Qed.

Lemma rect_count_two_rects pg1 pg3 (r12 r3 : Rect) :
  rect_count (append_rect (append_rect ∅ pg1 r12) pg3 r3) = 2%nat.
Proof.
  unfold append_rect at 2. rewrite lookup_empty. simpl.
  rewrite insert_empty. unfold append_rect.
  destruct (decide (pg3 = pg1)) as [->|Hne].
  - rewrite lookup_singleton_eq. simpl.
    rewrite insert_singleton_eq. apply rect_count_singleton.
  - rewrite lookup_singleton_ne by congruence. simpl.
    unfold rect_count. rewrite map_fold_insert_L.
    + rewrite map_fold_singleton. reflexivity.
    + intros. lia.
    + apply lookup_singleton_ne. congruence.
Qed.

(** C9, with the tolerance made explicit.  Inside one hit span three real
    characters follow each other: two on one page with vertical positions
    within 1 of 100 that differ by less than the same-line tolerance 2,
    and one at 200.  The lookup returns exactly two rectangles: the
    bounding box of the first two characters, and the box of the third. *)
Theorem C9_two_rectangles (pre post : list CharInfo) (c1 c2 c3 : CharInfo) :
  is_dummy c1 = false -> is_dummy c2 = false -> is_dummy c3 = false ->
  page_idx c1 = page_idx c2 ->
  (Qabs (y0 c1 - 100) <= 1)%Q -> (Qabs (y0 c2 - 100) <= 1)%Q ->
  (Qabs (y0 c2 - y0 c1) < SAME_LINE_TOLERANCE)%Q ->
  (y0 c3 == 200)%Q ->
  let quads := _get_quads_for_span (pre ++ [c1; c2; c3] ++ post)
                 (Py.len pre) (Py.len pre + 3) in
  rect_count quads = 2%nat /\
  quads = append_rect (append_rect ∅ (page_idx c1) (box2 c1 c2)) (page_idx c3) (box1 c3).
Proof.
  intros Hd1 Hd2 Hd3 Hpage Hy1 Hy2 H12 Hy3 quads.
  assert (Hq : quads = append_rect (append_rect ∅ (page_idx c1) (box2 c1 c2))
                         (page_idx c3) (box1 c3)).
  { apply quads_two_then_one; try assumption.
    - apply Qltb_true, H12.
    - apply Qltb_false. intros Hlt.
      apply Qabs_Qle_condition in Hy1.
      pose proof (Qle_Qabs (y0 c3 - y0 c1)) as Hle.
      unfold SAME_LINE_TOLERANCE in Hlt. lra. }
  split; [|exact Hq].
  rewrite Hq. apply rect_count_two_rects.
Qed.

End QuadFacts.

(** Characters at 100 and 101 on page 0, then one at 200. *)
Lemma C9_two_rectangles_witness :
  let ch := fun (x y : Q) (c : Py.char) =>
              {| PdfPipeline.page_idx := 0; PdfPipeline.x0 := x; PdfPipeline.y0 := y;
                 PdfPipeline.x1 := (x + 5)%Q; PdfPipeline.y1 := (y + 10)%Q; PdfPipeline.char := c |} in
  let c1 := ch 10%Q 100%Q 65%N in
  let c2 := ch 15%Q 101%Q 66%N in
  let c3 := ch 10%Q 200%Q 67%N in
  (Qabs (PdfPipeline.y0 c2 - PdfPipeline.y0 c1) < PdfPipeline.SAME_LINE_TOLERANCE)%Q /\
  PdfPipeline.rect_count
    (PdfPipeline._get_quads_for_span [c1; c2; c3] 0 3)
  = 2%nat.
Proof.
  intros ch c1 c2 c3.
  assert (H12 : (Qabs (PdfPipeline.y0 c2 - PdfPipeline.y0 c1)
                 < PdfPipeline.SAME_LINE_TOLERANCE)%Q) by (vm_compute; reflexivity).
  split; [exact H12|].
  refine (proj1 (C9_two_rectangles [] [] c1 c2 c3 eq_refl eq_refl eq_refl eq_refl _ _ H12 _)).
  - vm_compute. discriminate.
  - vm_compute. discriminate.
  - vm_compute. reflexivity.
Defined.

(** Characters at 99 and 101 are both within 1 of 100, but they are 2
    apart, which is not less than the tolerance: three rectangles. *)
Lemma C9_boundary_pair_not_merged :
  ~ (forall (pre post : list PdfPipeline.CharInfo) (c1 c2 c3 : PdfPipeline.CharInfo),
        PdfPipeline.is_dummy c1 = false -> PdfPipeline.is_dummy c2 = false ->
        PdfPipeline.is_dummy c3 = false ->
        PdfPipeline.page_idx c1 = PdfPipeline.page_idx c2 ->
        (Qabs (PdfPipeline.y0 c1 - 100) <= 1)%Q -> (Qabs (PdfPipeline.y0 c2 - 100) <= 1)%Q ->
        (PdfPipeline.y0 c3 == 200)%Q ->
        PdfPipeline.rect_count
          (PdfPipeline._get_quads_for_span (pre ++ [c1; c2; c3] ++ post)
             (Py.len pre) (Py.len pre + 3))
        = 2%nat).
Proof.
  intros Hclaim.
  pose (ch := fun (x y : Q) (c : Py.char) =>
              {| PdfPipeline.page_idx := 0; PdfPipeline.x0 := x; PdfPipeline.y0 := y;
                 PdfPipeline.x1 := (x + 5)%Q; PdfPipeline.y1 := (y + 10)%Q; PdfPipeline.char := c |}).
  specialize (Hclaim [] [] (ch 10%Q 99%Q 65%N) (ch 15%Q 101%Q 66%N) (ch 10%Q 200%Q 67%N)
                eq_refl eq_refl eq_refl eq_refl).
  assert (Hc : PdfPipeline.rect_count
                 (PdfPipeline._get_quads_for_span
                    [ch 10%Q 99%Q 65%N; ch 15%Q 101%Q 66%N; ch 10%Q 200%Q 67%N] 0 3)
               = 3%nat) by (vm_compute; reflexivity).
  assert (H3 : 3%nat = 2%nat); [|discriminate].
  rewrite <- Hc.
  apply Hclaim; vm_compute; try discriminate; reflexivity.
Qed.

(** ** Run splitting *)

Inductive Style := Bold | Italic.

(** The paragraph ["Hello " bold, "World" italic] and the replacement of
    [3,9) by "XXXXXX". *)
Definition hello_world : DocxRewrite.Paragraph Style :=
  [ {| DocxRewrite.rid := 0; DocxRewrite.text := Py.lit "Hello "; DocxRewrite.fmt := Bold |};
    {| DocxRewrite.rid := 1; DocxRewrite.text := Py.lit "World"; DocxRewrite.fmt := Italic |} ].

Definition hello_world_masked : DocxRewrite.Paragraph Style :=
  DocxRewrite._apply_replacements_to_runs hello_world (DocxRewrite.runs_of hello_world)
    [ {| DocxRewrite.rp_start := 3; DocxRewrite.rp_end := 9;
         DocxRewrite.rp_replacement := Py.lit "XXXXXX" |} ].

Lemma hello_world_runs :
  DocxRewrite.run_sequence hello_world_masked
  = [ (Py.lit "HelXXXXXX", Bold); ([], Italic); (Py.lit "ld", Italic) ].
Proof. vm_compute. reflexivity. Qed.

(** C7, as the code splits.  After the replacement the paragraph reads
    "HelXXXXXXld": the prefix "Hel" and the replacement "XXXXXX" carry the
    first run's bold, and the untouched suffix of the last run, "ld", keeps
    italic. *)
Theorem C7_prefix_replacement_bold_suffix_italic :
  DocxRewrite.styled_chars hello_world_masked
  = List.map (fun c => (c, Bold)) (Py.lit "Hel")
    ++ List.map (fun c => (c, Bold)) (Py.lit "XXXXXX")
    ++ List.map (fun c => (c, Italic)) (Py.lit "ld").
Proof. vm_compute. reflexivity. Qed.

(** The span [3,9) is "lo Wor", so two characters remain after it, not
    one; and the run sequence is not the three runs of the scenario. *)
Lemma C7_run_sequence_differs :
  DocxRewrite.run_sequence hello_world_masked
  <> [ (Py.lit "Hel", Bold); (Py.lit "XXXXXX", Bold); (Py.lit "d", Italic) ].
Proof. rewrite hello_world_runs. discriminate. Qed.

(** ** Address truncation *)

(** [c] is the longest entry of [candidates] that is a prefix of [s]. *)
Definition longest_prefix_of (s : Py.str) (candidates : list Py.str) (c : Py.str) : Prop :=
  c ∈ candidates /\ Py.startswith s c = true /\
  forall c', c' ∈ candidates -> Py.startswith s c' = true -> (length c' <= length c)%nat.

(** What [_longest_prefix_match] returns: the first entry, in list order,
    that is a prefix. *)
Lemma longest_prefix_match_is_first s candidates c :
  AddressRules._longest_prefix_match s candidates = Some c <->
  exists l1 l2, candidates = l1 ++ c :: l2 /\ Py.startswith s c = true /\
                Forall (fun c' => Py.startswith s c' = false) l1.
Proof.
  unfold AddressRules._longest_prefix_match.
  induction candidates as [|x l IH]; simpl.
  - split; [discriminate|]. intros (l1 & l2 & Heq & _). destruct l1; discriminate.
  - destruct (Py.startswith s x) eqn:Hx.
    + split.
      * intros [= <-]. exists [], l. repeat split; [exact Hx | constructor].
      * intros (l1 & l2 & Heq & Hc & Hl1).
        destruct l1 as [|y l1]; simpl in Heq; injection Heq as -> ->; [reflexivity|].
        apply Forall_cons in Hl1 as [Hy _]. congruence.
    + rewrite IH. split.
      * intros (l1 & l2 & -> & Hc & Hl1). exists (x :: l1), l2.
        repeat split; [exact Hc | constructor; assumption].
      * intros (l1 & l2 & Heq & Hc & Hl1).
        destruct l1 as [|y l1]; simpl in Heq; injection Heq as -> ->; [congruence|].
        apply Forall_cons in Hl1 as [_ Hl1]. exists l1, l2. repeat split; assumption.
Qed.

(** C8 at a failing input.  The municipality list holds a city and, after
    it, one of its wards; for an address in that ward the kept
    municipality is the city, the first entry that matches, although the
    ward entry is the longest prefix of the address in the list. *)
Lemma C8_first_match_is_not_longest :
  let pref := [31070; 22856; 24029; 30476]%N in
  let city := pref ++ [27178; 27996; 24066]%N in
  let ward := city ++ [20013; 21306]%N in
  let address := ward ++ [26412; 30010]%N in
  AddressRules.mask_address_granular (H := Sample.runtime)
    address (Py.lit "UNTIL_CITY") [pref] [city; ward] = city /\
  longest_prefix_of address [city; ward] ward /\
  ~ longest_prefix_of address [city; ward] city.
Proof.
  intros pref city ward address.
  split; [vm_compute; reflexivity|]. split.
  - split; [right; left|]. split; [vm_compute; reflexivity|].
    intros c' Hc' _.
    apply elem_of_cons in Hc' as [->|Hc']; [vm_compute; lia|].
    apply list_elem_of_singleton in Hc' as ->. lia.
  - intros (_ & _ & Hmax).
    specialize (Hmax ward). 
    assert (Hlen : (length ward <= length city)%nat).
    { apply Hmax; [right; left | vm_compute; reflexivity]. }
    vm_compute in Hlen. lia.
Qed.

(** ** Stable labels in a run *)

Section RunLabelFacts.
Context `{Runtime}.
Import MaskingEngine.

Variables (eng : Engine) (text : Py.str) (allowlist : list Py.str) (doc_id : Py.str).

Local Abbreviation hit_at := (hit_of eng text allowlist doc_id).
Local Abbreviation next_at := (next_state eng text allowlist).
Local Abbreviation hits_at := (hits_from eng text allowlist doc_id).

(** A hit labelled by the stable-id branch of the loop. *)
Definition stable_hit (h : Hit) : Prop :=
  is_forced (h_source h) = false /\ h_reason h = Py.lit "mask:stable_id".

Definition label_key (h : Hit) : Py.str * Py.str :=
  (h_entity_type h, Normalize.normalize_term (h_original h)).

Lemma next_state_keeps st r k l :
  StableId.mapping st !! k = Some l -> StableId.mapping (next_at st r) !! k = Some l.
Proof.
  intros Hk. unfold next_state.
  destruct (hit_span text r) as [s e].
  unfold decide_replacement.
  pose proof (get_label_keeps st (entity_type r) (Py.slice text s e) (label_format eng) k l Hk)
    as Hkeep.
  destruct (StableId.get_label st (entity_type r) (Py.slice text s e) (label_format eng))
    as [lbl st'].
  cbn [snd] in Hkeep.
  repeat match goal with
         | |- context [if ?b then _ else _] => destruct b
         | |- context [match ?o with Some _ => _ | None => _ end] => destruct o
         | |- context [match ?o with [] => _ | _ :: _ => _ end] => destruct o
         end; assumption.
Qed.

Lemma stable_hit_label st r :
  stable_hit (hit_at st r) ->
  let o := h_original (hit_at st r) in
  h_replacement (hit_at st r) = fst (StableId.get_label st (entity_type r) o (label_format eng)) /\
  next_at st r = snd (StableId.get_label st (entity_type r) o (label_format eng)).
Proof.
  unfold stable_hit, hit_of, next_state.
  destruct (hit_span text r) as [s e].
  unfold decide_replacement.
  destruct (StableId.get_label st (entity_type r) (Py.slice text s e) (label_format eng))
    as [lbl st'] eqn:Hg.
  destruct (is_forced (source r)) eqn:Hf.
  { repeat match goal with
           | |- context [if ?b then _ else _] => destruct b
           | |- context [match ?o with Some _ => _ | None => _ end] => destruct o
           | |- context [match ?o with [] => _ | _ :: _ => _ end] => destruct o
           end; cbn [h_source]; rewrite Hf; intros [? _]; discriminate. }
  repeat match goal with
         | |- context [if ?b then _ else _] => destruct b
         end;
    cbn [h_source h_reason h_replacement h_original fst snd];
    intros [_ Hr]; try (vm_compute in Hr; discriminate Hr);
    rewrite Hg; split; reflexivity.
Qed.

Lemma hits_from_known rs : forall st k l,
  StableId.mapping st !! k = Some l ->
  Forall (fun h => stable_hit h -> label_key h = k -> h_replacement h = l) (hits_at st rs).
Proof.
  induction rs as [|r rs IH]; intros st k l Hk; simpl; constructor.
  - intros Hst Hkey.
    destruct (stable_hit_label st r Hst) as [-> _].
    unfold label_key in Hkey.
    destruct (hit_of_fields eng text allowlist doc_id st r) as (_ & _ & _ & _ & He & _).
    rewrite He in Hkey. subst k.
    rewrite (get_label_hit _ _ _ _ _ Hk). reflexivity.
  - apply IH, next_state_keeps, Hk.
Qed.

Lemma hits_from_same_label rs : forall st i j h1 h2,
  (i < j)%nat ->
  hits_at st rs !! i = Some h1 -> hits_at st rs !! j = Some h2 ->
  stable_hit h1 -> stable_hit h2 -> label_key h1 = label_key h2 ->
  h_replacement h1 = h_replacement h2.
Proof.
  induction rs as [|r rs IH]; intros st i j h1 h2 Hij H1 H2 Hs1 Hs2 Hkey;
    [discriminate|].
  destruct j as [|j]; [lia|]. simpl in H2.
  destruct i as [|i]; simpl in H1.
  - injection H1 as <-.
    destruct (stable_hit_label st r Hs1) as [Hrepl Hnext].
    assert (Hrec : StableId.mapping (next_at st r) !! label_key (hit_at st r)
                   = Some (h_replacement (hit_at st r))).
    { rewrite Hrepl, Hnext. unfold label_key.
      destruct (hit_of_fields eng text allowlist doc_id st r) as (_ & _ & _ & _ & -> & _).
      apply get_label_records. }
    pose proof (hits_from_known rs _ _ _ Hrec) as Hall.
    rewrite Forall_forall in Hall.
    symmetry. apply Hall; [|exact Hs2|symmetry; exact Hkey].
    apply list_elem_of_lookup. eauto.
  - apply (IH (next_at st r) i j); try assumption. lia.
Qed.

End RunLabelFacts.

Section StableIdClaim.
Context `{Runtime}.
Import StableId MaskingEngine.

(** Two reported hits of one run that were labelled by stable id, with the
    same entity type and originals that normalise to the same term, carry
    the same label. *)
Lemma report_same_term_same_label eng text doc_id masked rep i j h1 h2 :
  mask_text_with_report eng text doc_id = Some (masked, rep) ->
  hits rep !! i = Some h1 -> hits rep !! j = Some h2 ->
  stable_hit h1 -> stable_hit h2 -> label_key h1 = label_key h2 ->
  h_replacement h1 = h_replacement h2.
Proof.
  intros Hrun H1 H2 Hs1 Hs2 Hkey.
  apply run_inv in Hrun as (detected & _ & _ & Hhits & _).
  rewrite Hhits in H1, H2.
  destruct (Nat.lt_total i j) as [Hlt|[->|Hgt]].
  - eapply hits_from_same_label; eauto.
  - congruence.
  - symmetry. eapply hits_from_same_label; eauto.
Qed.

(** C5. Within one run the label depends only on the entity type and the
    normalised original: once [get_label] has answered for an entity and an
    original, every later call of the same run (whatever was requested in
    between, and whatever format table is passed) with the same entity and
    an original that normalises to the same term returns the identical
    label and leaves the state alone.  Every run of
    [mask_text_with_report] labels its hits starting from the state of
    [create], which holds no label and no counter, so nothing issued by an
    earlier run is seen. *)
Theorem C5_label_deterministic_within_run
    (st : StableIdState) (entity o1 o2 : Py.str) (f1 f2 : gmap Py.str Py.str)
    (between : list (Py.str * Py.str * gmap Py.str Py.str)) :
  Normalize.normalize_term o1 = Normalize.normalize_term o2 ->
  let st1 := snd (get_label st entity o1 f1) in
  let st2 := run_calls st1 between in
  get_label st2 entity o2 f2 = (fst (get_label st entity o1 f1), st2)
  /\ (forall eng text doc_id masked rep,
        mask_text_with_report eng text doc_id = Some (masked, rep) ->
        exists detected,
          detect eng text (run_allowlist eng text) = Some detected /\
          hits rep = hits_from eng text (run_allowlist eng text) doc_id create
                       (resolved_of eng detected))
  /\ (forall k, mapping create !! k = None)
  /\ (forall e, counters create !! e = None).
Proof.
  intros Hnorm st1 st2.
  split; [|split; [|split]].
  - apply get_label_hit.
    rewrite <- Hnorm.
    apply run_calls_keeps, get_label_records.
  - intros eng text doc_id masked rep Hrun.
    apply run_inv in Hrun as (detected & Hdet & _ & Hhits & _).
    exists detected. split; assumption.
  - intros k. apply lookup_empty.
  - intros e. apply lookup_empty.
Qed.

End StableIdClaim.

(** Two spellings of one name around requests for other terms: the first
    and the last call agree. *)
Lemma C5_label_deterministic_witness :
  let rt := Sample.runtime in
  let a := Py.lit "Yamada  Taro" in
  let b := Py.lit " Yamada Taro " in
  let between := [(Py.lit "COMPANY", Py.lit "Acme", ∅); (Py.lit "PERSON", Py.lit "Sato", ∅)] in
  let st2 := run_calls (snd (StableId.get_label StableId.create (Py.lit "PERSON") a ∅)) between in
  Normalize.normalize_term a = Normalize.normalize_term b /\
  StableId.get_label st2 (Py.lit "PERSON") b ∅
  = (fst (StableId.get_label StableId.create (Py.lit "PERSON") a ∅), st2).
Proof.
  intros rt a b between st2.
  assert (Hn : Normalize.normalize_term a = Normalize.normalize_term b) by (vm_compute; reflexivity).
  split; [exact Hn|].
  exact (proj1 (C5_label_deterministic_within_run StableId.create (Py.lit "PERSON") a b ∅ ∅
                  between Hn)).
Defined.

(** ** A run returns *)

Section Totality.
Context `{Runtime}.
Import MaskingEngine.

(** Each turn of the chunk loop moves [pos] forward, so the loop ends
    within the fuel it is given. *)
Lemma chunk_loop_total text chunk_size overlap :
  1 <= chunk_size ->
  forall fuel pos chunks,
    Py.len text - pos < Z.of_nat fuel ->
    is_Some (chunk_loop fuel text chunk_size overlap pos chunks).
Proof.
  intros Hcs fuel.
  induction fuel as [|fuel IH]; intros pos chunks Hfuel.
  - simpl. destruct (Z.ltb_spec pos (Py.len text)); [lia | eauto].
  - cbn [chunk_loop].
    destruct (Z.ltb_spec pos (Py.len text)) as [Hpos|]; [|eauto].
    apply IH.
    set (end0 := Z.min (pos + chunk_size) (Py.len text)).
    assert (Hend0 : pos < end0) by (unfold end0; lia).
    set (end1 := if end0 <? Py.len text
                 then (if pos <? rfind text Py.NL (pos + chunk_size / 2) end0
                       then rfind text Py.NL (pos + chunk_size / 2) end0 + 1
                       else end0)
                 else end0).
    assert (Hend1 : pos < end1).
    { unfold end1. destruct (end0 <? Py.len text); [|exact Hend0].
      destruct (Z.ltb_spec pos (rfind text Py.NL (pos + chunk_size / 2) end0)); lia. }
    destruct (Z.leb_spec (end1 - overlap) pos); lia.
Qed.

Lemma split_total text chunk_size overlap :
  1 <= chunk_size -> is_Some (_split_into_chunks text chunk_size overlap).
Proof.
  intros Hcs. unfold _split_into_chunks.
  destruct (Py.len text <=? chunk_size); [eauto|].
  apply chunk_loop_total; [exact Hcs|]. unfold Py.len. lia.
Qed.

(** With a positive chunk size and analyzers that answer, every run
    returns a masked text and a report. *)
Theorem mask_text_with_report_total (eng : Engine) (text doc_id : Py.str) :
  1 <= nlp_chunk_size eng ->
  (forall t a, is_Some (fast_analyzer eng t a)) ->
  (forall an t a, analyzer eng = Some an -> is_Some (an t a)) ->
  is_Some (mask_text_with_report eng text doc_id).
Proof.
  intros Hcs Hfast Hnlp.
  unfold mask_text_with_report.
  assert (Hd : is_Some (detect eng text (run_allowlist eng text))).
  { unfold detect, nlp_available, _analyze_chunked.
    destruct (analyzer eng) as [an|] eqn:Han.
    - destruct (force_fast eng || negb true
                || (fast_threshold_chars eng <=? Py.len text)).
      + destruct (Hfast text (run_allowlist eng text)) as [x ->]. simpl. eauto.
      + cbn [negb andb].
        destruct (nlp_chunk_size eng <=? Py.len text).
        * destruct (split_total text (nlp_chunk_size eng) (nlp_chunk_overlap eng) Hcs)
            as [chunks ->].
          simpl. eauto.
        * simpl. destruct (Hnlp an text (run_allowlist eng text) eq_refl) as [x ->].
          simpl. eauto.
    - rewrite orb_true_r. cbn [orb].
      destruct (Hfast text (run_allowlist eng text)) as [x ->]. simpl. eauto. }
  destruct Hd as [detected ->]. simpl. eauto.
Qed.

End Totality.

(** ** Hits without company expansion *)

Section PlainHits.
Context `{Runtime}.
Import MaskingEngine.

Variables (eng : Engine) (text : Py.str) (allowlist : list Py.str) (doc_id : Py.str).

(** A candidate the expansion leaves alone. *)
Definition plain (c : Candidate) : Prop :=
  Py.eqb (entity_type c) (Py.lit "COMPANY") && negb (is_forced (source c)) = false.

Lemma hits_from_plain_apart rs : forall st,
  Forall plain rs ->
  StronglySorted (apart start end_) rs ->
  StronglySorted (apart h_start h_end) (hits_from eng text allowlist doc_id st rs).
Proof.
  assert (Hspan : forall st r, plain r ->
            h_start (hit_of eng text allowlist doc_id st r) = start r /\
            h_end (hit_of eng text allowlist doc_id st r) = end_ r).
  { intros st r Hp.
    destruct (hit_of_fields eng text allowlist doc_id st r) as (-> & -> & _).
    unfold hit_span. unfold plain in Hp. rewrite Hp. split; reflexivity. }
  induction rs as [|r rs IH]; intros st Hp Hs; simpl; [constructor|].
  apply Forall_cons in Hp as [Hr Hp].
  apply StronglySorted_cons in Hs as [Hrs Hs].
  apply StronglySorted_cons. split; [|apply IH; assumption].
  destruct (Hspan st r Hr) as [Hs1 He1].
  clear IH Hs.
  revert Hrs Hp. generalize (next_state eng text allowlist st r).
  induction rs as [|r' rs IH]; intros st' Hrs Hp; simpl; [constructor|].
  apply Forall_cons in Hrs as [Hr' Hrs].
  apply Forall_cons in Hp as [Hp' Hp].
  constructor; [|apply IH; assumption].
  destruct (Hspan st' r' Hp') as [Hs2 He2].
  unfold apart in *. rewrite Hs1, He1, Hs2. exact Hr'.
Qed.

End PlainHits.

Section PlainReport.
Context `{Runtime}.
Import MaskingEngine.

Variables (eng : Engine) (text doc_id : Py.str).

(** When no resolved candidate is a detected COMPANY, the reported hits
    are ordered by start and each ends where the next starts or before. *)
Lemma report_hits_apart_without_company masked rep :
  (forall detected, Forall plain (resolved_of eng detected)) ->
  mask_text_with_report eng text doc_id = Some (masked, rep) ->
  StronglySorted (apart h_start h_end) (hits rep).
Proof.
  intros Hplain Hrun.
  apply run_inv in Hrun as (detected & _ & _ & -> & _).
  apply hits_from_plain_apart; [apply Hplain|].
  unfold resolved_of. apply keep_spans_sorted, resolve_apart.
Qed.

End PlainReport.

(** * Further properties of the engine *)

(** ** Chunks of a large text *)

Section ChunkFacts.
Import MaskingEngine.

Lemma len_slice {X} (s : list X) lo hi :
  Py.len (Py.slice s lo hi)
  = Z.max 0 (Py.clamp (Py.len s) hi - Py.clamp (Py.len s) lo).
Proof.
  unfold Py.slice. unfold Py.len at 1.
  rewrite length_take, length_drop.
  pose proof (len_nonneg s) as Hn.
  pose proof (clamp_range (Py.len s) lo Hn).
  pose proof (clamp_range (Py.len s) hi Hn).
  unfold Py.len in *. lia.
Qed.

Lemma len_slice_inside {X} (s : list X) lo hi :
  0 <= lo <= hi -> hi <= Py.len s -> Py.len (Py.slice s lo hi) = hi - lo.
Proof.
  intros Hlo Hhi. rewrite len_slice, !clamp_inside by lia. lia.
Qed.

Lemma rfind_in_range c seg : forall i,
  0 <= i -> rfind_in c seg i = -1 \/ i <= rfind_in c seg i < i + Py.len seg.
Proof.
  induction seg as [|d seg IH]; intros i Hi; simpl; [left; reflexivity|].
  rewrite len_cons.
  pose proof (len_nonneg seg) as Hn.
  destruct (IH (i + 1)) as [Hr|Hr]; [lia| |].
  - rewrite Hr. simpl. destruct (d =? c)%N; [right; lia | left; reflexivity].
  - destruct (Z.leb_spec 0 (rfind_in c seg (i + 1))); [right; lia|lia].
Qed.

Lemma rfind_below text c lo hi : 0 <= hi <= Py.len text -> rfind text c lo hi < hi.
Proof.
  intros Hhi. unfold rfind.
  pose proof (len_nonneg text) as Hn.
  pose proof (clamp_range (Py.len text) lo Hn) as Hlo.
  destruct (rfind_in_range c (Py.slice text lo hi) (Py.clamp (Py.len text) lo)) as [->|Hr];
    [lia | lia |].
  rewrite len_slice, (clamp_inside _ hi) in Hr by lia. lia.
Qed.

(** A chunk is a non-empty slice of the text at its offset, no longer
    than the chunk size. *)
Definition chunk_ok (text : Py.str) (chunk_size : Z) (ch : Z * Py.str) : Prop :=
  0 <= fst ch /\ snd ch = Py.slice text (fst ch) (fst ch + Py.len (snd ch)) /\
  1 <= Py.len (snd ch) <= chunk_size /\ fst ch + Py.len (snd ch) <= Py.len text.

Definition in_chunk (chunks : list (Z * Py.str)) (p : Z) : Prop :=
  exists ch, ch ∈ chunks /\ fst ch <= p < fst ch + Py.len (snd ch).

Lemma chunk_loop_spec text chunk_size overlap :
  1 <= chunk_size -> 0 <= overlap ->
  forall fuel pos chunks reach res,
    chunk_loop fuel text chunk_size overlap pos chunks = Some res ->
    0 <= pos <= reach -> reach <= Py.len text ->
    Forall (chunk_ok text chunk_size) chunks ->
    (forall p, 0 <= p < reach -> in_chunk chunks p) ->
    Forall (chunk_ok text chunk_size) res /\
    (forall p, 0 <= p < Py.len text -> in_chunk res p).
Proof.
  intros Hcs Hov fuel.
  induction fuel as [|fuel IH]; intros pos chunks reach res Hrun Hpos Hreach Hok Hcov.
  - simpl in Hrun. destruct (Z.ltb_spec pos (Py.len text)); [discriminate|].
    injection Hrun as <-. split; [exact Hok|]. intros p Hp. apply Hcov. lia.
  - cbn [chunk_loop] in Hrun.
    destruct (Z.ltb_spec pos (Py.len text)) as [Hlt|Hge].
    2:{ injection Hrun as <-. split; [exact Hok|]. intros p Hp. apply Hcov. lia. }
    set (end0 := Z.min (pos + chunk_size) (Py.len text)) in *.
    set (end1 := if end0 <? Py.len text
                 then (if pos <? rfind text Py.NL (pos + chunk_size / 2) end0
                       then rfind text Py.NL (pos + chunk_size / 2) end0 + 1
                       else end0)
                 else end0) in *.
    assert (Hend0 : pos < end0 <= Py.len text /\ end0 <= pos + chunk_size)
      by (unfold end0; lia).
    assert (Hend1 : pos < end1 <= end0).
    { unfold end1. destruct (end0 <? Py.len text); [|lia].
      pose proof (rfind_below text Py.NL (pos + chunk_size / 2) end0) as Hr.
      destruct (Z.ltb_spec pos (rfind text Py.NL (pos + chunk_size / 2) end0)); lia. }
    assert (Hlen : Py.len (Py.slice text pos end1) = end1 - pos)
      by (apply len_slice_inside; lia).
    eapply (IH _ _ end1 res Hrun).
    + destruct (Z.leb_spec (end1 - overlap) pos); lia.
    + lia.
    + apply Forall_app. split; [exact Hok|].
      repeat constructor; cbn [fst snd]; rewrite ?Hlen; try lia.
      f_equal. lia.
    + intros p Hp.
      destruct (Z.lt_ge_cases p reach) as [Hin|Hout].
      * destruct (Hcov p) as (ch & Hch & Hpch); [lia|].
        exists ch. split; [apply elem_of_app; left; exact Hch | exact Hpch].
      * exists (pos, Py.slice text pos end1).
        split; [apply elem_of_app; right; left|].
        cbn [fst snd]. rewrite Hlen. lia.
Qed.

(** X1. With a positive chunk size and a non-negative overlap the
    splitter returns, every chunk is a non-empty slice of the text at its
    offset of at most [chunk_size] characters (the single chunk of a short
    text may be empty), and the chunks leave no position of the text
    out. *)
Theorem X1_chunks_cover_text (text : Py.str) (chunk_size overlap : Z) :
  1 <= chunk_size -> 0 <= overlap ->
  exists chunks,
    _split_into_chunks text chunk_size overlap = Some chunks /\
    Forall (fun ch => 0 <= fst ch /\
                      snd ch = Py.slice text (fst ch) (fst ch + Py.len (snd ch)) /\
                      Py.len (snd ch) <= chunk_size /\
                      (1 <= Py.len (snd ch) \/ text = [])) chunks /\
    (forall p, 0 <= p < Py.len text -> in_chunk chunks p).
Proof.
  intros Hcs Hov.
  destruct (split_total text chunk_size overlap Hcs) as [chunks Hrun].
  exists chunks. split; [exact Hrun|].
  unfold _split_into_chunks in Hrun.
  destruct (Z.leb_spec (Py.len text) chunk_size) as [Hshort|Hlong].
  - injection Hrun as <-. split.
    + constructor; [|constructor]. cbn [fst snd].
      split; [lia|]. split; [|split; [exact Hshort|]].
      * rewrite Z.add_0_l, slice_to_end. symmetry. apply slice_from_zero.
      * destruct text; [right; reflexivity | left; rewrite len_cons].
        pose proof (len_nonneg text). lia.
    + intros p Hp. exists (0, text). split; [left|]. cbn [fst snd]. lia.
  - assert (Hnone : forall p, 0 <= p < 0 -> in_chunk [] p) by (intros; lia).
    pose proof (len_nonneg text) as Hn.
    destruct (chunk_loop_spec text chunk_size overlap Hcs Hov _ 0 [] 0 chunks Hrun
                ltac:(lia) Hn ltac:(constructor) Hnone) as [Hok Hcov].
    split; [|exact Hcov].
    eapply Forall_impl; [exact Hok|].
    intros ch (H1 & H2 & H3 & _).
    split; [exact H1 | split; [exact H2 | split; [exact (proj2 H3) | left; exact (proj1 H3)]]].
Qed.

End ChunkFacts.

(** A text of ten characters in chunks of four with an overlap of one. *)
Lemma X1_chunks_cover_text_witness :
  exists chunks,
    MaskingEngine._split_into_chunks (Py.lit "abcdefghij") 4 1 = Some chunks /\
    List.map fst chunks = [0; 3; 6; 9] /\
    (forall p, 0 <= p < Py.len (Py.lit "abcdefghij") -> in_chunk chunks p).
Proof.
  destruct (X1_chunks_cover_text (Py.lit "abcdefghij") 4 1) as (chunks & Hrun & _ & Hcov);
    [lia | lia |].
  exists chunks. split; [exact Hrun|]. split; [|exact Hcov].
  revert Hrun. vm_compute. intros Hrun. injection Hrun as <-. reflexivity.
Defined.

(** ** Overlap passes on detector output *)

Section MergeFacts.
Import MaskingEngine.

Lemma span_key_gt s1 e1 s2 e2 : is_gt (span_key_cmp s1 e1 s2 e2) = true -> s2 <= s1.
Proof.
  unfold span_key_cmp, lex.
  destruct (Z.compare_spec s1 s2); simpl; intros; try lia; discriminate.
Qed.

Lemma span_key_not_gt s1 e1 s2 e2 : is_gt (span_key_cmp s1 e1 s2 e2) = false -> s1 <= s2.
Proof.
  unfold span_key_cmp, lex.
  destruct (Z.compare_spec s1 s2); simpl; intros; try lia; discriminate.
Qed.

(** X2. Whatever the analyzer returns, the merged results are results of
    the analyzer, ordered by start, and each ends where the next one
    starts or before: no two of them overlap. *)
Theorem X2_merge_overlaps_disjoint (eng : Engine) (results : list RecognizerResult) :
  StronglySorted (apart r_start r_end) (_merge_overlaps eng results) /\
  (forall r, r ∈ _merge_overlaps eng results -> r ∈ results).
Proof.
  unfold _merge_overlaps. split.
  - apply sweep_apart.
    apply (sorted_by_sorted _ r_start).
    + intros x y. apply span_key_gt.
    + intros x y. apply span_key_not_gt.
  - intros r Hr. apply sweep_subset in Hr.
    rewrite sorted_by_perm in Hr. exact Hr.
Qed.

(** X3. The candidates of a chunked analysis, collected over all chunks
    and rebased, come out ordered by start and pairwise disjoint, whatever
    the chunks' analyzers returned in the overlap zones. *)
Theorem X3_analyze_chunked_disjoint (eng : Engine) (text : Py.str)
    (allowlist : list Py.str) (cs : list Candidate) :
  _analyze_chunked eng text allowlist = Some cs ->
  StronglySorted (apart start end_) cs.
Proof.
  unfold _analyze_chunked. intros Hrun.
  destruct (_split_into_chunks text (nlp_chunk_size eng) (nlp_chunk_overlap eng))
    as [chunks|]; [|discriminate].
  cbn [mbind option_bind] in Hrun. injection Hrun as <-.
  apply sweep_apart.
  apply (sorted_by_sorted _ start).
  - intros x y. apply span_key_gt.
  - intros x y. apply span_key_not_gt.
Qed.

End MergeFacts.

(** An analyzer that reports the same two overlapping spans in every
    chunk of a ten-character text cut into chunks of four. *)
Definition chunky_engine : MaskingEngine.Engine :=
  {| MaskingEngine.entity_priority := ∅;
     MaskingEngine.base_allowlist := [];
     MaskingEngine.output_mode := Py.lit "LABEL";
     MaskingEngine.black_min_len := 3;
     MaskingEngine.label_format := ∅;
     MaskingEngine.addr_granularity := Py.lit "UNTIL_CITY";
     MaskingEngine.review_threshold := (8 # 10)%Q;
     MaskingEngine.analyzer :=
       Some (fun _ _ => Some [Sample.detection 0 3 (Py.lit "PERSON") (9 # 10);
                              Sample.detection 2 4 (Py.lit "ID") (8 # 10)]);
     MaskingEngine.fast_analyzer := fun _ _ => Some [];
     MaskingEngine.nlp_chunk_size := 4;
     MaskingEngine.nlp_chunk_overlap := 1;
     MaskingEngine.fast_threshold_chars := 400000;
     MaskingEngine.force_fast := false;
     MaskingEngine.runtime :=
       {| MaskingEngine.once_allowlist := [];
          MaskingEngine.forced_masks := [];
          MaskingEngine.keep_spans := [] |};
     MaskingEngine.prefectures := [];
     MaskingEngine.municipalities := [] |}.

Lemma X3_analyze_chunked_disjoint_witness :
  exists cs,
    MaskingEngine._analyze_chunked chunky_engine (Py.lit "abcdefghij") [] = Some cs /\
    StronglySorted (apart MaskingEngine.start MaskingEngine.end_) cs /\
    List.map (fun c => (MaskingEngine.start c, MaskingEngine.end_ c)) cs
    = [(0, 3); (3, 6); (6, 9); (9, 12)].
Proof.
  assert (Hsome : is_Some (MaskingEngine._analyze_chunked chunky_engine
                             (Py.lit "abcdefghij") [])).
  { vm_compute. eexists. reflexivity. }
  destruct Hsome as [cs Hrun].
  exists cs. split; [exact Hrun|]. split.
  - exact (X3_analyze_chunked_disjoint chunky_engine (Py.lit "abcdefghij") [] cs Hrun).
  - revert Hrun. vm_compute. intros Hrun. injection Hrun as <-. reflexivity.
Defined.

(** ** Runtime overrides *)

Section OverrideFacts.
Import MaskingEngine.



(** X5. After the keep-span pass a resolved candidate stays exactly when
    it intersects no keep span; and [set_runtime_overrides] stores only
    keep spans with [0 <= start < end]. *)
Theorem X5_keep_spans_exclude (keep : list KeepSpan) (resolved : list Candidate)
    (c : Candidate) :
  (c ∈ apply_keep_spans keep resolved <->
   c ∈ resolved /\
   forall ks, ks ∈ keep -> ~ (start c < ks_end ks /\ ks_start ks < end_ c)) /\
  (forall eng once forced,
      Forall (fun ks => 0 <= ks_start ks < ks_end ks)
             (keep_spans (runtime (set_runtime_overrides eng once forced keep)))).
Proof.
  split.
  - unfold apply_keep_spans. destruct keep as [|k0 keep'].
    + split; [intros Hc; split; [exact Hc|] | intros [Hc _]; exact Hc].
      intros ks Hks. inversion Hks.
    + set (keep := k0 :: keep').
      rewrite list_elem_of_In, filter_In, <- list_elem_of_In.
      rewrite negb_true_iff.
      split; intros [Hc Hno]; (split; [exact Hc|]).
      * intros ks Hks [H1 H2].
        assert (Hex : existsb (fun ks => _overlaps (start c) (end_ c) (ks_start ks) (ks_end ks))
                              keep = true).
        { apply existsb_exists. exists ks. split; [apply list_elem_of_In, Hks|].
          unfold _overlaps. apply andb_true_iff. split; apply Z.ltb_lt; assumption. }
        congruence.
      * destruct (existsb _ keep) eqn:Hex; [|reflexivity].
        apply existsb_exists in Hex as (ks & Hks & Hov).
        unfold _overlaps in Hov. apply andb_true_iff in Hov as [H1 H2].
        apply Z.ltb_lt in H1, H2.
        exfalso. apply (Hno ks); [apply list_elem_of_In, Hks | split; assumption].
  - intros eng once forced. simpl.
    rewrite Forall_forall. intros ks Hks.
    apply list_elem_of_In, filter_In in Hks as [_ Hv].
    apply andb_true_iff in Hv as [H1 H2].
    apply Z.leb_le in H1. apply Z.ltb_lt in H2. lia.
Qed.

End OverrideFacts.

(** ** Company span expansion *)

Section ExpandFacts.
Import MaskingEngine.

(** What a bounded scan to the right has consumed: characters of the
    scanned class only, no more than the budget, and none beyond the end
    of the text. *)
Lemma advance_spec p budget text : forall rr,
  0 <= rr ->
  let rr' := advance p budget text rr in
  rr <= rr' /\ rr' <= Z.max rr (Py.len text) /\ rr' - rr <= Z.of_nat budget /\
  Forall (fun c => p c = true) (Py.slice text rr rr').
Proof.
  induction budget as [|b IH]; intros rr Hrr rr'; subst rr'.
  - simpl. repeat split; try lia.
    assert (Hlen : Py.len (Py.slice text rr rr) = 0).
    { rewrite len_slice. lia. }
    destruct (Py.slice text rr rr); [constructor|].
    rewrite len_cons in Hlen. pose proof (len_nonneg l). lia.
  - cbn [advance].
    assert (Hempty : Forall (fun c => p c = true) (Py.slice text rr rr)).
    { assert (Hlen : Py.len (Py.slice text rr rr) = 0) by (rewrite len_slice; lia).
      destruct (Py.slice text rr rr); [constructor|].
      rewrite len_cons in Hlen. pose proof (len_nonneg l). lia. }
    destruct (Z.ltb_spec rr (Py.len text)) as [Hlt|Hge];
      [|repeat split; try lia; exact Hempty].
    destruct (Py.index text rr) as [c|] eqn:Hc;
      [|repeat split; try lia; exact Hempty].
    destruct (p c) eqn:Hpc; [|repeat split; try lia; exact Hempty].
    destruct (IH (rr + 1)) as (H1 & H2 & H3 & H4); [lia|].
    repeat split; try lia.
    set (rr' := advance p b text (rr + 1)) in *.
    assert (Hsplit : Py.slice text rr rr' = c :: Py.slice text (rr + 1) rr').
    { unfold Py.index in Hc.
      destruct (Z.leb_spec 0 rr); [|lia].
      destruct (Z.ltb_spec rr (Py.len text)); [|lia]. simpl in Hc.
      unfold Py.slice.
      assert (Hr' : rr' <= Py.len text) by lia.
      rewrite !clamp_inside by lia.
      replace (Z.to_nat (rr' - rr)) with (S (Z.to_nat (rr' - (rr + 1)))) by lia.
      replace (Z.to_nat (rr + 1)) with (S (Z.to_nat rr)) by lia.
      rewrite (drop_S _ c _ Hc). reflexivity. }
    rewrite Hsplit. constructor; assumption.
Qed.

(** X6. The company expansion never moves the start of a span.  When it
    widens a span, the new end stays within the text, and the widening
    is a run of blanks followed by at most 80 characters none of which is
    a boundary character.  A span that is not one of the bare corporate
    designators is left as it is. *)
Theorem X6_company_expansion_bounded (text : Py.str) (s e : Z) :
  0 <= s < e -> e <= Py.len text ->
  let '(s', e') := _expand_company_span text s e in
  s' = s /\ e <= e' <= Py.len text /\
  (exists mid,
      e <= mid <= e' /\ e' - mid <= 80 /\
      Forall (fun c => is_blank c = true) (Py.slice text e mid) /\
      Forall (fun c => is_boundary c = false) (Py.slice text mid e')) /\
  (Py.mem (Py.slice text s e) corp_prefixes = false ->
   Py.mem (Py.slice text s e) corp_abbr = false -> e' = e).
Proof.
  intros Hse Hlen.
  unfold _expand_company_span, corp_suffixes.
  destruct (Z.ltb_spec s 0); [lia|].
  destruct (Z.leb_spec e s); [lia|].
  destruct (Z.ltb_spec (Py.len text) e); [lia|].
  cbn [orb].
  assert (Hnone : exists mid,
             e <= mid <= e /\ e - mid <= 80 /\
             Forall (fun c => is_blank c = true) (Py.slice text e mid) /\
             Forall (fun c => is_boundary c = false) (Py.slice text mid e)).
  { exists e.
    assert (Hlen0 : Py.len (Py.slice text e e) = 0) by (rewrite len_slice; lia).
    assert (Hnil : Py.slice text e e = []).
    { destruct (Py.slice text e e); [reflexivity|].
      rewrite len_cons in Hlen0. pose proof (len_nonneg l). lia. }
    rewrite Hnil. repeat split; try lia; constructor. }
  assert (Hwide : let mid := advance is_blank (length text) text e in
                  let e' := advance (fun c => negb (is_boundary c)) 80 text mid in
                  e <= e' <= Py.len text /\
                  exists mid0,
                    e <= mid0 <= e' /\ e' - mid0 <= 80 /\
                    Forall (fun c => is_blank c = true) (Py.slice text e mid0) /\
                    Forall (fun c => is_boundary c = false) (Py.slice text mid0 e')).
  { intros mid e'.
    destruct (advance_spec is_blank (length text) text e ltac:(lia)) as (A1 & A2 & _ & A4).
    fold mid in A1, A2, A4.
    destruct (advance_spec (fun c => negb (is_boundary c)) 80 text mid ltac:(lia))
      as (B1 & B2 & B3 & B4).
    fold e' in B1, B2, B3, B4.
    split; [lia|]. exists mid. repeat split; try lia; [exact A4|].
    eapply Forall_impl; [exact B4|]. simpl. intros c Hc. apply negb_true_iff, Hc. }
  destruct (Py.mem (Py.slice text s e) corp_prefixes) eqn:Hp; cbn [orb].
  - cbv zeta in Hwide. destruct Hwide as [Hb Hex].
    split; [reflexivity|]. split; [exact Hb|]. split; [exact Hex|]. discriminate.
  - destruct (Py.mem (Py.slice text s e) corp_abbr) eqn:Ha.
    + cbv zeta in Hwide. destruct Hwide as [Hb Hex].
      split; [reflexivity|]. split; [exact Hb|]. split; [exact Hex|]. discriminate.
    + split; [reflexivity|]. split; [lia|]. split; [exact Hnone | reflexivity].
Qed.

End ExpandFacts.

(** The designator at [0,4) of a company name followed by a comma: the
    span is widened over the name and stops at the comma. *)
Lemma X6_company_expansion_bounded_witness :
  let text := [26666; 24335; 20250; 31038; 23665; 30000; 21830; 20107; 12289; 26481]%N in
  0 <= 0 < 4 /\ 4 <= Py.len text /\
  MaskingEngine._expand_company_span text 0 4 = (0, 8) /\
  let '(s', e') := MaskingEngine._expand_company_span text 0 4 in
  s' = 0 /\ 4 <= e' <= Py.len text.
Proof.
  intros text.
  assert (H1 : 0 <= 0 < 4) by lia.
  assert (H2 : 4 <= Py.len text) by (vm_compute; discriminate).
  split; [exact H1|]. split; [exact H2|]. split; [vm_compute; reflexivity|].
  pose proof (X6_company_expansion_bounded text 0 4 H1 H2) as Hx.
  destruct (MaskingEngine._expand_company_span text 0 4) as [s' e'].
  destruct Hx as (Hs & He & _). split; assumption.
Defined.

(** ** Hits that are kept as they are *)

Section KeptHits.
Context `{Runtime}.
Import MaskingEngine.

Lemma hit_of_kept eng text allowlist doc_id st r :
  let h := hit_of eng text allowlist doc_id st r in
  (passed_through h = true -> h_replacement h = h_original h) /\
  (is_forced (h_source h) = false -> h_entity_type h = Py.lit "PARTIES" ->
   h_reason h = Py.lit "keep:parties" /\ h_replacement h = h_original h) /\
  h_original h = Py.slice text (h_start h) (h_end h).
Proof.
  unfold passed_through, hit_of.
  destruct (hit_span text r) as [s e].
  unfold decide_replacement.
  destruct (StableId.get_label st (entity_type r) (Py.slice text s e) (label_format eng))
    as [lbl st'].
  destruct (is_forced (source r)) eqn:Hf.
  { repeat match goal with
           | |- context [if ?b then _ else _] => destruct b
           | |- context [match ?o with Some _ => _ | None => _ end] => destruct o
           | |- context [match ?o with [] => _ | _ :: _ => _ end] => destruct o
           end;
      cbn [h_source h_reason h_replacement h_original h_entity_type h_start h_end];
      rewrite Hf; (split; [discriminate | split; [discriminate | reflexivity]]). }
  destruct (Py.eqb (entity_type r) (Py.lit "PARTIES")) eqn:Hparties.
  { cbn [h_source h_reason h_replacement h_original h_entity_type h_start h_end].
    repeat split. }
  assert (Hne : entity_type r <> Py.lit "PARTIES").
  { intros Heq. unfold Py.eqb in Hparties. rewrite bool_decide_eq_false in Hparties.
    contradiction. }
  repeat match goal with
         | |- context [if ?b then _ else _] => destruct b
         end;
    cbn [h_source h_reason h_replacement h_original h_entity_type h_start h_end];
    rewrite Hf;
    (split; [intros Hp; try reflexivity; vm_compute in Hp; discriminate Hp
            | split; [intros _ Hent; contradiction | reflexivity]]).
Qed.

(** X7. A reported hit that is passed through (not forced, with one of
    the three keep reasons) has its original text as replacement, so the
    output is unchanged there; a detected PARTIES hit is always passed
    through; and the reported original of every hit is the input text
    between the reported offsets. *)
Theorem X7_kept_hits_unchanged (eng : Engine) (text doc_id masked : Py.str) (rep : Report) :
  mask_text_with_report eng text doc_id = Some (masked, rep) ->
  Forall (fun h =>
            (passed_through h = true -> h_replacement h = h_original h) /\
            (is_forced (h_source h) = false -> h_entity_type h = Py.lit "PARTIES" ->
             h_reason h = Py.lit "keep:parties" /\ h_replacement h = h_original h) /\
            h_original h = Py.slice text (h_start h) (h_end h))
         (hits rep).
Proof.
  intros Hrun. apply run_inv in Hrun as (detected & _ & _ & -> & _).
  generalize StableId.create.
  induction (resolved_of eng detected) as [|r rs IH]; intros st; simpl; constructor.
  - apply hit_of_kept.
  - apply IH.
Qed.

End KeptHits.

(** A party marker detected in LABEL mode stays as it is. *)
Lemma X7_kept_hits_unchanged_witness :
  let eng := Sample.engine (Py.lit "LABEL")
               [Sample.detection 0 1 (Py.lit "PARTIES") (99 # 100)] [] in
  let text := [30002; 12399; 20057]%N in
  exists masked rep,
    MaskingEngine.mask_text_with_report (H := Sample.runtime) eng text (Py.lit "doc")
    = Some (masked, rep) /\
    masked = text /\
    Forall (fun h =>
              (passed_through h = true ->
               MaskingEngine.h_replacement h = MaskingEngine.h_original h) /\
              (MaskingEngine.is_forced (MaskingEngine.h_source h) = false ->
               MaskingEngine.h_entity_type h = Py.lit "PARTIES" ->
               MaskingEngine.h_reason h = Py.lit "keep:parties" /\
               MaskingEngine.h_replacement h = MaskingEngine.h_original h) /\
              MaskingEngine.h_original h
              = Py.slice text (MaskingEngine.h_start h) (MaskingEngine.h_end h))
           (MaskingEngine.hits rep).
Proof.
  intros eng text.
  assert (Hsome : is_Some (MaskingEngine.mask_text_with_report (H := Sample.runtime)
                             eng text (Py.lit "doc"))).
  { vm_compute. eexists. reflexivity. }
  destruct Hsome as [[masked rep] Hrun].
  exists masked, rep. split; [exact Hrun|]. split.
  - revert Hrun. vm_compute. intros Hrun. injection Hrun as <- _. reflexivity.
  - exact (X7_kept_hits_unchanged (H := Sample.runtime) eng text (Py.lit "doc") masked rep Hrun).
Defined.

(** ** Numbering of stable labels *)

Section NumberingFacts.
Context `{Runtime}.
Import StableId.

(** The labelled terms of one entity type. *)
Definition terms_of (e : Py.str) (m : gmap (Py.str * Py.str) Py.str)
    : gmap (Py.str * Py.str) Py.str :=
  filter (fun kv => fst (fst kv) = e) m.

(** The counter of every entity type is the number of its labelled
    terms. *)
Definition numbered (st : StableIdState) : Prop :=
  forall e, default 0 (counters st !! e) = Z.of_nat (size (terms_of e (mapping st))).

Lemma create_numbered : numbered create.
Proof.
  intros e. unfold terms_of. simpl.
  rewrite lookup_empty, map_filter_empty, map_size_empty. reflexivity.
Qed.

Lemma get_label_numbered st e o f :
  numbered st -> numbered (snd (get_label st e o f)).
Proof.
  intros Hn. unfold get_label.
  destruct (mapping st !! (e, Normalize.normalize_term o)) as [l|] eqn:Hk; [exact Hn|].
  intros e'. cbn [snd counters mapping]. unfold terms_of.
  destruct (decide (e = e')) as [<-|Hne].
  - rewrite lookup_insert_eq.
    change (default 0 (Some (default 0 (counters st !! e) + 1)))
      with (default 0 (counters st !! e) + 1).
    rewrite map_filter_insert_True by reflexivity.
    rewrite map_size_insert_None.
    + rewrite (Hn e). unfold terms_of. lia.
    + apply map_lookup_filter_None. left. exact Hk.
  - rewrite lookup_insert_ne by exact Hne.
    rewrite map_filter_insert_False by (cbn; congruence).
    rewrite delete_id by exact Hk.
    apply Hn.
Qed.

Lemma run_calls_numbered calls : forall st, numbered st -> numbered (run_calls st calls).
Proof.
  induction calls as [|[[e o] f] calls IH]; intros st Hn; simpl; [exact Hn|].
  apply IH, get_label_numbered, Hn.
Qed.

(** X8. In a run, whatever labels were requested before, the counter of
    an entity type equals the number of distinct normalised terms of that
    type labelled so far; so a term not yet labelled gets the next number,
    and a term already labelled consumes none. *)
Theorem X8_labels_numbered_by_distinct_terms
    (calls : list (Py.str * Py.str * gmap Py.str Py.str)) (e o : Py.str)
    (f : gmap Py.str Py.str) :
  let st := run_calls create calls in
  let seen := Z.of_nat (size (terms_of e (mapping st))) in
  default 0 (counters st !! e) = seen /\
  (mapping st !! (e, Normalize.normalize_term o) = None ->
   fst (get_label st e o f) = str_format (default (default_format e) (f !! e)) (seen + 1) /\
   default 0 (counters (snd (get_label st e o f)) !! e) = seen + 1) /\
  (forall l, mapping st !! (e, Normalize.normalize_term o) = Some l ->
             get_label st e o f = (l, st)).
Proof.
  intros st seen.
  pose proof (run_calls_numbered calls create create_numbered) as Hn.
  fold st in Hn.
  split; [apply Hn|]. split.
  - intros Hk. unfold get_label. rewrite Hk. cbn [fst snd counters].
    rewrite lookup_insert_eq.
    change (default 0 (Some (default 0 (counters st !! e) + 1)))
      with (default 0 (counters st !! e) + 1).
    rewrite (Hn e). split; reflexivity.
  - intros l Hk. apply get_label_hit, Hk.
Qed.

End NumberingFacts.

(** After two persons and a company, a third person is number 3. *)
Lemma X8_labels_numbered_witness :
  let rt := Sample.runtime in
  let calls := [(Py.lit "PERSON", Py.lit "Sato", ∅); (Py.lit "COMPANY", Py.lit "Acme", ∅);
                (Py.lit "PERSON", Py.lit "Abe", ∅); (Py.lit "PERSON", Py.lit " Sato ", ∅)] in
  let st := run_calls StableId.create calls in
  StableId.mapping st !! (Py.lit "PERSON", Normalize.normalize_term (Py.lit "Ito")) = None /\
  fst (StableId.get_label st (Py.lit "PERSON") (Py.lit "Ito") ∅) = Py.lit "[PERSON_03]".
Proof.
  intros rt calls st.
  assert (Hk : StableId.mapping st !! (Py.lit "PERSON", Normalize.normalize_term (Py.lit "Ito"))
               = None) by (vm_compute; reflexivity).
  split; [exact Hk|].
  destruct (X8_labels_numbered_by_distinct_terms calls (Py.lit "PERSON") (Py.lit "Ito") ∅)
    as (_ & Hnew & _).
  destruct (Hnew Hk) as [Hlbl _].
  fold st in Hlbl. rewrite Hlbl. vm_compute. reflexivity.
Defined.

(** ** What an address is reduced to *)

Section AddressFacts.
Context `{Runtime}.
Import AddressRules.

Lemma startswith_prefix s c : Py.startswith s c = true -> c `prefix_of` s.
Proof.
  revert s. induction c as [|x c IH]; intros s Hs; [apply prefix_nil|].
  destruct s as [|y s]; [discriminate|]. simpl in Hs.
  apply andb_true_iff in Hs as [Hxy Hs].
  apply N.eqb_eq in Hxy as ->. apply prefix_cons, IH, Hs.
Qed.

Lemma longest_prefix_match_prefix s cands c :
  _longest_prefix_match s cands = Some c -> c `prefix_of` s.
Proof.
  unfold _longest_prefix_match. intros Hf.
  apply find_some in Hf as [_ Hs]. apply startswith_prefix, Hs.
Qed.

Lemma truthy_some o p : truthy o = Some p -> o = Some p /\ p <> [].
Proof.
  destruct o as [[|x q]|]; simpl; intros Heq; try discriminate.
  injection Heq as <-. split; [reflexivity | discriminate].
Qed.

Lemma takewhile_prefix {X} (f : X -> bool) (l : list X) : Py.takewhile f l `prefix_of` l.
Proof.
  induction l as [|x l IH]; simpl; [reflexivity|].
  destruct (f x); [apply prefix_cons, IH | apply prefix_nil].
Qed.

Lemma address_split_prefix s pref rest :
  address_split s = Some (pref, rest) -> pref <> [] /\ (pref ++ rest) `prefix_of` s.
Proof.
  unfold address_split.
  destruct s as [|c0 [|c1 tl]]; try discriminate.
  destruct (dot c0 && is_pref_suffix c1).
  - intros [= <- <-]. split; [discriminate|].
    apply (prefix_app [c0; c1]), takewhile_prefix.
  - destruct tl as [|c2 tl']; [discriminate|].
    destruct (dot c0 && dot c1 && is_pref_suffix c2); [|discriminate].
    intros [= <- <-]. split; [discriminate|].
    apply (prefix_app [c0; c1; c2]), takewhile_prefix.
Qed.

Lemma muni_scan_prefix fuel : forall taken rest g,
  muni_scan fuel taken rest = Some g ->
  exists mid, g = taken ++ mid /\ mid `prefix_of` rest.
Proof.
  induction fuel as [|fuel IH]; intros taken rest g Hg; simpl in Hg; [discriminate|].
  destruct rest as [|c rest']; [discriminate|].
  destruct (is_muni_suffix c && negb (bool_decide (taken = []))).
  - injection Hg as <-. exists [c]. split; [reflexivity|].
    apply (prefix_cons c []), prefix_nil.
  - destruct (dot c); [|discriminate].
    apply IH in Hg as (mid & -> & Hmid).
    exists (c :: mid). split; [rewrite <- app_assoc; reflexivity|].
    apply prefix_cons, Hmid.
Qed.

Lemma slice_from_prefix (s pref : Py.str) :
  pref `prefix_of` s -> s = pref ++ Py.slice_from s (Py.len pref).
Proof.
  intros [k ->]. unfold Py.slice_from.
  rewrite clamp_inside.
  - unfold Py.len. rewrite Nat2Z.id, drop_app_length. reflexivity.
  - rewrite len_app. pose proof (len_nonneg pref). pose proof (len_nonneg k). lia.
Qed.

(** X9. Of a blank address nothing is returned.  Of any other address
    the result is never empty and is either the placeholder [ADDRESS] or a
    prefix of the stripped address: the function shortens, it never
    rewrites or reveals more than the start of the input.  With
    FULL_MASK it is always the placeholder. *)
Theorem X9_address_is_placeholder_or_prefix
    (original granularity : Py.str) (prefectures municipalities : list Py.str) :
  let s := Normalize.strip original in
  let r := mask_address_granular original granularity prefectures municipalities in
  (s = [] -> r = []) /\
  (s <> [] -> r <> [] /\ (r = Py.lit "[ADDRESS]" \/ r `prefix_of` s)) /\
  (s <> [] -> granularity = Py.lit "FULL_MASK" -> r = Py.lit "[ADDRESS]").
Proof.
  intros s r. subst r. unfold mask_address_granular. fold s.
  destruct s as [|c0 s0] eqn:Hs; [repeat split; congruence|].
  rewrite <- Hs.
  assert (Hplace : Py.lit "[ADDRESS]" <> []) by (vm_compute; discriminate).
  split; [intros Hnil; rewrite Hs in Hnil; discriminate|].
  destruct (Py.eqb granularity (Py.lit "FULL_MASK")) eqn:Hfull.
  { split; [intros _; split; [exact Hplace | left; reflexivity] | reflexivity]. }
  split; [intros _ | intros _ Hg; unfold Py.eqb in Hfull;
                     rewrite bool_decide_eq_false in Hfull; contradiction].
  set (listed := truthy (match prefectures with
                         | [] => None
                         | _ :: _ => _longest_prefix_match s prefectures
                         end)).
  assert (Hfound : forall pref rest,
             match listed with
             | Some p => Some (p, Py.slice_from s (Py.len p))
             | None => address_split s
             end = Some (pref, rest) ->
             pref <> [] /\ (pref ++ rest) `prefix_of` s).
  { intros pref rest. destruct listed as [p|] eqn:Hl.
    - intros [= <- <-]. unfold listed in Hl. apply truthy_some in Hl as [Hl Hne].
      split; [exact Hne|].
      destruct prefectures; [discriminate|].
      apply longest_prefix_match_prefix, slice_from_prefix in Hl.
      rewrite <- Hl. reflexivity.
    - apply address_split_prefix. }
  destruct (match listed with
            | Some p => Some (p, Py.slice_from s (Py.len p))
            | None => address_split s
            end) as [[pref rest]|] eqn:Hf;
    [|split; [exact Hplace | left; reflexivity]].
  destruct (Hfound pref rest eq_refl) as [Hne Hpre].
  assert (Hpref : pref <> [] /\ (pref = Py.lit "[ADDRESS]" \/ pref `prefix_of` s)).
  { split; [exact Hne|]. right.
    etransitivity; [apply prefix_app_r; reflexivity | exact Hpre]. }
  assert (Hscan : match muni_match rest with
                  | Some g => pref ++ g
                  | None => pref
                  end <> [] /\
                  (match muni_match rest with
                   | Some g => pref ++ g
                   | None => pref
                   end = Py.lit "[ADDRESS]" \/
                   match muni_match rest with
                   | Some g => pref ++ g
                   | None => pref
                   end `prefix_of` s)).
  { destruct (muni_match rest) as [g|] eqn:Hg; [|exact Hpref].
    unfold muni_match in Hg. apply muni_scan_prefix in Hg as (mid & -> & Hmid).
    simpl. split.
    - destruct pref; [congruence | discriminate].
    - right. etransitivity; [|exact Hpre]. apply prefix_app, Hmid. }
  destruct (Py.eqb granularity (Py.lit "UNTIL_PREF")); [exact Hpref|].
  destruct (match municipalities with
            | [] => None
            | _ :: _ => truthy (_longest_prefix_match (pref ++ rest) municipalities)
            end) as [m|] eqn:Hm; [|exact Hscan].
  destruct (Py.startswith m pref); [|exact Hscan].
  destruct municipalities; [discriminate|].
  apply truthy_some in Hm as [Hm Hmne].
  split; [exact Hmne|]. right.
  etransitivity; [apply (longest_prefix_match_prefix _ _ _ Hm) | exact Hpre].
Qed.

End AddressFacts.

(** * The word-processor pipeline around the engine *)

(** ** pipelines/docx_pipeline.py *)

Module DocxPipeline.

Definition BLACK_CHAR : Py.char := 9632%N.

(** [set(repl) == {BLACK_CHAR}] for a non-empty [repl] *)
Definition _is_black_replacement (repl : Py.str) : bool :=
  match repl with
  | [] => false
  | _ => forallb (fun c => (c =? BLACK_CHAR)%N) repl
  end.

Record SegMap := {
  m_seg_id : Py.str;
  local_start : Z;
  local_end : Z;
  overlap : bool
}.

Definition map_hit_to_segments (s e : Z) (segments : list DocxSegments.Segment)
    : list SegMap :=
  foldl (fun mapped seg =>
           let os_ := Z.max s (DocxSegments.global_start seg) in
           let oe_ := Z.min e (DocxSegments.global_end seg) in
           if os_ <? oe_
           then mapped ++ [{| m_seg_id := DocxSegments.seg_id seg;
                              local_start := os_ - DocxSegments.global_start seg;
                              local_end := oe_ - DocxSegments.global_start seg;
                              overlap := negb ((DocxSegments.global_start seg <=? s)
                                               && (e <=? DocxSegments.global_end seg)) |}]
           else mapped)
        [] segments.

Definition _piece_replacement (full_repl : Py.str) (piece_len : Z) : Py.str :=
  if _is_black_replacement full_repl
  then Py.repeat_char BLACK_CHAR (Z.max 0 piece_len)
  else full_repl.

(** The entries handed to the rewriter. *)
Record DocxMap := {
  dm_seg_id : Py.str;
  dm_local_start : Z;
  dm_local_end : Z;
  dm_replacement : Py.str
}.

(** The planning loop of [process_docx_file] over the reported hits: the
    hits with the review flag and reason it sets, and the rewrite
    entries. *)
Record Plan := {
  planned : list (MaskingEngine.Hit * bool);
  docx_maps : list DocxMap
}.

Definition with_reason (h : MaskingEngine.Hit) (reason : Py.str) : MaskingEngine.Hit :=
  {| MaskingEngine.h_doc_id := MaskingEngine.h_doc_id h;
     MaskingEngine.h_entity_type := MaskingEngine.h_entity_type h;
     MaskingEngine.h_start := MaskingEngine.h_start h;
     MaskingEngine.h_end := MaskingEngine.h_end h;
     MaskingEngine.h_score := MaskingEngine.h_score h;
     MaskingEngine.h_original := MaskingEngine.h_original h;
     MaskingEngine.h_replacement := MaskingEngine.h_replacement h;
     MaskingEngine.h_reason := reason;
     MaskingEngine.h_source := MaskingEngine.h_source h |}.

Definition plan_step (segments : list DocxSegments.Segment) (pl : Plan)
    (h : MaskingEngine.Hit) : Plan :=
  if Py.startswith (MaskingEngine.h_reason h) (Py.lit "keep")
  then {| planned := planned pl ++ [(h, false)]; docx_maps := docx_maps pl |}
  else
    let maps := map_hit_to_segments (MaskingEngine.h_start h) (MaskingEngine.h_end h) segments in
    match maps with
    | [] => {| planned := planned pl
                          ++ [(with_reason h (Py.lit "warning:segment_not_found"), true)];
               docx_maps := docx_maps pl |}
    | _ =>
        let flagged := (1 <? Py.len maps) || existsb overlap maps in
        let h' := if flagged
                  then (with_reason h (Py.lit "warning:segment_overlap_applied"), true)
                  else (h, false) in
        {| planned := planned pl ++ [h'];
           docx_maps :=
             foldl (fun dms m =>
                      dms ++ [{| dm_seg_id := m_seg_id m;
                                 dm_local_start := local_start m;
                                 dm_local_end := local_end m;
                                 dm_replacement :=
                                   _piece_replacement (MaskingEngine.h_replacement h)
                                     (local_end m - local_start m) |}])
                   (docx_maps pl) maps |}
    end.

Definition plan_docx (hits : list MaskingEngine.Hit) (segments : list DocxSegments.Segment)
    : Plan :=
  foldl (plan_step segments) {| planned := []; docx_maps := [] |} hits.

End DocxPipeline.

(** ** Offsets of a hit inside the segments *)

Section SegmentMapFacts.
Import DocxSegments DocxPipeline.

(** The entry one segment contributes to a hit, if any. *)
Definition piece_of (s e : Z) (seg : Segment) : list SegMap :=
  if Z.max s (global_start seg) <? Z.min e (global_end seg)
  then [{| m_seg_id := seg_id seg;
           local_start := Z.max s (global_start seg) - global_start seg;
           local_end := Z.min e (global_end seg) - global_start seg;
           overlap := negb ((global_start seg <=? s) && (e <=? global_end seg)) |}]
  else [].

Lemma map_hit_flat s e segs :
  map_hit_to_segments s e segs = flat_map (piece_of s e) segs.
Proof.
  unfold map_hit_to_segments.
  assert (Hgen : forall acc,
            foldl (fun mapped seg =>
                     let os_ := Z.max s (global_start seg) in
                     let oe_ := Z.min e (global_end seg) in
                     if os_ <? oe_
                     then mapped ++ [{| m_seg_id := seg_id seg;
                                        local_start := os_ - global_start seg;
                                        local_end := oe_ - global_start seg;
                                        overlap := negb ((global_start seg <=? s)
                                                         && (e <=? global_end seg)) |}]
                     else mapped) acc segs
            = acc ++ flat_map (piece_of s e) segs).
  { induction segs as [|seg segs IH]; intros acc; simpl; [rewrite app_nil_r; reflexivity|].
    rewrite IH. unfold piece_of.
    destruct (Z.max s (global_start seg) <? Z.min e (global_end seg)); simpl.
    - rewrite <- app_assoc. reflexivity.
    - reflexivity. }
  apply Hgen.
Qed.

Lemma take_drop_take {X} (l : list X) (n m k : nat) :
  (k + n <= m)%nat -> take n (drop k (take m l)) = take n (drop k l).
Proof.
  intros Hle.
  rewrite !take_drop_commute, take_take.
  replace ((k + n) `min` m)%nat with (k + n)%nat by lia.
  reflexivity.
Qed.

Lemma slice_of_slice {X} (t : list X) a b i j :
  0 <= a <= b -> b <= Py.len t -> 0 <= i <= j -> j <= b - a ->
  Py.slice (Py.slice t a b) i j = Py.slice t (a + i) (a + j).
Proof.
  intros Ha Hb Hi Hj.
  assert (Hlen : Py.len (Py.slice t a b) = b - a) by (apply len_slice_inside; lia).
  unfold Py.slice at 1. rewrite Hlen, !clamp_inside by lia.
  unfold Py.slice. rewrite !clamp_inside by lia.
  replace (Z.to_nat (a + j - (a + i))) with (Z.to_nat (j - i)) by lia.
  rewrite take_drop_take by lia.
  rewrite drop_drop.
  replace (Z.to_nat a + Z.to_nat i)%nat with (Z.to_nat (a + i)) by lia.
  reflexivity.
Qed.

(** The facts about the extracted segments that the mapping relies on. *)
Lemma extract_segments_facts (d : Document) :
  let '(full_text, segs, _) := extract_docx_segments d in
  laid_out 0 segs /\
  Forall (fun s =>
            Py.slice full_text (global_start s) (global_end s) = text s /\
            Py.index full_text (global_end s) = Some Py.NL) segs.
Proof.
  unfold extract_docx_segments.
  set (a3 := fold_indexed visit_table 0 _ _).
  assert (Hok : acc_ok a3).
  { subst a3.
    apply fold_indexed_ok; [intros; apply visit_table_ok; assumption|].
    apply fold_indexed_ok; [intros; apply add_seg_ok; assumption|].
    apply fold_indexed_ok; [intros; apply visit_section_ok; assumption|].
    exact acc0_ok. }
  destruct Hok as (Hb & _ & Hl).
  split; [exact Hl|].
  rewrite Hb.
  pose proof (laid_out_read_back [] (segments a3) [] Hl) as Hr.
  simpl in Hr. rewrite app_nil_r in Hr. exact Hr.
Qed.

Lemma laid_out_bounds from segs :
  laid_out from segs ->
  Forall (fun x => from <= global_start x <= global_end x /\
                   global_end x = global_start x + Py.len (text x)) segs.
Proof.
  revert from. induction segs as [|x segs IH]; intros from Hl; [constructor|].
  simpl in Hl. destruct Hl as (Hs & He & Hl).
  pose proof (len_nonneg (text x)) as Hn.
  constructor; [lia|].
  eapply Forall_impl; [apply (IH _ Hl)|]. simpl. intros; lia.
Qed.

Lemma laid_out_split from l1 seg l2 :
  laid_out from (l1 ++ seg :: l2) ->
  Forall (fun x => global_end x < global_start seg) l1 /\
  Forall (fun x => global_end seg < global_start x) l2.
Proof.
  revert from. induction l1 as [|x l1 IH]; intros from Hl; simpl in Hl.
  - destruct Hl as (_ & _ & Hl). split; [constructor|].
    eapply Forall_impl; [apply (laid_out_bounds _ _ Hl)|]. simpl. intros; lia.
  - destruct Hl as (_ & _ & Hl).
    destruct (IH _ Hl) as [H1 H2]. split; [|exact H2].
    constructor; [|exact H1].
    pose proof (laid_out_bounds _ _ Hl) as Hb.
    apply Forall_app in Hb as [_ Hb]. apply Forall_cons in Hb as [Hb _]. lia.
Qed.

(** X10. For the segments of a document and a hit [[s, e)]: every entry
    the mapping returns belongs to a segment of the list, its local range
    is non-empty and lies within that segment's text, the global range it
    stands for lies within the hit, and the segment's text at the local
    range is the canonical text at that global range. *)
Theorem X10_hit_pieces_read_canonical_text (d : Document) (s e : Z) :
  let '(full_text, segs, _) := extract_docx_segments d in
  Forall (fun m =>
            exists seg,
              seg ∈ segs /\ m_seg_id m = seg_id seg /\
              0 <= local_start m < local_end m /\
              local_end m <= Py.len (text seg) /\
              s <= global_start seg + local_start m /\
              global_start seg + local_end m <= e /\
              Py.slice (text seg) (local_start m) (local_end m)
              = Py.slice full_text (global_start seg + local_start m)
                         (global_start seg + local_end m))
         (map_hit_to_segments s e segs).
Proof.
  pose proof (extract_segments_facts d) as Hfacts.
  destruct (extract_docx_segments d) as [[full_text segs] warns].
  destruct Hfacts as (Hl & Hsegs).
  rewrite map_hit_flat, Forall_forall.
  intros m Hm. apply list_elem_of_In, in_flat_map in Hm as (seg & Hseg & Hm).
  apply list_elem_of_In in Hseg.
  rewrite Forall_forall in Hsegs. destruct (Hsegs seg Hseg) as (Hslice & Hnl).
  pose proof (laid_out_bounds _ _ Hl) as Hb.
  rewrite Forall_forall in Hb. specialize (Hb seg Hseg).
  assert (Hge : global_end seg < Py.len full_text).
  { unfold Py.index in Hnl.
    destruct ((0 <=? global_end seg) && (global_end seg <? Py.len full_text)) eqn:Hin.
    - apply andb_true_iff in Hin as [_ Hin]. apply Z.ltb_lt in Hin. exact Hin.
    - destruct ((- Py.len full_text <=? global_end seg) && (global_end seg <? 0)) eqn:Hneg;
        [|discriminate].
      apply andb_true_iff in Hneg as [_ Hneg]. apply Z.ltb_lt in Hneg. lia. }
  unfold piece_of in Hm.
  destruct (Z.ltb_spec (Z.max s (global_start seg)) (Z.min e (global_end seg))) as [Hlt|];
    [|inversion Hm].
  destruct Hm as [<-|[]]. cbn [m_seg_id local_start local_end].
  exists seg. split; [exact Hseg|]. split; [reflexivity|].
  split; [lia|]. split; [lia|]. split; [lia|]. split; [lia|].
  rewrite <- Hslice at 1.
  apply slice_of_slice; lia.
Qed.

Lemma map_hit_inside_segment (d : Document) (seg : Segment) (s e : Z) :
  seg ∈ snd (fst (extract_docx_segments d)) ->
  global_start seg <= s -> s < e -> e <= global_end seg ->
  map_hit_to_segments s e (snd (fst (extract_docx_segments d)))
  = [{| m_seg_id := seg_id seg;
        local_start := s - global_start seg;
        local_end := e - global_start seg;
        overlap := false |}].
Proof.
  pose proof (extract_segments_facts d) as Hfacts.
  destruct (extract_docx_segments d) as [[full_text segs] warns].
  destruct Hfacts as (Hl & _). cbn [fst snd].
  intros Hseg Hs Hse He.
  apply list_elem_of_split in Hseg as (l1 & l2 & ->).
  apply laid_out_split in Hl as [H1 H2].
  rewrite map_hit_flat, flat_map_app. cbn [flat_map].
  assert (Hl1 : flat_map (piece_of s e) l1 = []).
  { clear H2. induction l1 as [|x l1 IH]; [reflexivity|].
    apply Forall_cons in H1 as [Hx H1]. simpl. rewrite (IH H1), app_nil_r.
    unfold piece_of.
    destruct (Z.ltb_spec (Z.max s (global_start x)) (Z.min e (global_end x))); [lia|].
    reflexivity. }
  assert (Hl2 : flat_map (piece_of s e) l2 = []).
  { clear H1 Hl1. induction l2 as [|x l2 IH]; [reflexivity|].
    apply Forall_cons in H2 as [Hx H2]. simpl. rewrite (IH H2), app_nil_r.
    unfold piece_of.
    destruct (Z.ltb_spec (Z.max s (global_start x)) (Z.min e (global_end x))); [lia|].
    reflexivity. }
  rewrite Hl1, Hl2, app_nil_r. cbn [app]. unfold piece_of.
  destruct (Z.ltb_spec (Z.max s (global_start seg)) (Z.min e (global_end seg))); [|lia].
  destruct (Z.leb_spec (global_start seg) s); [|lia].
  destruct (Z.leb_spec e (global_end seg)); [|lia].
  cbn [andb negb]. f_equal. f_equal; lia.
Qed.

(** X11. A hit that lies inside one segment of the document is mapped to
    exactly one entry, on that segment, not marked as overlapping, whose
    local range is the hit's range shifted by the segment's start. *)
Theorem X11_hit_inside_segment_maps_once (d : Document) (seg : Segment) (s e : Z) :
  seg ∈ snd (fst (extract_docx_segments d)) ->
  global_start seg <= s -> s < e -> e <= global_end seg ->
  map_hit_to_segments s e (snd (fst (extract_docx_segments d)))
  = [{| m_seg_id := seg_id seg;
        local_start := s - global_start seg;
        local_end := e - global_start seg;
        overlap := false |}].
Proof. apply map_hit_inside_segment. Qed.

End SegmentMapFacts.

(** A document with two body paragraphs, "Hello" and "World". *)
Definition two_paragraphs : DocxSegments.Document :=
  {| DocxSegments.xml := [];
     DocxSegments.sections := [];
     DocxSegments.paragraphs := [Py.lit "Hello"; Py.lit "World"];
     DocxSegments.tables := [] |}.

(** The hit [7,9) lies in the second paragraph, which starts at 6. *)
Lemma X11_hit_inside_segment_maps_once_witness :
  let segs := snd (fst (DocxSegments.extract_docx_segments two_paragraphs)) in
  exists seg,
    seg ∈ segs /\
    DocxSegments.global_start seg <= 7 /\ 7 < 9 /\ 9 <= DocxSegments.global_end seg /\
    List.map (fun m => (DocxPipeline.local_start m, DocxPipeline.local_end m))
             (DocxPipeline.map_hit_to_segments 7 9 segs) = [(1, 3)].
Proof.
  intros segs.
  destruct (segs !! 1%nat) as [seg|] eqn:Hlook; [|vm_compute in Hlook; discriminate].
  assert (Hin : seg ∈ segs) by (eapply list_elem_of_lookup_2; exact Hlook).
  assert (Hb : DocxSegments.global_start seg = 6 /\ DocxSegments.global_end seg = 11).
  { vm_compute in Hlook. injection Hlook as <-. split; reflexivity. }
  destruct Hb as [Hgs Hge].
  assert (H1 : DocxSegments.global_start seg <= 7) by lia.
  assert (H2 : 7 < 9) by lia.
  assert (H3 : 9 <= DocxSegments.global_end seg) by lia.
  exists seg. split; [exact Hin|]. split; [exact H1|]. split; [exact H2|]. split; [exact H3|].
  unfold segs.
  rewrite (X11_hit_inside_segment_maps_once two_paragraphs seg 7 9 Hin H1 H2 H3).
  simpl. rewrite Hgs. reflexivity.
Defined.

(** ** Replacement of a split piece and the rewrite plan *)

Section PlanFacts.
Import DocxSegments DocxPipeline.

Lemma is_black_spec repl :
  _is_black_replacement repl = true <-> repl <> [] /\ Forall (fun c => c = BLACK_CHAR) repl.
Proof.
  unfold _is_black_replacement.
  destruct repl as [|c repl]; [split; [discriminate | intros [Hne _]; congruence]|].
  rewrite forallb_forall, Forall_forall. split.
  - intros Hall. split; [discriminate|]. intros x Hx.
    apply N.eqb_eq, Hall, list_elem_of_In, Hx.
  - intros [_ Hall] x Hx. apply N.eqb_eq, Hall, list_elem_of_In, Hx.
Qed.

(** X12. When the replacement of a hit is a blackout (non-empty, filler
    characters only), the replacement of a piece is the filler repeated
    exactly the piece's length, whatever the length of the hit's
    replacement; any other replacement, a label or a kept original, is
    given to every piece unchanged. *)
Theorem X12_piece_replacement_keeps_length (full_repl : Py.str) (piece_len : Z) :
  (full_repl <> [] -> Forall (fun c => c = BLACK_CHAR) full_repl ->
   _piece_replacement full_repl piece_len = replicate (Z.to_nat piece_len) BLACK_CHAR /\
   Py.len (_piece_replacement full_repl piece_len) = Z.max 0 piece_len) /\
  ((full_repl = [] \/ exists c, c ∈ full_repl /\ c <> BLACK_CHAR) ->
   _piece_replacement full_repl piece_len = full_repl).
Proof.
  unfold _piece_replacement. split.
  - intros Hne Hall.
    rewrite (proj2 (is_black_spec full_repl) (conj Hne Hall)).
    unfold Py.repeat_char.
    replace (Z.to_nat (Z.max 0 piece_len)) with (Z.to_nat piece_len) by lia.
    split; [reflexivity|].
    unfold Py.len. rewrite length_replicate. lia.
  - intros Hnot.
    destruct (_is_black_replacement full_repl) eqn:Hb; [|reflexivity].
    apply is_black_spec in Hb as [Hne Hall].
    destruct Hnot as [->|(c & Hc & Hcne)]; [congruence|].
    rewrite Forall_forall in Hall. specialize (Hall c Hc). contradiction.
Qed.

(** X13. In the planning loop a hit that is masked (its reason does not
    start with "keep") and lies inside one segment adds exactly one
    rewrite entry, on that segment, with the hit's range shifted by the
    segment's start and the piece replacement of the hit's replacement;
    the hit is not flagged and keeps its reason. *)
Theorem X13_plan_hit_inside_segment (d : Document) (seg : Segment) (pl : Plan)
    (h : MaskingEngine.Hit) :
  let segs := snd (fst (extract_docx_segments d)) in
  seg ∈ segs ->
  Py.startswith (MaskingEngine.h_reason h) (Py.lit "keep") = false ->
  global_start seg <= MaskingEngine.h_start h ->
  MaskingEngine.h_start h < MaskingEngine.h_end h ->
  MaskingEngine.h_end h <= global_end seg ->
  plan_step segs pl h =
  {| planned := planned pl ++ [(h, false)];
     docx_maps :=
       docx_maps pl ++
       [{| dm_seg_id := seg_id seg;
           dm_local_start := MaskingEngine.h_start h - global_start seg;
           dm_local_end := MaskingEngine.h_end h - global_start seg;
           dm_replacement :=
             _piece_replacement (MaskingEngine.h_replacement h)
               (MaskingEngine.h_end h - MaskingEngine.h_start h) |}] |}.
Proof.
  intros segs Hseg Hkeep Hs Hse He.
  unfold plan_step. rewrite Hkeep.
  unfold segs.
  rewrite (map_hit_inside_segment d seg _ _ Hseg Hs Hse He).
  cbn [foldl existsb overlap orb m_seg_id local_start local_end].
  replace (MaskingEngine.h_end h - global_start seg
           - (MaskingEngine.h_start h - global_start seg))
    with (MaskingEngine.h_end h - MaskingEngine.h_start h) by lia.
  reflexivity.
Qed.

End PlanFacts.

(** A blackout hit over [7,9) of the two paragraphs: one entry on the
    second paragraph with two filler characters. *)
Lemma X13_plan_hit_inside_segment_witness :
  let segs := snd (fst (DocxSegments.extract_docx_segments two_paragraphs)) in
  let h := {| MaskingEngine.h_doc_id := Py.lit "doc";
              MaskingEngine.h_entity_type := Py.lit "PERSON";
              MaskingEngine.h_start := 7; MaskingEngine.h_end := 9;
              MaskingEngine.h_score := (9 # 10)%Q;
              MaskingEngine.h_original := Py.lit "or";
              MaskingEngine.h_replacement := [9632; 9632; 9632]%N;
              MaskingEngine.h_reason := Py.lit "mask:black";
              MaskingEngine.h_source := MaskingEngine.SrcAnalyzer |} in
  exists seg,
    seg ∈ segs /\
    Py.startswith (MaskingEngine.h_reason h) (Py.lit "keep") = false /\
    DocxPipeline.plan_docx [h] segs
    = {| DocxPipeline.planned := [(h, false)];
         DocxPipeline.docx_maps :=
           [{| DocxPipeline.dm_seg_id := Py.lit "P000001";
               DocxPipeline.dm_local_start := 1;
               DocxPipeline.dm_local_end := 3;
               DocxPipeline.dm_replacement := [9632; 9632]%N |}] |}.
Proof.
  intros segs h.
  destruct (segs !! 1%nat) as [seg|] eqn:Hlook; [|vm_compute in Hlook; discriminate].
  assert (Hin : seg ∈ segs) by (eapply list_elem_of_lookup_2; exact Hlook).
  assert (Hb : DocxSegments.global_start seg = 6 /\ DocxSegments.global_end seg = 11 /\
               DocxSegments.seg_id seg = Py.lit "P000001").
  { vm_compute in Hlook. injection Hlook as <-. repeat split. }
  destruct Hb as (Hgs & Hge & Hid).
  assert (Hk : Py.startswith (MaskingEngine.h_reason h) (Py.lit "keep") = false)
    by (vm_compute; reflexivity).
  exists seg. split; [exact Hin|]. split; [exact Hk|].
  unfold DocxPipeline.plan_docx. cbn [foldl].
  rewrite (X13_plan_hit_inside_segment two_paragraphs seg _ h Hin Hk);
    [|cbn; lia..].
  cbn [DocxPipeline.planned DocxPipeline.docx_maps app MaskingEngine.h_start
       MaskingEngine.h_end MaskingEngine.h_replacement h].
  rewrite Hgs, Hid. vm_compute. reflexivity.
Defined.

(** ** pipelines/docx_rewrite.py: the segment iterator *)

Module DocxRewriter.

(** What the iterator yields as the object to rewrite. *)
Inductive Target :=
| HeaderParagraph (sec : nat)
| FooterParagraph (sec : nat)
| BodyParagraph (i : nat)
| TableCell (table row col : nat).

Record Yielded := {
  y_seg_id : Py.str;
  y_kind : Py.str;
  y_obj : Target;
  y_text : Py.str
}.

(** The values yielded so far and the counter [idx] of [mk]. *)
Definition Iter : Type := list Yielded * Z.

Definition yield (kind : Py.str) (obj : Target) (text : option Py.str) (it : Iter) : Iter :=
  let seg_id := kind ++ Py.zero_pad 6 (snd it) in
  (fst it ++ [{| y_seg_id := seg_id; y_kind := kind; y_obj := obj;
                 y_text := default [] text |}],
   snd it + 1).

Definition iter_section (i : nat) (sec : DocxSegments.SectionPart) (it : Iter) : Iter :=
  let it1 :=
    match DocxSegments.header_paragraphs sec with
    | t :: _ => yield (Py.lit "H") (HeaderParagraph i) (Some t) it
    | [] => it
    end in
  match DocxSegments.footer_paragraphs sec with
  | t :: _ => yield (Py.lit "F") (FooterParagraph i) (Some t) it1
  | [] => it1
  end.

Definition iter_table (ti : nat) (rows : list (list Py.str)) (it : Iter) : Iter :=
  DocxSegments.fold_indexed
    (fun ri cells =>
       DocxSegments.fold_indexed
         (fun ci c => yield (Py.lit "C") (TableCell ti ri ci) (Some c)) 0 cells)
    0 rows it.

Definition _iter_segments_same_doc (d : DocxSegments.Document) : list Yielded :=
  let it1 := DocxSegments.fold_indexed iter_section 0 (DocxSegments.sections d) ([], 0) in
  let it2 := DocxSegments.fold_indexed
               (fun i p => yield (Py.lit "P") (BodyParagraph i) (Some p))
               0 (DocxSegments.paragraphs d) it1 in
  let it3 := DocxSegments.fold_indexed iter_table 0 (DocxSegments.tables d) it2 in
  fst it3.

End DocxRewriter.

Section IterFacts.
Import DocxSegments DocxRewriter.

(** The iterator has yielded what the extractor has recorded, and both
    counters agree. *)
Definition in_step (it : Iter) (a : Acc) : Prop :=
  List.map (fun y => (y_seg_id y, y_kind y, y_text y)) (fst it)
  = List.map (fun s => (seg_id s, kind s, text s)) (segments a) /\
  snd it = idx a.

Lemma yield_in_step k o1 o2 t it a :
  in_step it a -> in_step (yield k o1 t it) (add_seg k o2 t a).
Proof.
  intros [Hm Hi]. unfold in_step, yield, add_seg. cbn [fst snd segments idx].
  rewrite !List.map_app, Hm, Hi. split; reflexivity.
Qed.

Lemma fold_indexed_in_step {X} (f : nat -> X -> Iter -> Iter) (g : nat -> X -> Acc -> Acc) :
  (forall i x it a, in_step it a -> in_step (f i x it) (g i x a)) ->
  forall xs k it a, in_step it a -> in_step (fold_indexed f k xs it) (fold_indexed g k xs a).
Proof.
  intros Hfg xs. induction xs as [|x xs IH]; intros k it a Hia; simpl; [exact Hia|].
  apply IH, Hfg, Hia.
Qed.

(** X14. The rewriter's iterator walks the document in the order of the
    extractor: it yields the same segment ids, kinds and texts, one for
    one, so the rewrite entries made from the extractor's segments find
    their segments again. *)
Theorem X14_iterator_matches_extractor (d : Document) :
  List.map (fun y => (y_seg_id y, y_kind y, y_text y)) (_iter_segments_same_doc d)
  = List.map (fun s => (seg_id s, kind s, text s)) (snd (fst (extract_docx_segments d))).
Proof.
  unfold _iter_segments_same_doc, extract_docx_segments. cbn [fst snd].
  apply fold_indexed_in_step.
  { intros ti rows it a Hia. unfold iter_table, visit_table.
    apply fold_indexed_in_step; [|exact Hia].
    intros ri cells it' a' Hia'. unfold visit_row.
    apply fold_indexed_in_step; [|exact Hia'].
    intros. apply yield_in_step. assumption. }
  apply fold_indexed_in_step.
  { intros. apply yield_in_step. assumption. }
  apply fold_indexed_in_step.
  { intros i sec it a Hia. unfold iter_section, visit_section.
    destruct (header_paragraphs sec), (footer_paragraphs sec);
      repeat apply yield_in_step; exact Hia. }
  split; reflexivity.
Qed.

End IterFacts.

(** * The PDF pipeline around the engine *)

(** ** pipelines/pdf_pipeline.py: text with positions *)

Module PdfExtract.

(** An entry of a span's [chars] in raw mode: the character [c] ([None]
    when it is missing or empty) and its box ([None] when it is missing
    and the span's box stands in). *)
Record RawChar := {
  rc_c : option Py.char;
  rc_bbox : option PdfPipeline.Rect
}.

Record Span := {
  span_text : Py.str;
  span_bbox : PdfPipeline.Rect;
  span_chars : list RawChar
}.

Record Block := {
  block_type : Z;
  block_lines : list (list Span)
}.

(** The pages of the document, each with the blocks of its page
    dictionary. *)
Definition Doc : Type := list (list Block).

Record Acc := {
  all_chars : list PdfPipeline.CharInfo;
  text_parts : list Py.str
}.

Definition push (ci : PdfPipeline.CharInfo) (a : Acc) : Acc :=
  {| all_chars := all_chars a ++ [ci];
     text_parts := text_parts a ++ [[PdfPipeline.char ci]] |}.

Definition dummy (page_idx : nat) : PdfPipeline.CharInfo :=
  {| PdfPipeline.page_idx := page_idx;
     PdfPipeline.x0 := 0; PdfPipeline.y0 := 0; PdfPipeline.x1 := 0; PdfPipeline.y1 := 0;
     PdfPipeline.char := Py.NL |}.

Definition raw_char (page_idx : nat) (bbox_of_span : PdfPipeline.Rect)
    (a : Acc) (ch : RawChar) : Acc :=
  match rc_c ch with
  | None => a
  | Some c =>
      let '(bx0, by0, bx1, by1) := default bbox_of_span (rc_bbox ch) in
      push {| PdfPipeline.page_idx := page_idx;
              PdfPipeline.x0 := bx0; PdfPipeline.y0 := by0;
              PdfPipeline.x1 := bx1; PdfPipeline.y1 := by1;
              PdfPipeline.char := c |} a
  end.

(** Dictionary mode: the span's box is shared out evenly. *)
Definition dict_chars (page_idx : nat) (sp : Span) (a : Acc) : Acc :=
  let '(sx0, sy0, sx1, sy1) := span_bbox sp in
  let n := Z.max (Py.len (span_text sp)) 1 in
  let char_w := ((sx1 - sx0) / inject_Z n)%Q in
  DocxSegments.fold_indexed
    (fun i c =>
       push {| PdfPipeline.page_idx := page_idx;
               PdfPipeline.x0 := (sx0 + inject_Z (Z.of_nat i) * char_w)%Q;
               PdfPipeline.y0 := sy0;
               PdfPipeline.x1 := (sx0 + inject_Z (Z.of_nat i + 1) * char_w)%Q;
               PdfPipeline.y1 := sy1;
               PdfPipeline.char := c |})
    0 (span_text sp) a.

Definition span_step (page_idx : nat) (a : Acc) (sp : Span) : Acc :=
  match span_chars sp with
  | _ :: _ => foldl (raw_char page_idx (span_bbox sp)) a (span_chars sp)
  | [] =>
      match span_text sp with
      | _ :: _ => dict_chars page_idx sp a
      | [] => a
      end
  end.

Definition line_step (page_idx : nat) (a : Acc) (line : list Span) : Acc :=
  push (dummy page_idx) (foldl (span_step page_idx) a line).

Definition block_step (page_idx : nat) (a : Acc) (b : Block) : Acc :=
  if negb (block_type b =? 0) then a
  else foldl (line_step page_idx) a (block_lines b).

Definition page_step (page_idx : nat) (blocks : list Block) (a : Acc) : Acc :=
  push (dummy page_idx) (foldl (block_step page_idx) a blocks).

(** The text and the character positions. *)
Definition _extract_text_with_positions (doc : Doc) : Py.str * list PdfPipeline.CharInfo :=
  let a := DocxSegments.fold_indexed page_step 0 doc
             {| all_chars := []; text_parts := [] |} in
  (concat (text_parts a), all_chars a).

End PdfExtract.

Section PdfExtractFacts.
Import PdfPipeline PdfExtract.

(** The text collected so far spells the characters of the positions. *)
Definition in_sync (a : Acc) : Prop :=
  concat (text_parts a) = List.map char (all_chars a).

Lemma push_in_sync ci a : in_sync a -> in_sync (push ci a).
Proof.
  unfold in_sync, push. cbn [all_chars text_parts]. intros Ha.
  rewrite concat_app, List.map_app, Ha. reflexivity.
Qed.

Lemma foldl_in_sync {X} (f : Acc -> X -> Acc) :
  (forall a x, in_sync a -> in_sync (f a x)) ->
  forall xs a, in_sync a -> in_sync (foldl f a xs).
Proof.
  intros Hf xs. induction xs as [|x xs IH]; intros a Ha; simpl; [exact Ha|].
  apply IH, Hf, Ha.
Qed.

Lemma fold_indexed_in_sync {X} (f : nat -> X -> Acc -> Acc) :
  (forall i x a, in_sync a -> in_sync (f i x a)) ->
  forall xs k a, in_sync a -> in_sync (DocxSegments.fold_indexed f k xs a).
Proof.
  intros Hf xs. induction xs as [|x xs IH]; intros k a Ha; simpl; [exact Ha|].
  apply IH, Hf, Ha.
Qed.

Lemma span_step_in_sync pg a sp : in_sync a -> in_sync (span_step pg a sp).
Proof.
  intros Ha. unfold span_step.
  destruct (span_chars sp) as [|rc rcs] eqn:Hc.
  - destruct (span_text sp) eqn:Ht; [exact Ha|].
    unfold dict_chars. destruct (span_bbox sp) as [[[sx0 sy0] sx1] sy1].
    rewrite Ht. apply fold_indexed_in_sync; [|exact Ha].
    intros. apply push_in_sync. assumption.
  - apply foldl_in_sync; [|exact Ha].
    intros a' ch Ha'. unfold raw_char.
    destruct (rc_c ch); [|exact Ha'].
    destruct (default (span_bbox sp) (rc_bbox ch)) as [[[bx0 by0] bx1] by1].
    apply push_in_sync, Ha'.
Qed.

(** X15. The extraction returns one position per character of the text:
    the characters of the positions, in order, spell the text, so both
    have the same length and an offset into the text is an index into
    the positions. *)
Theorem X15_positions_spell_text (doc : Doc) :
  let '(text, chars) := _extract_text_with_positions doc in
  List.map char chars = text /\ length chars = length text.
Proof.
  unfold _extract_text_with_positions.
  set (a := DocxSegments.fold_indexed page_step 0 doc _).
  assert (Ha : in_sync a).
  { subst a. apply fold_indexed_in_sync; [|reflexivity].
    intros pg blocks a Ha. unfold page_step. apply push_in_sync.
    apply foldl_in_sync; [|exact Ha].
    intros a' b Ha'. unfold block_step.
    destruct (negb (block_type b =? 0)); [exact Ha'|].
    apply foldl_in_sync; [|exact Ha'].
    intros a'' line Ha''. unfold line_step. apply push_in_sync.
    apply foldl_in_sync; [|exact Ha''].
    intros. apply span_step_in_sync. assumption. }
  unfold in_sync in Ha. rewrite Ha. split; [reflexivity|].
  rewrite length_map. reflexivity.
Qed.

End PdfExtractFacts.

(** ** Rectangles cover the characters of a span *)

Section CoverFacts.
Import PdfPipeline.

(** A rectangle contains the box of a character. *)
Definition covers (r : Rect) (ci : CharInfo) : Prop :=
  let '(rx0, ry0, rx1, ry1) := r in
  (rx0 <= x0 ci /\ ry0 <= y0 ci /\ x1 ci <= rx1 /\ y1 ci <= ry1)%Q.

Definition rects_on (m : gmap nat (list Rect)) (pg : nat) : list Rect :=
  default [] (m !! pg).

(** The character is inside a rectangle already recorded for its page, or
    inside the rectangle being grown on its page. *)
Definition scanned (s : Scan) (ci : CharInfo) : Prop :=
  (exists r, r ∈ rects_on (page_rects s) (page_idx ci) /\ covers r ci) \/
  (current_page s = Some (page_idx ci) /\ exists r, current_rect s = Some r /\ covers r ci).

Lemma pymin_le_l a b : (pymin a b <= a)%Q.
Proof.
  unfold pymin. destruct (Qltb b a) eqn:Hlt; [|apply Qle_refl].
  apply Qltb_true in Hlt. apply Qlt_le_weak, Hlt.
Qed.

Lemma pymin_le_r a b : (pymin a b <= b)%Q.
Proof.
  unfold pymin. destruct (Qltb b a) eqn:Hlt; [apply Qle_refl|].
  apply Qltb_false in Hlt. apply Qnot_lt_le, Hlt.
Qed.

Lemma pymax_ge_l a b : (a <= pymax a b)%Q.
Proof.
  unfold pymax. destruct (Qltb a b) eqn:Hlt; [|apply Qle_refl].
  apply Qltb_true in Hlt. apply Qlt_le_weak, Hlt.
Qed.

Lemma pymax_ge_r a b : (b <= pymax a b)%Q.
Proof.
  unfold pymax. destruct (Qltb a b) eqn:Hlt; [apply Qle_refl|].
  apply Qltb_false in Hlt. apply Qnot_lt_le, Hlt.
Qed.

Lemma append_rect_keeps m pg r pg' r' :
  r ∈ rects_on m pg -> r ∈ rects_on (append_rect m pg' r') pg.
Proof.
  unfold rects_on, append_rect. intros Hr.
  destruct (decide (pg' = pg)) as [->|Hne].
  - rewrite lookup_insert_eq. simpl. apply elem_of_app. left. exact Hr.
  - rewrite lookup_insert_ne by exact Hne. exact Hr.
Qed.

Lemma append_rect_adds m pg r : r ∈ rects_on (append_rect m pg r) pg.
Proof.
  unfold rects_on, append_rect. rewrite lookup_insert_eq. simpl.
  apply elem_of_app. right. left.
Qed.

Lemma flush_scanned s ci :
  scanned s ci -> exists r, r ∈ rects_on (flush s) (page_idx ci) /\ covers r ci.
Proof.
  unfold flush. intros [(r & Hr & Hc)|(Hpg & r & Hr & Hc)].
  - exists r. split; [|exact Hc].
    destruct (current_rect s), (current_page s); try exact Hr.
    apply append_rect_keeps, Hr.
  - rewrite Hr, Hpg. exists r. split; [apply append_rect_adds | exact Hc].
Qed.

Lemma scan_step_keeps chars s i ci : scanned s ci -> scanned (scan_step chars s i) ci.
Proof.
  intros Hs. unfold scan_step.
  destruct (Py.index chars i) as [cj|]; [|exact Hs].
  destruct (is_dummy cj); [exact Hs|].
  destruct (same_line s cj) eqn:Hsame.
  - destruct (current_rect s) as [[[[rx0 ry0] rx1] ry1]|] eqn:Hr; [|exact Hs].
    destruct Hs as [Hs|(Hpg & r & Hr' & Hc)]; [left; exact Hs|].
    right. cbn [current_page current_rect]. split; [exact Hpg|].
    rewrite Hr in Hr'. injection Hr' as <-. eexists. split; [reflexivity|].
    unfold covers in *. destruct Hc as (H1 & H2 & H3 & H4).
    repeat split.
    + eapply Qle_trans; [apply pymin_le_l | exact H1].
    + eapply Qle_trans; [apply pymin_le_l | exact H2].
    + eapply Qle_trans; [exact H3 | apply pymax_ge_l].
    + eapply Qle_trans; [exact H4 | apply pymax_ge_l].
  - left. cbn [page_rects].
    destruct (flush_scanned s ci Hs) as (r & Hr & Hc). eauto.
Qed.

Lemma scan_step_covers chars s i ci :
  Py.index chars i = Some ci -> is_dummy ci = false -> scanned (scan_step chars s i) ci.
Proof.
  intros Hi Hd. unfold scan_step. rewrite Hi, Hd.
  destruct (same_line s ci) eqn:Hsame.
  - unfold same_line in Hsame.
    destruct (current_rect s) as [[[[rx0 ry0] rx1] ry1]|] eqn:Hr; [|discriminate].
    destruct (current_page s) as [pg|] eqn:Hpg; [|discriminate].
    destruct (current_y0 s); [|discriminate].
    apply andb_true_iff in Hsame as [Hpage _]. apply Nat.eqb_eq in Hpage.
    right. cbn [current_page current_rect]. split; [congruence|].
    eexists. split; [reflexivity|].
    unfold covers. repeat split;
      [apply pymin_le_r | apply pymin_le_r | apply pymax_ge_r | apply pymax_ge_r].
  - right. cbn [current_page current_rect]. split; [reflexivity|].
    eexists. split; [reflexivity|].
    unfold covers. repeat split; apply Qle_refl.
Qed.

Lemma scan_covers chars idxs : forall s i ci,
  i ∈ idxs -> Py.index chars i = Some ci -> is_dummy ci = false ->
  scanned (foldl (scan_step chars) s idxs) ci.
Proof.
  induction idxs as [|j idxs IH]; intros s i ci Hin Hi Hd; [inversion Hin|].
  simpl. apply elem_of_cons in Hin as [->|Hin].
  - clear IH. generalize (scan_step_covers chars s j ci Hi Hd).
    generalize (scan_step chars s j). clear s.
    induction idxs as [|k idxs IH]; intros s Hs; simpl; [exact Hs|].
    apply IH, scan_step_keeps, Hs.
  - apply (IH _ i); assumption.
Qed.

Lemma range_elem start end_ i : start <= i < end_ -> i ∈ range start end_.
Proof.
  intros Hi. unfold range. apply list_elem_of_fmap.
  exists (Z.to_nat (i - start)). split; [lia|].
  apply list_elem_of_In, in_seq. lia.
Qed.

(** X16. Every real character of a hit span is covered: for each offset
    of the span whose position is not a placeholder, the result holds,
    on that character's page, a rectangle that contains the character's
    box. *)
Theorem X16_quads_cover_real_characters (chars : list CharInfo) (start end_ i : Z)
    (ci : CharInfo) :
  0 <= start -> end_ <= Py.len chars -> start <= i < end_ ->
  Py.index chars i = Some ci -> is_dummy ci = false ->
  exists r,
    r ∈ rects_on (_get_quads_for_span chars start end_) (page_idx ci) /\ covers r ci.
Proof.
  intros Hs He Hi Hci Hd.
  unfold _get_quads_for_span.
  destruct (Z.ltb_spec start 0); [lia|].
  destruct (Z.ltb_spec (Py.len chars) end_); [lia|].
  destruct (Z.leb_spec end_ start); [lia|].
  cbn [orb].
  apply flush_scanned, (scan_covers chars _ scan0 i); [apply range_elem| |]; assumption.
Qed.

(** X17. A span made of placeholders only (line and page breaks) yields
    no rectangle, and neither does a range that is empty, reversed or
    outside the positions. *)
Theorem X17_no_rectangle_without_real_character (chars : list CharInfo) (start end_ : Z) :
  ((forall i ci, start <= i < end_ -> Py.index chars i = Some ci -> is_dummy ci = true) ->
   _get_quads_for_span chars start end_ = ∅) /\
  (start < 0 \/ Py.len chars < end_ \/ end_ <= start ->
   _get_quads_for_span chars start end_ = ∅).
Proof.
  unfold _get_quads_for_span. split.
  - intros Hall.
    destruct ((start <? 0) || (Py.len chars <? end_) || (end_ <=? start)); [reflexivity|].
    assert (Hfold : forall idxs,
              (forall i, i ∈ idxs -> start <= i < end_) ->
              foldl (scan_step chars) scan0 idxs = scan0).
    { induction idxs as [|j idxs IH]; intros Hidx; [reflexivity|].
      simpl. unfold scan_step at 2.
      destruct (Py.index chars j) as [cj|] eqn:Hj.
      - rewrite (Hall j cj (Hidx j ltac:(left)) Hj). apply IH.
        intros i Hi. apply Hidx. right. exact Hi.
      - apply IH. intros i Hi. apply Hidx. right. exact Hi. }
    rewrite Hfold; [reflexivity|].
    intros i Hi. unfold range in Hi.
    apply list_elem_of_fmap in Hi as (k & -> & Hk).
    apply list_elem_of_In, in_seq in Hk. lia.
  - intros Hbad.
    destruct (Z.ltb_spec start 0); [reflexivity|].
    destruct (Z.ltb_spec (Py.len chars) end_); [reflexivity|].
    destruct (Z.leb_spec end_ start); [reflexivity|]. lia.
Qed.

End CoverFacts.

(** The second of three characters, on its own line at y=200. *)
Lemma X16_quads_cover_real_characters_witness :
  let ch := fun (x y : Q) (c : Py.char) =>
              {| PdfPipeline.page_idx := 0; PdfPipeline.x0 := x; PdfPipeline.y0 := y;
                 PdfPipeline.x1 := (x + 5)%Q; PdfPipeline.y1 := (y + 10)%Q;
                 PdfPipeline.char := c |} in
  let chars := [ch 10%Q 100%Q 65%N; ch 10%Q 200%Q 66%N; ch 15%Q 200%Q 67%N] in
  Py.index chars 1 = Some (ch 10%Q 200%Q 66%N) /\
  exists r,
    r ∈ rects_on (PdfPipeline._get_quads_for_span chars 0 3) 0%nat /\
    covers r (ch 10%Q 200%Q 66%N).
Proof.
  intros ch chars.
  assert (Hi : Py.index chars 1 = Some (ch 10%Q 200%Q 66%N)) by reflexivity.
  split; [exact Hi|].
  apply (X16_quads_cover_real_characters chars 0 3 1 (ch 10%Q 200%Q 66%N));
    [lia | vm_compute; discriminate | lia | exact Hi | reflexivity].
Defined.

(** * Rewriting text and runs *)

(** ** Backward replacement on plain text *)

Section BackwardFacts.
Import DocxRewrite.

(** The text read forward: the untouched slice before each replacement,
    the replacement, and the tail. *)
Fixpoint splice (text : Py.str) (last : Z) (rs : list Replacement) : Py.str :=
  match rs with
  | [] => Py.slice_from text last
  | r :: rs' =>
      Py.slice text last (rp_start r) ++ rp_replacement r ++ splice text (rp_end r) rs'
  end.

(** Non-empty spans in ascending order, none starting before [from] or
    before the end of the one before it, all within [n] characters. *)
Fixpoint in_order (n from : Z) (rs : list Replacement) : Prop :=
  match rs with
  | [] => True
  | r :: rs' => from <= rp_start r < rp_end r /\ rp_end r <= n /\ in_order n (rp_end r) rs'
  end.

Lemma in_order_lower n from rs :
  in_order n from rs -> Forall (fun r => from <= rp_start r) rs.
Proof.
  revert from. induction rs as [|r rs IH]; intros from Ho; [constructor|].
  simpl in Ho. destruct Ho as (Hr & _ & Ho).
  constructor; [lia|].
  eapply Forall_impl; [apply (IH _ Ho)|]. simpl. intros; lia.
Qed.

Lemma insert_by_last {X} (cmp : X -> X -> comparison) x l :
  Forall (fun y => MaskingEngine.is_gt (cmp x y) = true) l ->
  MaskingEngine.insert_by cmp x l = l ++ [x].
Proof.
  induction 1 as [|y l Hy Hl IH]; simpl; [reflexivity|].
  rewrite Hy, IH. reflexivity.
Qed.

Lemma sorted_descending n from rs :
  in_order n from rs ->
  MaskingEngine.sorted_by (fun a b => rp_start b ?= rp_start a) rs = rev rs.
Proof.
  revert from. induction rs as [|r rs IH]; intros from Ho; [reflexivity|].
  simpl in Ho. destruct Ho as (Hr & _ & Ho).
  simpl. rewrite (IH _ Ho). apply insert_by_last.
  apply Forall_rev.
  eapply Forall_impl; [apply (in_order_lower _ _ _ Ho)|].
  simpl. intros y Hy.
  destruct (Z.compare_spec (rp_start y) (rp_start r)); simpl; try reflexivity; lia.
Qed.

Lemma slice_to_take {X} (t : list X) i :
  0 <= i <= Py.len t -> Py.slice_to t i = take (Z.to_nat i) t.
Proof. intros Hi. unfold Py.slice_to. rewrite clamp_inside by lia. reflexivity. Qed.

Lemma slice_from_drop {X} (t : list X) i :
  0 <= i <= Py.len t -> Py.slice_from t i = drop (Z.to_nat i) t.
Proof. intros Hi. unfold Py.slice_from. rewrite clamp_inside by lia. reflexivity. Qed.

Lemma slice_take_drop {X} (t : list X) i j :
  0 <= i <= j -> j <= Py.len t ->
  Py.slice t i j = take (Z.to_nat (j - i)) (drop (Z.to_nat i) t).
Proof. intros Hi Hj. unfold Py.slice. rewrite !clamp_inside by lia. reflexivity. Qed.

Lemma backward_forward text rs : forall from,
  0 <= from -> in_order (Py.len text) from rs ->
  foldl (fun out r => Py.slice_to out (rp_start r) ++ rp_replacement r
                      ++ Py.slice_from out (rp_end r)) text (rev rs)
  = Py.slice_to text from ++ splice text from rs.
Proof.
  induction rs as [|r rs IH]; intros from Hfrom Ho.
  - simpl.
    destruct (Z.le_gt_cases from (Py.len text)) as [Hle|Hgt].
    + rewrite slice_to_take, slice_from_drop by lia. symmetry. apply take_drop.
    + unfold Py.slice_to, Py.slice_from. pose proof (len_nonneg text).
      rewrite clamp_beyond by lia.
      unfold Py.len. rewrite Nat2Z.id, firstn_all, drop_all, app_nil_r. reflexivity.
  - simpl in Ho. destruct Ho as (Hr & He & Ho).
    simpl. rewrite foldl_snoc.
    rewrite (IH (rp_end r)) by (lia || exact Ho).
    set (tail := splice text (rp_end r) rs).
    pose proof (len_nonneg tail) as Htail.
    assert (Hlen : Py.len (Py.slice_to text (rp_end r)) = rp_end r).
    { rewrite slice_to_take by lia. unfold Py.len. rewrite length_take.
      unfold Py.len in He. lia. }
    assert (Hto : Py.slice_to (Py.slice_to text (rp_end r) ++ tail) (rp_start r)
                  = take (Z.to_nat (rp_start r)) text).
    { rewrite slice_to_take by (rewrite len_app; lia).
      rewrite take_app_le by (unfold Py.len in Hlen; lia).
      rewrite slice_to_take by lia. rewrite take_take.
      f_equal. lia. }
    assert (Hfrom' : Py.slice_from (Py.slice_to text (rp_end r) ++ tail) (rp_end r) = tail).
    { rewrite slice_from_drop by (rewrite len_app; lia).
      replace (Z.to_nat (rp_end r)) with (length (Py.slice_to text (rp_end r)))
        by (unfold Py.len in Hlen; lia).
      apply drop_app_length. }
    rewrite Hto, Hfrom'.
    rewrite slice_to_take, slice_take_drop by lia.
    rewrite (app_assoc (take (Z.to_nat from) text)), take_take_drop.
    replace (Z.to_nat from + Z.to_nat (rp_start r - from))%nat
      with (Z.to_nat (rp_start r)) by lia.
    reflexivity.
Qed.

(** X19. For non-empty replacement spans given in ascending order, none
    overlapping the next and all within the text, applying them from the
    highest offset down gives the text read forward: each untouched slice
    between the spans, followed by the replacement of the next span, and
    the tail.  The offsets of the earlier spans stay valid although the
    later replacements change the length. *)
Theorem X19_backward_replacement_reads_forward (text : Py.str) (rs : list Replacement) :
  in_order (Py.len text) 0 rs ->
  _apply_backward text rs = splice text 0 rs.
Proof.
  intros Ho. unfold _apply_backward.
  rewrite (sorted_descending _ _ _ Ho).
  rewrite (backward_forward text rs 0) by (lia || exact Ho).
  unfold Py.slice_to. rewrite clamp_inside by (pose proof (len_nonneg text); lia).
  reflexivity.
Qed.

End BackwardFacts.

(** Two replacements in "Hello World": the name and the last letter. *)
Lemma X19_backward_replacement_reads_forward_witness :
  let rs := [ {| DocxRewrite.rp_start := 0; DocxRewrite.rp_end := 5;
                 DocxRewrite.rp_replacement := Py.lit "[PERSON_01]" |};
              {| DocxRewrite.rp_start := 10; DocxRewrite.rp_end := 11;
                 DocxRewrite.rp_replacement := Py.lit "XY" |} ] in
  in_order (Py.len (Py.lit "Hello World")) 0 rs /\
  DocxRewrite._apply_backward (Py.lit "Hello World") rs = Py.lit "[PERSON_01] WorlXY".
Proof.
  intros rs.
  assert (Ho : in_order (Py.len (Py.lit "Hello World")) 0 rs).
  { simpl. repeat split; try lia; vm_compute; discriminate. }
  split; [exact Ho|].
  rewrite (X19_backward_replacement_reads_forward _ rs Ho). vm_compute. reflexivity.
Defined.

(** ** Runs of a paragraph *)

Section RunFacts.
Context {Format : Type}.
Import DocxRewrite.
Implicit Types p q before after : Paragraph Format.
Implicit Types x : Run Format.

Definition ids p : list nat := List.map rid p.

(** A run with another text. *)
Definition retext x (t : Py.str) : Run Format :=
  {| rid := rid x; text := t; fmt := fmt x |}.

Lemma get_text_at before x after :
  rid x ∉ ids before -> get_text (before ++ x :: after) (rid x) = text x.
Proof.
  unfold get_text. induction before as [|y before IH]; intros Hx; simpl.
  - rewrite Nat.eqb_refl. reflexivity.
  - unfold ids in Hx. simpl in Hx. apply not_elem_of_cons in Hx as [Hne Hx].
    destruct (Nat.eqb_spec (rid y) (rid x)); [congruence|]. apply IH, Hx.
Qed.

Lemma set_text_other p id t : id ∉ ids p -> set_text p id t = p.
Proof.
  unfold set_text. induction p as [|y p IH]; intros Hid; [reflexivity|].
  unfold ids in Hid. simpl in Hid. apply not_elem_of_cons in Hid as [Hne Hid].
  simpl. destruct (Nat.eqb_spec (rid y) id); [congruence|].
  f_equal. apply IH, Hid.
Qed.

Lemma set_text_at before x after t :
  rid x ∉ ids before -> rid x ∉ ids after ->
  set_text (before ++ x :: after) (rid x) t = before ++ retext x t :: after.
Proof.
  intros H1 H2.
  pose proof (set_text_other before (rid x) t H1) as E1.
  pose proof (set_text_other after (rid x) t H2) as E2.
  unfold set_text in *. rewrite List.map_app, E1. simpl.
  rewrite Nat.eqb_refl, E2. reflexivity.
Qed.

Lemma add_copy_at before x after n :
  rid x ∉ ids before ->
  add_copy_after (before ++ x :: after) (rid x) n
  = before ++ x :: {| rid := n; text := text x; fmt := fmt x |} :: after.
Proof.
  induction before as [|y before IH]; intros Hx; simpl.
  - rewrite Nat.eqb_refl. reflexivity.
  - unfold ids in Hx. simpl in Hx. apply not_elem_of_cons in Hx as [Hne Hx].
    destruct (Nat.eqb_spec (rid y) (rid x)); [congruence|].
    f_equal. apply IH, Hx.
Qed.

Lemma fresh_id_above p : Forall (fun i => (i < fresh_id p)%nat) (ids p).
Proof.
  unfold fresh_id, ids. induction p as [|y p IH]; simpl; constructor.
  - lia.
  - eapply Forall_impl; [exact IH|]. simpl. intros; lia.
Qed.

Lemma fresh_id_fresh p : fresh_id p ∉ ids p.
Proof.
  intros Hin. pose proof (fresh_id_above p) as Hf.
  rewrite Forall_forall in Hf. specialize (Hf _ Hin). lia.
Qed.

Lemma nodup_at before x after :
  NoDup (ids (before ++ x :: after)) -> (rid x ∉ ids before) /\ (rid x ∉ ids after).
Proof.
  unfold ids. rewrite List.map_app. simpl. intros Hnd.
  apply NoDup_app in Hnd as (_ & Hcross & Hnd).
  apply NoDup_cons in Hnd as [Hx _]. split; [|exact Hx].
  intros Hin. apply (Hcross _ Hin). left.
Qed.

Lemma styled_app p q : styled_chars (p ++ q) = styled_chars p ++ styled_chars q.
Proof. unfold styled_chars. apply flat_map_app. Qed.

Lemma styled_cons x q :
  styled_chars (x :: q) = List.map (fun c => (c, fmt x)) (text x) ++ styled_chars q.
Proof. reflexivity. Qed.

Lemma slice_to_from {X} (t : list X) i : Py.slice_to t i ++ Py.slice_from t i = t.
Proof. unfold Py.slice_to, Py.slice_from. apply take_drop. Qed.

Lemma split_run_inside before x after (offset : Z) :
  NoDup (ids (before ++ x :: after)) ->
  0 < offset < Py.len (text x) ->
  _split_run_at (before ++ x :: after) (rid x) offset
  = (before ++ retext x (Py.slice_to (text x) offset)
        :: {| rid := fresh_id (before ++ x :: after);
              text := Py.slice_from (text x) offset; fmt := fmt x |}
        :: after,
     (Some (rid x), Some (fresh_id (before ++ x :: after)))).
Proof.
  intros Hnd Hoff. set (p := before ++ x :: after).
  destruct (nodup_at _ _ _ Hnd) as [H1 H2].
  assert (Htext : get_text p (rid x) = text x) by (apply get_text_at, H1).
  unfold _split_run_at. rewrite Htext.
  destruct (Z.leb_spec offset 0); [lia|].
  destruct (Z.leb_spec (Py.len (text x)) offset); [lia|].
  f_equal. pose proof (fresh_id_fresh p) as Hfresh.
  replace (add_copy_after p (rid x) (fresh_id p))
    with (before ++ x :: {| rid := fresh_id p; text := text x; fmt := fmt x |} :: after)
    by (symmetry; apply add_copy_at, H1).
  assert (Hfx : fresh_id p <> rid x).
  { intros Heq. apply Hfresh. rewrite Heq. unfold p, ids.
    rewrite List.map_app. apply elem_of_app. right. left. }
  assert (Hf1 : fresh_id p ∉ ids before).
  { intros Hin. apply Hfresh. unfold p, ids. rewrite List.map_app.
    apply elem_of_app. left. exact Hin. }
  assert (Hf2 : fresh_id p ∉ ids after).
  { intros Hin. apply Hfresh. unfold p, ids. rewrite List.map_app.
    apply elem_of_app. right. right. exact Hin. }
  rewrite set_text_at; [|exact H1|].
  2:{ unfold ids. simpl. apply not_elem_of_cons. split; [congruence | exact H2]. }
  change (before ++ retext x (Py.slice_to (text x) offset)
             :: {| rid := fresh_id p; text := text x; fmt := fmt x |} :: after)
    with (before ++ [retext x (Py.slice_to (text x) offset)]
             ++ {| rid := fresh_id p; text := text x; fmt := fmt x |} :: after).
  rewrite app_assoc.
  rewrite (set_text_at (before ++ [retext x (Py.slice_to (text x) offset)])
             {| rid := fresh_id p; text := text x; fmt := fmt x |} after).
  - rewrite <- app_assoc. reflexivity.
  - simpl. unfold ids. rewrite List.map_app. intros Hin.
    apply elem_of_app in Hin as [Hin|Hin]; [exact (Hf1 Hin)|].
    simpl in Hin. apply list_elem_of_singleton in Hin. congruence.
  - exact Hf2.
Qed.

Lemma split_run_outside before x after (offset : Z) :
  NoDup (ids (before ++ x :: after)) ->
  offset <= 0 \/ Py.len (text x) <= offset ->
  fst (_split_run_at (before ++ x :: after) (rid x) offset) = before ++ x :: after.
Proof.
  intros Hnd Hoff. destruct (nodup_at _ _ _ Hnd) as [H1 H2].
  unfold _split_run_at. rewrite get_text_at by exact H1.
  destruct (Z.leb_spec offset 0); [reflexivity|].
  destruct (Z.leb_spec (Py.len (text x)) offset); [reflexivity|]. lia.
Qed.

(** X18. Splitting a run strictly inside its text puts the text before
    the offset in the run and the text from the offset on in a new run
    right behind it, with the same formatting; at an offset outside the
    text the paragraph is left alone.  In every case each character of
    the paragraph keeps its formatting. *)
Theorem X18_split_run_keeps_formatting before x after (offset : Z) :
  NoDup (ids (before ++ x :: after)) ->
  let p := before ++ x :: after in
  (0 < offset < Py.len (text x) ->
   _split_run_at p (rid x) offset
   = (before ++ retext x (Py.slice_to (text x) offset)
         :: {| rid := fresh_id p; text := Py.slice_from (text x) offset; fmt := fmt x |}
         :: after,
      (Some (rid x), Some (fresh_id p)))) /\
  (offset <= 0 \/ Py.len (text x) <= offset -> fst (_split_run_at p (rid x) offset) = p) /\
  styled_chars (fst (_split_run_at p (rid x) offset)) = styled_chars p.
Proof.
  intros Hnd p.
  pose proof (split_run_inside before x after offset Hnd) as Hin.
  pose proof (split_run_outside before x after offset Hnd) as Hout.
  split; [exact Hin|]. split; [exact Hout|].
  destruct (Z.le_gt_cases offset 0) as [Hle|Hgt];
    [unfold p; rewrite Hout by lia; reflexivity|].
  destruct (Z.le_gt_cases (Py.len (text x)) offset) as [Hle|Hlt];
    [unfold p; rewrite Hout by lia; reflexivity|].
  unfold p. rewrite Hin by lia. cbn [fst].
  rewrite !styled_app, !styled_cons. cbn [retext text fmt].
  f_equal. rewrite app_assoc, <- List.map_app, slice_to_from. reflexivity.
Qed.

(** *** Run offsets *)

(** Number of characters of a list of runs. *)
Definition tlen q : Z := Py.len (styled_chars q).

Lemma tlen_nil : tlen [] = 0.
Proof. reflexivity. Qed.

Lemma tlen_cons x q : tlen (x :: q) = Py.len (text x) + tlen q.
Proof.
  unfold tlen. rewrite styled_cons. unfold Py.len.
  rewrite List.length_app, List.length_map, Nat2Z.inj_add. reflexivity.
Qed.

Lemma tlen_app p q : tlen (p ++ q) = tlen p + tlen q.
Proof.
  unfold tlen. rewrite styled_app. apply len_app.
Qed.

Lemma tlen_nonneg q : 0 <= tlen q.
Proof. unfold tlen, Py.len. lia. Qed.

Lemma set_text_nodup before x after t :
  NoDup (ids (before ++ x :: after)) ->
  set_text (before ++ x :: after) (rid x) t = before ++ retext x t :: after.
Proof. intros Hnd. destruct (nodup_at _ _ _ Hnd). apply set_text_at; assumption. Qed.

Lemma get_text_nodup before x after :
  NoDup (ids (before ++ x :: after)) ->
  get_text (before ++ x :: after) (rid x) = text x.
Proof. intros Hnd. destruct (nodup_at _ _ _ Hnd). apply get_text_at; assumption. Qed.

Lemma get_text_in p x : NoDup (ids p) -> x ∈ p -> get_text p (rid x) = text x.
Proof.
  intros Hnd Hin. apply list_elem_of_split in Hin as (before & after & ->).
  apply get_text_nodup, Hnd.
Qed.

(** What [build_map] computes for runs whose texts are known. *)
Definition info_of x (pos : Z) : RunInfo :=
  {| ri_run := rid x; ri_start := pos; ri_end := pos + Py.len (text x) |}.

Fixpoint infos q (pos : Z) : list RunInfo :=
  match q with
  | [] => []
  | x :: q' => info_of x pos :: infos q' (pos + Py.len (text x))
  end.

Lemma infos_app q1 q2 pos :
  infos (q1 ++ q2) pos = infos q1 pos ++ infos q2 (pos + tlen q1).
Proof.
  revert pos. induction q1 as [|x q1 IH]; intros pos; simpl.
  - rewrite tlen_nil. f_equal. lia.
  - rewrite IH, tlen_cons. do 3 f_equal. lia.
Qed.

Lemma infos_bounds q pos :
  Forall (fun ri => pos <= ri_start ri /\ ri_start ri <= ri_end ri
                    /\ ri_end ri <= pos + tlen q) (infos q pos).
Proof.
  revert pos. induction q as [|x q IH]; intros pos; simpl; constructor.
  - cbn [info_of ri_start ri_end]. rewrite tlen_cons.
    pose proof (tlen_nonneg q). pose proof (len_nonneg (text x)). lia.
  - eapply Forall_impl; [apply IH|]. simpl. intros ri. rewrite tlen_cons.
    pose proof (len_nonneg (text x)). lia.
Qed.

Lemma build_map_lower p runs pos :
  Forall (fun ri => pos <= ri_start ri /\ ri_start ri <= ri_end ri)
         (build_map_from p runs pos).
Proof.
  revert pos. induction runs as [|r runs IH]; intros pos; simpl; constructor.
  - cbn [ri_start ri_end]. pose proof (len_nonneg (get_text p r)). lia.
  - eapply Forall_impl; [apply IH|]. simpl. intros ri.
    pose proof (len_nonneg (get_text p r)). lia.
Qed.

Lemma build_map_prefix p q rest pos :
  Forall (fun x => get_text p (rid x) = text x) q ->
  build_map_from p (ids q ++ rest) pos
  = infos q pos ++ build_map_from p rest (pos + tlen q).
Proof.
  revert pos. induction q as [|x q IH]; intros pos Hq; simpl.
  - rewrite tlen_nil. f_equal. lia.
  - apply Forall_cons in Hq as [Hx Hq]. rewrite Hx.
    unfold ids in IH. rewrite IH by exact Hq. rewrite tlen_cons.
    unfold info_of. do 3 f_equal. lia.
Qed.

Lemma filter_none {X} (f : X -> bool) (l : list X) :
  Forall (fun y => f y = false) l -> List.filter f l = [].
Proof.
  induction 1 as [|y l Hy _ IH]; simpl; [reflexivity|]. rewrite Hy. exact IH.
Qed.

Lemma filter_all {X} (f : X -> bool) (l : list X) :
  Forall (fun y => f y = true) l -> List.filter f l = l.
Proof.
  induction 1 as [|y l Hy _ IH]; simpl; [reflexivity|]. rewrite Hy, IH. reflexivity.
Qed.

(** The run that carries the character at an offset. *)
Lemma locate q i :
  0 <= i < tlen q ->
  exists before r after,
    q = before ++ r :: after /\ tlen before <= i < tlen before + Py.len (text r).
Proof.
  revert i. induction q as [|x q IH]; intros i Hi.
  - rewrite tlen_nil in Hi. lia.
  - rewrite tlen_cons in Hi.
    destruct (Z.lt_ge_cases i (Py.len (text x))) as [Hlt|Hge].
    + exists [], x, q. rewrite tlen_nil. split; [reflexivity | lia].
    + destruct (IH (i - Py.len (text x))) as (before & r & after & -> & Hr); [lia|].
      exists (x :: before), r, after. rewrite tlen_cons. split; [reflexivity | lia].
Qed.

Lemma take_app_Z {X} (a b : list X) i :
  Py.len a <= i ->
  take (Z.to_nat i) (a ++ b) = a ++ take (Z.to_nat (i - Py.len a)) b.
Proof.
  intros Hi. unfold Py.len in *. rewrite take_app.
  rewrite take_ge by lia. f_equal. f_equal. lia.
Qed.

Lemma drop_app_Z {X} (a b : list X) i :
  Py.len a <= i ->
  drop (Z.to_nat i) (a ++ b) = drop (Z.to_nat (i - Py.len a)) b.
Proof.
  intros Hi. unfold Py.len in *. rewrite drop_app.
  rewrite drop_ge by lia. simpl. f_equal. lia.
Qed.

Lemma lookup_run before r after i :
  tlen before <= i < tlen before + Py.len (text r) ->
  exists c, styled_chars (before ++ r :: after) !! Z.to_nat i = Some (c, fmt r).
Proof.
  intros Hi. rewrite styled_app, styled_cons.
  pose proof (tlen_nonneg before) as Hb. unfold tlen, Py.len in *.
  rewrite lookup_app_r by lia. rewrite lookup_app_l by (rewrite List.length_map; lia).
  destruct (lookup_lt_is_Some_2 (text r) (Z.to_nat i - length (styled_chars before)))
    as [c Hc]; [lia|].
  exists c. change (List.map ?f ?l) with (f <$> l).
  rewrite list_lookup_fmap, Hc. reflexivity.
Qed.

(** *** One replacement *)

Local Abbreviation affected_by repl :=
  (fun ri : RunInfo => (ri_start ri <? rp_end repl) && (rp_start repl <? ri_end ri)).

Lemma affected_single p before r rest_runs repl :
  Forall (fun x => get_text p (rid x) = text x) (before ++ [r]) ->
  tlen before <= rp_start repl < tlen before + Py.len (text r) ->
  rp_start repl < rp_end repl <= tlen before + Py.len (text r) ->
  List.filter (affected_by repl) (build_map p (ids (before ++ [r]) ++ rest_runs))
  = [info_of r (tlen before)].
Proof.
  intros Hq Hs He. unfold build_map. rewrite build_map_prefix by exact Hq.
  rewrite infos_app. cbn [infos]. rewrite !List.filter_app.
  rewrite (filter_none _ (infos before 0)).
  2:{ eapply Forall_impl; [apply infos_bounds|]. cbn beta. intros ri Hri.
      apply andb_false_iff. right. apply Z.ltb_ge. lia. }
  rewrite (filter_none _ (build_map_from _ _ _)).
  2:{ eapply Forall_impl; [apply build_map_lower|]. cbn beta. intros ri Hri.
      rewrite tlen_app, tlen_cons, tlen_nil in Hri.
      apply andb_false_iff. left. apply Z.ltb_ge. lia. }
  cbn [List.filter app info_of ri_start ri_end].
  replace (0 + tlen before <? rp_end repl) with true by (symmetry; apply Z.ltb_lt; lia).
  replace (rp_start repl <? 0 + tlen before + Py.len (text r)) with true
    by (symmetry; apply Z.ltb_lt; lia).
  cbn [andb app]. do 2 f_equal; lia.
Qed.

Lemma affected_multi p before r mid l rest_runs repl :
  Forall (fun x => get_text p (rid x) = text x) (before ++ r :: mid ++ [l]) ->
  tlen before <= rp_start repl < tlen before + Py.len (text r) ->
  tlen before + Py.len (text r) + tlen mid < rp_end repl
    <= tlen before + Py.len (text r) + tlen mid + Py.len (text l) ->
  List.filter (affected_by repl)
              (build_map p (ids (before ++ r :: mid ++ [l]) ++ rest_runs))
  = info_of r (tlen before)
      :: infos mid (tlen before + Py.len (text r))
      ++ [info_of l (tlen before + Py.len (text r) + tlen mid)].
Proof.
  intros Hq Hs He. unfold build_map. rewrite build_map_prefix by exact Hq.
  rewrite infos_app. cbn [infos]. rewrite infos_app. cbn [infos].
  pose proof (tlen_nonneg mid) as Hmid. pose proof (len_nonneg (text l)) as Hl.
  rewrite !List.filter_app.
  rewrite (filter_none _ (infos before 0)).
  2:{ eapply Forall_impl; [apply infos_bounds|]. cbn beta. intros ri Hri.
      apply andb_false_iff. right. apply Z.ltb_ge. lia. }
  cbn [app List.filter info_of ri_start ri_end].
  replace (0 + tlen before <? rp_end repl) with true by (symmetry; apply Z.ltb_lt; lia).
  replace (rp_start repl <? 0 + tlen before + Py.len (text r)) with true
    by (symmetry; apply Z.ltb_lt; lia).
  cbn [andb]. rewrite !List.filter_app.
  rewrite (filter_all _ (infos mid _)).
  2:{ eapply Forall_impl; [apply infos_bounds|]. cbn beta. intros ri Hri.
      apply andb_true_iff. split; apply Z.ltb_lt; lia. }
  rewrite (filter_none _ (build_map_from _ _ _)).
  2:{ eapply Forall_impl; [apply build_map_lower|]. cbn beta. intros ri Hri.
      rewrite tlen_app, tlen_cons, tlen_app, tlen_cons, tlen_nil in Hri.
      apply andb_false_iff. left. apply Z.ltb_ge. lia. }
  cbn [List.filter info_of ri_start ri_end].
  replace (0 + tlen before + Py.len (text r) + tlen mid <? rp_end repl) with true
    by (symmetry; apply Z.ltb_lt; lia).
  replace (rp_start repl <? 0 + tlen before + Py.len (text r) + tlen mid + Py.len (text l))
    with true by (symmetry; apply Z.ltb_lt; lia).
  cbn [andb]. rewrite app_nil_r.
  replace (0 + tlen before) with (tlen before) by lia. reflexivity.
Qed.

Lemma known_texts q after :
  NoDup (ids (q ++ after)) ->
  Forall (fun x => get_text (q ++ after) (rid x) = text x) q.
Proof.
  intros Hnd. rewrite Forall_forall. intros x Hx.
  apply get_text_in; [exact Hnd|]. apply elem_of_app. left. exact Hx.
Qed.

(** A replacement within one run is an edit of the text of this run. *)
Lemma apply_one_single before r after rest_runs repl :
  NoDup (ids (before ++ r :: after)) ->
  tlen before <= rp_start repl < tlen before + Py.len (text r) ->
  rp_start repl < rp_end repl <= tlen before + Py.len (text r) ->
  apply_one (ids (before ++ [r]) ++ rest_runs) (before ++ r :: after) repl
  = before ++ retext r (take (Z.to_nat (rp_start repl - tlen before)) (text r)
                        ++ rp_replacement repl
                        ++ drop (Z.to_nat (rp_end repl - tlen before)) (text r))
           :: after.
Proof.
  intros Hnd Hs He.
  assert (Hq : Forall (fun x => get_text (before ++ r :: after) (rid x) = text x)
                      (before ++ [r])).
  { replace (before ++ r :: after) with ((before ++ [r]) ++ after)
      by (rewrite <- app_assoc; reflexivity).
    apply known_texts. rewrite <- app_assoc. exact Hnd. }
  unfold apply_one. cbv zeta.
  rewrite (affected_single _ before r rest_runs repl Hq Hs He).
  cbn [info_of ri_run ri_start].
  rewrite (get_text_nodup _ _ _ Hnd).
  rewrite slice_to_take, slice_from_drop by lia.
  apply set_text_nodup, Hnd.
Qed.

Definition cleared q : Paragraph Format := List.map (fun x => retext x []) q.

Lemma ids_cleared q : ids (cleared q) = ids q.
Proof. unfold ids, cleared. rewrite List.map_map. reflexivity. Qed.

Lemma styled_cleared q : styled_chars (cleared q) = [].
Proof.
  induction q as [|x q IH]; [reflexivity|].
  change (cleared (x :: q)) with (retext x [] :: cleared q).
  rewrite styled_cons. exact IH.
Qed.

Lemma clear_middle mid : forall before after pos,
  NoDup (ids (before ++ mid ++ after)) ->
  foldl (fun q ri => set_text q (ri_run ri) []) (before ++ mid ++ after) (infos mid pos)
  = before ++ cleared mid ++ after.
Proof.
  induction mid as [|m mid IH]; intros before after pos Hnd; [reflexivity|].
  cbn [infos foldl info_of ri_run app cleared List.map].
  rewrite (set_text_nodup before m (mid ++ after) [] Hnd).
  replace (before ++ retext m [] :: mid ++ after)
    with ((before ++ [retext m []]) ++ mid ++ after)
    by (rewrite <- app_assoc; reflexivity).
  rewrite IH.
  - rewrite <- app_assoc. reflexivity.
  - replace (ids ((before ++ [retext m []]) ++ mid ++ after))
      with (ids (before ++ (m :: mid) ++ after)); [exact Hnd|].
    unfold ids. rewrite !List.map_app. cbn [List.map app retext rid].
    rewrite <- app_assoc. reflexivity.
Qed.

Lemma ids_retext before x after t :
  ids (before ++ retext x t :: after) = ids (before ++ x :: after).
Proof. unfold ids. rewrite !List.map_app. reflexivity. Qed.

Lemma ids_app p q : ids (p ++ q) = ids p ++ ids q.
Proof. apply List.map_app. Qed.

Lemma ids_cons x q : ids (x :: q) = rid x :: ids q.
Proof. reflexivity. Qed.

Ltac ids_norm :=
  repeat progress (rewrite ?ids_app, ?ids_cons, ?ids_cleared, <- ?app_assoc;
                   cbn [retext rid app]).

(** The last affected run: emptied, with what follows the span moved to
    a new run of the same formatting behind it. *)
Lemma clear_last before l after (k : Z) :
  NoDup (ids (before ++ l :: after)) ->
  0 < k <= Py.len (text l) ->
  let p := before ++ l :: after in
  let last_text := get_text p (rid l) in
  exists extra,
    (if (k <? Py.len last_text) && negb (bool_decide (Py.slice_from last_text k = []))
     then set_text (fst (_split_run_at p (rid l) k)) (rid l) []
     else set_text p (rid l) [])
    = before ++ retext l [] :: extra ++ after
    /\ styled_chars extra = List.map (fun c => (c, fmt l)) (drop (Z.to_nat k) (text l))
    /\ NoDup (ids (before ++ l :: extra ++ after)).
Proof.
  intros Hnd Hk p last_text.
  assert (Ht : last_text = text l) by (apply get_text_nodup, Hnd).
  rewrite Ht. rewrite slice_from_drop by lia.
  destruct (Z.ltb_spec k (Py.len (text l))) as [Hlt|Hge].
  - assert (Hne : drop (Z.to_nat k) (text l) <> []).
    { intros Hnil. apply (f_equal length) in Hnil. rewrite length_drop in Hnil.
      unfold Py.len in Hlt. simpl in Hnil. lia. }
    rewrite bool_decide_eq_false_2 by exact Hne. cbn [negb andb].
    unfold p. rewrite split_run_inside by (exact Hnd || lia). cbn [fst].
    set (extra := {| rid := fresh_id (before ++ l :: after);
                     text := Py.slice_from (text l) k; fmt := fmt l |}).
    assert (Hnd' : NoDup (ids (before ++ l :: [extra] ++ after))).
    { pose proof (fresh_id_fresh (before ++ l :: after)) as Hfresh.
      revert Hnd Hfresh. unfold ids. rewrite !List.map_app. cbn [List.map app rid extra].
      generalize (fresh_id (before ++ l :: after)). intros n.
      rewrite !NoDup_app, !NoDup_cons, !elem_of_app, !elem_of_cons.
      intros (Hb & Hcross & Hl & Ha) Hn. split; [exact Hb|]. split.
      - intros i Hi. specialize (Hcross i Hi). rewrite !elem_of_cons.
        rewrite elem_of_cons in Hcross. intros [->|[->|Hia]].
        + apply Hcross. left. reflexivity.
        + apply Hn. left. exact Hi.
        + apply Hcross. right. exact Hia.
      - split; [|split; [|exact Ha]].
        + intros [Heq|Hia]; [|exact (Hl Hia)].
          apply Hn. right. left. symmetry. exact Heq.
        + intros Hna. apply Hn. right. right. exact Hna. }
    exists [extra]. split; [|split; [|exact Hnd']].
    + apply (set_text_nodup before (retext l (Py.slice_to (text l) k)) (extra :: after) []).
      rewrite ids_retext. exact Hnd'.
    + rewrite styled_cons. cbn [extra text fmt styled_chars flat_map].
      rewrite app_nil_r, slice_from_drop by lia. reflexivity.
  - cbn [andb]. exists []. split; [|split; [|exact Hnd]].
    + apply set_text_nodup, Hnd.
    + rewrite drop_ge by (unfold Py.len in *; lia). reflexivity.
Qed.

(** A replacement across several runs: the first run keeps its text
    before the span and takes the replacement, the runs between are
    emptied, and the last run is emptied with its rest moved behind it. *)
Lemma apply_one_multi before r mid l after rest_runs repl :
  NoDup (ids (before ++ r :: mid ++ l :: after)) ->
  tlen before <= rp_start repl < tlen before + Py.len (text r) ->
  tlen before + Py.len (text r) + tlen mid < rp_end repl
    <= tlen before + Py.len (text r) + tlen mid + Py.len (text l) ->
  exists extra,
    apply_one (ids (before ++ r :: mid ++ [l]) ++ rest_runs)
              (before ++ r :: mid ++ l :: after) repl
    = before ++ retext r (take (Z.to_nat (rp_start repl - tlen before)) (text r)
                          ++ rp_replacement repl)
        :: cleared mid ++ retext l [] :: extra ++ after
    /\ styled_chars extra
       = List.map (fun c => (c, fmt l))
           (drop (Z.to_nat (rp_end repl - (tlen before + Py.len (text r) + tlen mid)))
                 (text l))
    /\ NoDup (ids (before ++ r :: mid ++ l :: extra ++ after)).
Proof.
  intros Hnd Hs He.
  set (sl := tlen before + Py.len (text r) + tlen mid) in *.
  assert (Hp : before ++ r :: mid ++ l :: after = (before ++ r :: mid) ++ l :: after)
    by (rewrite <- app_assoc; reflexivity).
  assert (Hq : Forall (fun x => get_text (before ++ r :: mid ++ l :: after) (rid x) = text x)
                      (before ++ r :: mid ++ [l])).
  { replace (before ++ r :: mid ++ l :: after) with ((before ++ r :: mid ++ [l]) ++ after).
    - apply known_texts. rewrite <- !app_assoc. cbn [app].
      rewrite <- app_assoc. exact Hnd.
    - rewrite <- !app_assoc. cbn [app]. rewrite <- app_assoc. reflexivity. }
  destruct (clear_last (before ++ r :: mid) l after (rp_end repl - sl))
    as (extra & Hlast & Hextra & Hnd'); [rewrite <- Hp; exact Hnd | lia |].
  cbv zeta in Hlast. rewrite <- Hp in Hlast.
  exists extra. split; [|split; [exact Hextra|]].
  2:{ rewrite <- app_assoc in Hnd'. exact Hnd'. }
  unfold apply_one. cbv zeta.
  rewrite (affected_multi _ before r mid l rest_runs repl Hq Hs He).
  fold sl.
  destruct (infos mid (tlen before + Py.len (text r)) ++ [info_of l sl]) as [|i0 rest'] eqn:E.
  { destruct (infos mid (tlen before + Py.len (text r))); discriminate E. }
  cbv beta iota. rewrite <- E. rewrite last_last, removelast_last.
  cbn [info_of ri_run ri_start].
  rewrite Hlast. rewrite <- app_assoc. cbn [app].
  assert (Hnd1 : NoDup (ids (before ++ r :: mid ++ retext l [] :: extra ++ after))).
  { revert Hnd'. ids_norm. exact id. }
  rewrite (get_text_nodup before r _ Hnd1).
  rewrite slice_to_take by lia.
  rewrite (set_text_nodup before r _ _ Hnd1).
  set (r' := retext r (take (Z.to_nat (rp_start repl - tlen before)) (text r)
                       ++ rp_replacement repl)).
  replace (before ++ r' :: mid ++ retext l [] :: extra ++ after)
    with ((before ++ [r']) ++ mid ++ retext l [] :: extra ++ after)
    by (rewrite <- app_assoc; reflexivity).
  rewrite clear_middle by (revert Hnd1; ids_norm; exact id).
  rewrite <- app_assoc. cbn [app].
  destruct (bool_decide _); [|reflexivity].
  replace (before ++ r' :: cleared mid ++ retext l [] :: extra ++ after)
    with ((before ++ r' :: cleared mid) ++ retext l [] :: extra ++ after)
    by (rewrite <- app_assoc; reflexivity).
  apply (set_text_nodup (before ++ r' :: cleared mid) (retext l []) (extra ++ after) []).
  revert Hnd1. ids_norm. exact id.
Qed.


(** *** What the reader sees after one replacement *)

Lemma take_styled before r after i :
  tlen before <= i <= tlen before + Py.len (text r) ->
  take (Z.to_nat i) (styled_chars (before ++ r :: after))
  = styled_chars before
    ++ List.map (fun c => (c, fmt r)) (take (Z.to_nat (i - tlen before)) (text r)).
Proof.
  intros Hi. rewrite styled_app, styled_cons.
  rewrite take_app_Z by exact (proj1 Hi). fold (tlen before). f_equal.
  rewrite take_app_le by (rewrite List.length_map; unfold Py.len in Hi; lia).
  symmetry. apply fmap_take.
Qed.

Lemma drop_styled before r after i :
  tlen before <= i <= tlen before + Py.len (text r) ->
  drop (Z.to_nat i) (styled_chars (before ++ r :: after))
  = List.map (fun c => (c, fmt r)) (drop (Z.to_nat (i - tlen before)) (text r))
    ++ styled_chars after.
Proof.
  intros Hi. rewrite styled_app, styled_cons.
  rewrite drop_app_Z by exact (proj1 Hi). fold (tlen before).
  rewrite drop_app_le by (rewrite List.length_map; unfold Py.len in Hi; lia).
  f_equal. symmetry. apply fmap_drop.
Qed.

Lemma styled_single before r after i j new :
  tlen before <= i <= tlen before + Py.len (text r) ->
  tlen before <= j <= tlen before + Py.len (text r) ->
  styled_chars (before ++ retext r (take (Z.to_nat (i - tlen before)) (text r) ++ new
                                    ++ drop (Z.to_nat (j - tlen before)) (text r))
                  :: after)
  = take (Z.to_nat i) (styled_chars (before ++ r :: after))
    ++ List.map (fun c => (c, fmt r)) new
    ++ drop (Z.to_nat j) (styled_chars (before ++ r :: after)).
Proof.
  intros Hi Hj. rewrite take_styled, drop_styled by assumption.
  rewrite styled_app, styled_cons. cbn [retext text fmt].
  rewrite !List.map_app, <- !app_assoc. reflexivity.
Qed.

Lemma styled_multi before r mid l extra after i j new :
  tlen before <= i <= tlen before + Py.len (text r) ->
  tlen before + Py.len (text r) + tlen mid <= j
    <= tlen before + Py.len (text r) + tlen mid + Py.len (text l) ->
  styled_chars extra
  = List.map (fun c => (c, fmt l))
      (drop (Z.to_nat (j - (tlen before + Py.len (text r) + tlen mid))) (text l)) ->
  styled_chars (before ++ retext r (take (Z.to_nat (i - tlen before)) (text r) ++ new)
                  :: cleared mid ++ retext l [] :: extra ++ after)
  = take (Z.to_nat i) (styled_chars (before ++ r :: mid ++ l :: after))
    ++ List.map (fun c => (c, fmt r)) new
    ++ drop (Z.to_nat j) (styled_chars (before ++ r :: mid ++ l :: after)).
Proof.
  intros Hi Hj Hextra. rewrite take_styled by assumption.
  replace (before ++ r :: mid ++ l :: after) with ((before ++ r :: mid) ++ l :: after)
    by (rewrite <- app_assoc; reflexivity).
  assert (Hsl : tlen (before ++ r :: mid) = tlen before + Py.len (text r) + tlen mid)
    by (rewrite tlen_app, tlen_cons; lia).
  rewrite drop_styled by (rewrite Hsl; exact Hj). rewrite Hsl, <- Hextra.
  rewrite styled_app, styled_cons, styled_app, styled_cleared, styled_cons, styled_app.
  cbn [retext text fmt List.map app].
  rewrite !List.map_app, <- !app_assoc. reflexivity.
Qed.

(** One iteration on a paragraph [pfx ++ rest] whose runs [pfx] head the
    run list, for a span within [pfx]. *)
Lemma apply_one_step pfx rest rest_runs repl :
  NoDup (ids (pfx ++ rest)) ->
  0 <= rp_start repl < rp_end repl -> rp_end repl <= tlen pfx ->
  exists pfx' rest' rest_runs' c F,
    apply_one (ids pfx ++ rest_runs) (pfx ++ rest) repl = pfx' ++ rest'
    /\ ids pfx ++ rest_runs = ids pfx' ++ rest_runs'
    /\ NoDup (ids (pfx' ++ rest'))
    /\ rp_start repl <= tlen pfx'
    /\ styled_chars (pfx ++ rest) !! Z.to_nat (rp_start repl) = Some (c, F)
    /\ styled_chars (pfx' ++ rest')
       = take (Z.to_nat (rp_start repl)) (styled_chars (pfx ++ rest))
         ++ List.map (fun c => (c, F)) (rp_replacement repl)
         ++ drop (Z.to_nat (rp_end repl)) (styled_chars (pfx ++ rest)).
Proof.
  intros Hnd Hs He.
  destruct (locate pfx (rp_start repl)) as (before & r & after & -> & Hr); [lia|].
  rewrite tlen_app, tlen_cons in He.
  destruct (lookup_run before r (after ++ rest) (rp_start repl) Hr) as [c Hc].
  set (r' t := retext r (take (Z.to_nat (rp_start repl - tlen before)) (text r) ++ t)).
  destruct (Z.le_gt_cases (rp_end repl) (tlen before + Py.len (text r))) as [Hin|Hout].
  - exists (before ++ [r' (rp_replacement repl
                           ++ drop (Z.to_nat (rp_end repl - tlen before)) (text r))]),
           (after ++ rest), (ids after ++ rest_runs), c, (fmt r).
    rewrite <- !app_assoc. cbn [app].
    split; [|split; [|split; [|split; [|split]]]].
    + replace (ids (before ++ r :: after) ++ rest_runs)
        with (ids (before ++ [r]) ++ ids after ++ rest_runs) by (ids_norm; reflexivity).
      apply apply_one_single; [|lia|lia].
      revert Hnd. rewrite <- app_assoc. exact id.
    + unfold r'. ids_norm. reflexivity.
    + revert Hnd. unfold r'. ids_norm. exact id.
    + rewrite tlen_app, tlen_cons, tlen_nil. unfold r'. cbn [retext text].
      rewrite len_app. unfold Py.len at 1. rewrite length_take.
      pose proof (len_nonneg (rp_replacement repl
                              ++ drop (Z.to_nat (rp_end repl - tlen before)) (text r))).
      unfold Py.len in Hr. unfold Py.len. lia.
    + exact Hc.
    + apply styled_single; lia.
  - destruct (locate after (rp_end repl - 1 - (tlen before + Py.len (text r))))
      as (mid & l & after' & -> & Hl); [lia|].
    destruct (apply_one_multi before r mid l (after' ++ rest) (ids after' ++ rest_runs) repl)
      as (extra & Happ & Hextra & Hnd'); [|lia|lia|].
    { revert Hnd. rewrite <- !app_assoc. cbn [app]. rewrite <- app_assoc. exact id. }
    exists (before ++ [r' (rp_replacement repl)]),
           (cleared mid ++ retext l [] :: extra ++ after' ++ rest),
           (ids mid ++ rid l :: ids after' ++ rest_runs), c, (fmt r).
    rewrite <- !app_assoc. cbn [app]. rewrite <- !app_assoc. cbn [app].
    split; [|split; [|split; [|split; [|split]]]].
    + replace (ids (before ++ r :: mid ++ l :: after') ++ rest_runs)
        with (ids (before ++ r :: mid ++ [l]) ++ ids after' ++ rest_runs)
        by (ids_norm; reflexivity).
      exact Happ.
    + unfold r'. ids_norm. reflexivity.
    + revert Hnd'. unfold r'. ids_norm. exact id.
    + rewrite tlen_app, tlen_cons, tlen_nil. unfold r'. cbn [retext text].
      rewrite len_app. unfold Py.len at 1. rewrite length_take.
      pose proof (len_nonneg (rp_replacement repl)).
      unfold Py.len in Hr. lia.
    + revert Hc. rewrite <- !app_assoc. cbn [app]. exact id.
    + apply styled_multi; [lia|lia|exact Hextra].
Qed.

(** *** All replacements *)

(** A replacement text with the formatting of the character at an
    offset. *)
Definition styled_as (st : list (Py.char * Format)) (i : Z) (new : Py.str)
    : list (Py.char * Format) :=
  match st !! Z.to_nat i with
  | Some (_, F) => List.map (fun c => (c, F)) new
  | None => []
  end.

(** The paragraph read forward: the untouched characters with their
    formatting, and each replacement with the formatting of the first
    character it replaces. *)
Fixpoint restyle (st : list (Py.char * Format)) (last : Z) (rs : list Replacement)
    : list (Py.char * Format) :=
  match rs with
  | [] => Py.slice_from st last
  | r :: rs' =>
      Py.slice st last (rp_start r)
        ++ styled_as st (rp_start r) (rp_replacement r)
        ++ restyle st (rp_end r) rs'
  end.

Lemma fold_restyle p rs : forall from,
  NoDup (ids p) -> 0 <= from <= tlen p -> in_order (tlen p) from rs ->
  exists pfx rest rest_runs,
    foldl (apply_one (ids p)) p (rev rs) = pfx ++ rest
    /\ ids p = ids pfx ++ rest_runs
    /\ NoDup (ids (pfx ++ rest))
    /\ from <= tlen pfx
    /\ styled_chars (pfx ++ rest)
       = take (Z.to_nat from) (styled_chars p) ++ restyle (styled_chars p) from rs.
Proof.
  induction rs as [|r rs IH]; intros from Hnd Hfrom Ho.
  - exists p, [], []. rewrite !app_nil_r. repeat split; try assumption; try lia.
    cbn [restyle]. rewrite slice_from_drop by (fold (tlen p); lia).
    symmetry. apply take_drop.
  - cbn [in_order] in Ho. destruct Ho as (Hr & He & Ho).
    destruct (IH (rp_end r) Hnd ltac:(lia) Ho)
      as (pfx & rest & rest_runs & Hfold & Hids & Hnd1 & Hb & Hst).
    cbn [rev]. rewrite foldl_snoc, Hfold, Hids.
    destruct (apply_one_step pfx rest rest_runs r Hnd1 ltac:(lia) ltac:(lia))
      as (pfx' & rest' & rest_runs' & c & F & Happ & Hids' & Hnd' & Hb' & Hc & Hst').
    exists pfx', rest', rest_runs'.
    split; [exact Happ|]. split; [exact Hids'|]. split; [exact Hnd'|].
    split; [lia|].
    rewrite Hst'. rewrite Hst in *.
    set (st := styled_chars p) in *. set (tail := restyle st (rp_end r) rs) in *.
    assert (Hlen : length (take (Z.to_nat (rp_end r)) st) = Z.to_nat (rp_end r)).
    { rewrite length_take. unfold tlen, Py.len in He. fold st in He. lia. }
    rewrite lookup_app_l in Hc by lia.
    rewrite lookup_take_lt in Hc by lia.
    rewrite take_app_le by lia. rewrite take_take.
    replace (Z.to_nat (rp_start r) `min` Z.to_nat (rp_end r))%nat
      with (Z.to_nat (rp_start r)) by lia.
    replace (drop (Z.to_nat (rp_end r)) (take (Z.to_nat (rp_end r)) st ++ tail)) with tail
      by (rewrite <- Hlen at 1; symmetry; apply drop_app_length).
    cbn [restyle]. fold tail. unfold styled_as. rewrite Hc.
    assert (Hst_len : Py.len st = tlen p) by reflexivity.
    rewrite slice_take_drop by lia.
    rewrite (app_assoc (take (Z.to_nat from) st)), take_take_drop.
    replace (Z.to_nat from + Z.to_nat (rp_start r - from))%nat
      with (Z.to_nat (rp_start r)) by lia.
    reflexivity.
Qed.

Lemma replacements_restyle p (rs : list Replacement) :
  NoDup (ids p) -> in_order (tlen p) 0 rs ->
  styled_chars (_apply_replacements_to_runs p (runs_of p) rs)
  = restyle (styled_chars p) 0 rs.
Proof.
  intros Hnd Ho. unfold _apply_replacements_to_runs.
  assert (Hnone : styled_chars p = restyle (styled_chars p) 0 []).
  { cbn [restyle]. symmetry. apply slice_from_zero. }
  destruct rs as [|r rs].
  { destruct (runs_of p); exact Hnone. }
  destruct p as [|x p].
  { cbn [in_order] in Ho. rewrite tlen_nil in Ho. lia. }
  cbn [runs_of List.map].
  rewrite (sorted_descending _ _ _ Ho).
  destruct (fold_restyle (x :: p) (r :: rs) 0 Hnd) as
    (pfx & rest & rest_runs & Hfold & _ & _ & _ & Hst);
    [pose proof (tlen_nonneg (x :: p)); lia | exact Ho |].
  change (rid x :: List.map rid p) with (ids (x :: p)).
  rewrite Hfold, Hst. reflexivity.
Qed.

(** X20. For a paragraph whose runs are distinct objects and non-empty
    spans in ascending order, none overlapping the next and all within the
    paragraph, the run-level replacement leaves every character outside
    the spans in place with its formatting and puts each replacement where
    its span was, in the formatting of the first character of the span. *)
Theorem X20_run_replacement_keeps_formatting p (rs : list Replacement) :
  NoDup (ids p) -> in_order (tlen p) 0 rs ->
  styled_chars (_apply_replacements_to_runs p (runs_of p) rs)
  = restyle (styled_chars p) 0 rs.
Proof. apply replacements_restyle. Qed.

(** *** The text of the paragraph *)

(** The text of a paragraph made of runs: the texts of its runs, one
    after the other. *)
Definition para_text p : Py.str := flat_map text p.

Lemma para_text_styled p : List.map fst (styled_chars p) = para_text p.
Proof.
  induction p as [|x p IH]; [reflexivity|].
  cbn [para_text flat_map]. fold (para_text p). rewrite <- IH.
  rewrite styled_cons, List.map_app, List.map_map. f_equal. apply List.map_id.
Qed.

Lemma len_fst (st : list (Py.char * Format)) : Py.len (List.map fst st) = Py.len st.
Proof. unfold Py.len. rewrite List.length_map. reflexivity. Qed.

Lemma restyle_text (st : list (Py.char * Format)) rs : forall from,
  0 <= from -> in_order (Py.len st) from rs ->
  List.map fst (restyle st from rs) = splice (List.map fst st) from rs.
Proof.
  induction rs as [|r rs IH]; intros from Hfrom Ho.
  - cbn [restyle splice]. unfold Py.slice_from. rewrite len_fst.
    apply (fmap_drop fst).
  - cbn [in_order] in Ho. destruct Ho as (Hr & He & Ho).
    cbn [restyle splice]. rewrite !List.map_app.
    rewrite (IH (rp_end r)) by (lia || exact Ho). f_equal; [|f_equal].
    + unfold Py.slice. rewrite len_fst.
      change (List.map fst ?l) with (fst <$> l). rewrite fmap_take, fmap_drop. reflexivity.
    + unfold styled_as.
      destruct (lookup_lt_is_Some_2 st (Z.to_nat (rp_start r))) as [[c F] Hc];
        [unfold Py.len in He; lia|].
      rewrite Hc, List.map_map. cbn [fst]. apply List.map_id.
Qed.

(** X21. Under the conditions of X20 the text of the paragraph after the
    run-level replacement is the text that the plain backward replacement
    gives on the text of the paragraph: the two ways of editing agree on
    what is written, and differ only in that the first keeps the runs. *)
Theorem X21_run_replacement_text_agrees p (rs : list Replacement) :
  NoDup (ids p) -> in_order (Py.len (para_text p)) 0 rs ->
  para_text (_apply_replacements_to_runs p (runs_of p) rs)
  = _apply_backward (para_text p) rs.
Proof.
  intros Hnd Ho.
  assert (Hlen : Py.len (para_text p) = tlen p)
    by (rewrite <- para_text_styled; apply len_fst).
  rewrite <- (para_text_styled (_apply_replacements_to_runs _ _ _)).
  rewrite replacements_restyle by (rewrite <- ?Hlen; assumption).
  rewrite restyle_text by (lia || (fold (tlen p); rewrite <- Hlen; exact Ho)).
  rewrite para_text_styled.
  unfold _apply_backward. rewrite (sorted_descending _ _ _ Ho).
  rewrite (backward_forward (para_text p) rs 0) by (lia || exact Ho).
  unfold Py.slice_to. rewrite clamp_inside by (pose proof (len_nonneg (para_text p)); lia).
  reflexivity.
Qed.

End RunFacts.

(** "Hello " bold, "World" italic and "!" bold: three runs, and two spans
    that each reach over a run boundary. *)
Definition hello_world_bang : DocxRewrite.Paragraph Style :=
  [ {| DocxRewrite.rid := 0; DocxRewrite.text := Py.lit "Hello "; DocxRewrite.fmt := Bold |};
    {| DocxRewrite.rid := 1; DocxRewrite.text := Py.lit "World"; DocxRewrite.fmt := Italic |};
    {| DocxRewrite.rid := 2; DocxRewrite.text := Py.lit "!"; DocxRewrite.fmt := Bold |} ].

Definition two_spans : list DocxRewrite.Replacement :=
  [ {| DocxRewrite.rp_start := 3; DocxRewrite.rp_end := 9;
       DocxRewrite.rp_replacement := Py.lit "XXXXXX" |};
    {| DocxRewrite.rp_start := 10; DocxRewrite.rp_end := 12;
       DocxRewrite.rp_replacement := Py.lit "Y" |} ].

Lemma hello_world_bang_ids : NoDup (ids hello_world_bang).
Proof. apply (bool_decide_unpack (NoDup (ids hello_world_bang))). vm_compute. exact I. Qed.

(** Splitting "World" after "Wo". *)
Lemma X18_split_run_keeps_formatting_witness :
  let before := [ {| DocxRewrite.rid := 0; DocxRewrite.text := Py.lit "Hello ";
                     DocxRewrite.fmt := Bold |} ] in
  let x := {| DocxRewrite.rid := 1; DocxRewrite.text := Py.lit "World";
              DocxRewrite.fmt := Italic |} in
  let after := [ {| DocxRewrite.rid := 2; DocxRewrite.text := Py.lit "!";
                    DocxRewrite.fmt := Bold |} ] in
  NoDup (ids (before ++ x :: after)) /\
  DocxRewrite.styled_chars
    (fst (DocxRewrite._split_run_at (before ++ x :: after) (DocxRewrite.rid x) 2))
  = DocxRewrite.styled_chars (before ++ x :: after).
Proof.
  intros before x after.
  assert (Hnd : NoDup (ids (before ++ x :: after))) by exact hello_world_bang_ids.
  split; [exact Hnd|].
  exact (proj2 (proj2 (X18_split_run_keeps_formatting before x after 2 Hnd))).
Defined.

Lemma X20_run_replacement_keeps_formatting_witness :
  NoDup (ids hello_world_bang) /\
  in_order (tlen hello_world_bang) 0 two_spans /\
  DocxRewrite.styled_chars
    (DocxRewrite._apply_replacements_to_runs hello_world_bang
       (DocxRewrite.runs_of hello_world_bang) two_spans)
  = List.map (fun c => (c, Bold)) (Py.lit "HelXXXXXX")
    ++ List.map (fun c => (c, Italic)) (Py.lit "lY").
Proof.
  assert (Ho : in_order (tlen hello_world_bang) 0 two_spans).
  { simpl. repeat split; try lia; vm_compute; discriminate. }
  split; [exact hello_world_bang_ids|]. split; [exact Ho|].
  rewrite (X20_run_replacement_keeps_formatting _ _ hello_world_bang_ids Ho).
  vm_compute. reflexivity.
Defined.

Lemma X21_run_replacement_text_agrees_witness :
  NoDup (ids hello_world_bang) /\
  in_order (Py.len (para_text hello_world_bang)) 0 two_spans /\
  para_text (DocxRewrite._apply_replacements_to_runs hello_world_bang
               (DocxRewrite.runs_of hello_world_bang) two_spans)
  = Py.lit "HelXXXXXXlY".
Proof.
  assert (Ho : in_order (Py.len (para_text hello_world_bang)) 0 two_spans).
  { simpl. repeat split; try lia; vm_compute; discriminate. }
  split; [exact hello_world_bang_ids|]. split; [exact Ho|].
  rewrite (X21_run_replacement_text_agrees _ _ hello_world_bang_ids Ho).
  vm_compute. reflexivity.
Defined.

(** ** Counts by entity type *)

Section CountFacts.
Import MaskingEngine.

(** The key a hit is counted under. *)
Definition entity_of (h : Hit) : Py.str :=
  match h_entity_type h with [] => Py.lit "UNKNOWN" | e => e end.

Definition occurrences (e : Py.str) (hs : list Hit) : Z :=
  Py.len (List.filter (fun h => bool_decide (entity_of h = e)) hs).

(** The sum of the counts of a dict. *)
Definition total (m : gmap Py.str Z) : Z := map_fold (fun _ n acc => n + acc) 0 m.

Lemma count_snoc hs h :
  _count_by_entity (hs ++ [h])
  = <[entity_of h := default 0 (_count_by_entity hs !! entity_of h) + 1]>
      (_count_by_entity hs).
Proof. unfold _count_by_entity. rewrite foldl_snoc. reflexivity. Qed.

Lemma occurrences_snoc e hs h :
  occurrences e (hs ++ [h])
  = occurrences e hs + (if bool_decide (entity_of h = e) then 1 else 0).
Proof.
  unfold occurrences. rewrite List.filter_app, len_app. cbn [List.filter].
  destruct (bool_decide (entity_of h = e)); reflexivity.
Qed.

Lemma occurrences_nonneg e hs : 0 <= occurrences e hs.
Proof. apply len_nonneg. Qed.

Lemma count_lookup hs e :
  _count_by_entity hs !! e
  = if occurrences e hs =? 0 then None else Some (occurrences e hs).
Proof.
  induction hs as [|h hs IH] using rev_ind; [reflexivity|].
  rewrite count_snoc, occurrences_snoc.
  pose proof (occurrences_nonneg e hs) as Hn.
  destruct (decide (entity_of h = e)) as [Heq|Hne].
  - rewrite bool_decide_eq_true_2 by exact Heq. subst e.
    rewrite lookup_insert_eq, IH.
    destruct (Z.eqb_spec (occurrences (entity_of h) hs + 1) 0); [lia|].
    destruct (Z.eqb_spec (occurrences (entity_of h) hs) 0) as [H0|H0]; cbn [default].
    + rewrite H0. reflexivity.
    + reflexivity.
  - rewrite bool_decide_eq_false_2 by exact Hne.
    rewrite lookup_insert_ne by exact Hne. rewrite IH, Z.add_0_r. reflexivity.
Qed.

Lemma total_insert (m : gmap Py.str Z) k v :
  total (<[k := v]> m) = total m - default 0 (m !! k) + v.
Proof.
  unfold total. destruct (m !! k) as [w|] eqn:Hk; unfold default, from_option, id.
  - rewrite <- (insert_delete_eq m k v).
    rewrite map_fold_insert_L; [|intros; lia|apply lookup_delete_eq].
    rewrite (map_fold_delete_L _ 0 k w m); [lia|intros; lia|exact Hk].
  - rewrite map_fold_insert_L; [lia|intros; lia|exact Hk].
Qed.

Lemma count_total hs : total (_count_by_entity hs) = Py.len hs.
Proof.
  induction hs as [|h hs IH] using rev_ind; [reflexivity|].
  rewrite count_snoc, total_insert, IH, len_app.
  change (Py.len [h]) with 1. lia.
Qed.

(** X22. The dict of [_count_by_entity] holds, for every entity type
    that occurs among the hits, the number of hits of this type, with the
    hits of an empty or missing type counted under UNKNOWN; it has no key
    for a type without hits; and its counts add up to the number of
    hits. *)
Theorem X22_counts_by_entity (hs : list Hit) :
  (forall e, _count_by_entity hs !! e
             = if occurrences e hs =? 0 then None else Some (occurrences e hs)) /\
  total (_count_by_entity hs) = Py.len hs.
Proof. split; [intros e; apply count_lookup | apply count_total]. Qed.

End CountFacts.

Section SummaryFacts.
Context `{Runtime}.
Import MaskingEngine.

Variables (eng : Engine) (text doc_id : Py.str).

Lemma summary_fields masked rep :
  mask_text_with_report eng text doc_id = Some (masked, rep) ->
  total_hits rep = Py.len (hits rep) /\
  review_hits rep = Py.len (review rep) /\
  by_entity rep = _count_by_entity (hits rep).
Proof.
  unfold mask_text_with_report. intros Hrun.
  destruct (detect eng text (run_allowlist eng text)) as [detected|]; [|discriminate].
  cbn [mbind option_bind] in Hrun. unfold mask_candidates in Hrun.
  injection Hrun as _ <-. repeat split.
Qed.

(** X23. The summary of a report agrees with its lists: the counts by
    entity type add up to [total_hits], which is the number of reported
    hits; [review_hits] is the number of review entries and never more
    than [total_hits]; and every review entry is one of the reported
    hits. *)
Theorem X23_summary_agrees_with_lists masked rep :
  mask_text_with_report eng text doc_id = Some (masked, rep) ->
  total (by_entity rep) = total_hits rep /\
  total_hits rep = Py.len (hits rep) /\
  review_hits rep = Py.len (review rep) /\
  review_hits rep <= total_hits rep /\
  Forall (fun rv => rv_hit rv ∈ hits rep) (review rep).
Proof.
  intros Hrun.
  destruct (summary_fields _ _ Hrun) as (Ht & Hr & Hb).
  apply run_inv in Hrun as (detected & _ & _ & Hhits & Hreview).
  rewrite Hb, count_total, Ht, Hr, Hreview.
  split; [reflexivity|]. split; [reflexivity|]. split; [reflexivity|].
  rewrite Hhits. clear.
  set (hs := hits_from _ _ _ _ _ _). split.
  - unfold Py.len. rewrite List.length_map.
    pose proof (List.filter_length_le (flagged eng) hs). lia.
  - rewrite Forall_forall. intros rv Hrv.
    apply list_elem_of_In, List.in_map_iff in Hrv as (h & <- & Hh).
    apply List.filter_In in Hh as [Hh _]. apply list_elem_of_In. exact Hh.
Qed.

End SummaryFacts.

(** Two detections in a six-character text. *)
Lemma X23_summary_agrees_with_lists_witness :
  let eng := Sample.engine (Py.lit "LABEL")
               [Sample.detection 0 2 (Py.lit "PERSON") (99 # 100);
                Sample.detection 3 5 (Py.lit "COMPANY") (1 # 2)] [] in
  let text := Py.lit "ab cd." in
  exists masked rep,
    MaskingEngine.mask_text_with_report (H := Sample.runtime) eng text (Py.lit "doc")
    = Some (masked, rep) /\
    MaskingEngine.total_hits rep = 2 /\
    total (MaskingEngine.by_entity rep) = MaskingEngine.total_hits rep /\
    MaskingEngine.total_hits rep = Py.len (MaskingEngine.hits rep) /\
    MaskingEngine.review_hits rep = Py.len (MaskingEngine.review rep) /\
    MaskingEngine.review_hits rep <= MaskingEngine.total_hits rep /\
    Forall (fun rv => MaskingEngine.rv_hit rv ∈ MaskingEngine.hits rep)
           (MaskingEngine.review rep).
Proof.
  intros eng text.
  assert (Hsome : is_Some (MaskingEngine.mask_text_with_report (H := Sample.runtime)
                             eng text (Py.lit "doc"))).
  { vm_compute. eexists. reflexivity. }
  destruct Hsome as [[masked rep] Hrun].
  exists masked, rep. split; [exact Hrun|]. split.
  - revert Hrun. vm_compute. intros Hrun. injection Hrun as _ <-. reflexivity.
  - exact (X23_summary_agrees_with_lists (H := Sample.runtime) eng text (Py.lit "doc")
             masked rep Hrun).
Defined.

(** ** pipelines/pdf_pipeline.py: the redaction loop *)

Module PdfProcess.
Import PdfPipeline.

(** Hiragana and katakana (U+3040..U+30FF) and the unified ideographs
    (U+4E00..U+9FFF). *)
Definition is_japanese (ch : Py.char) : bool :=
  ((12352 <=? ch) && (ch <=? 12543))%N || ((19968 <=? ch) && (ch <=? 40959))%N.

Definition japanese_count (s : Py.str) : Z :=
  foldl (fun jp ch => if is_japanese ch then jp + 1 else jp) 0 s.

Definition _japanese_ratio (s : Py.str) : Q :=
  match s with
  | [] => 0
  | _ => japanese_count s # Z.to_pos (Z.max 1 (Py.len s))
  end.

Record Stats := {
  applied_rects : Z;
  coord_mapped : Z;
  search_fallback : Z;
  search_misses : Z;
  skipped_too_many : Z
}.

Definition stats0 : Stats :=
  {| applied_rects := 0; coord_mapped := 0; search_fallback := 0;
     search_misses := 0; skipped_too_many := 0 |}.

(** The state of the loop over the reported hits: the redaction
    annotations of each page in the order they were added, the counters,
    and the hits as the loop leaves them, each with the review flag it
    set. *)
Record Redaction := {
  annots : gmap nat (list Rect);
  stats : Stats;
  out_hits : list (MaskingEngine.Hit * bool)
}.

Definition redaction0 : Redaction :=
  {| annots := ∅; stats := stats0; out_hits := [] |}.

(** [page.add_redact_annot(r, ...)] for every [r] of [rs], on page [pg] *)
Definition add_annots (m : gmap nat (list Rect)) (pg : nat) (rs : list Rect)
    : gmap nat (list Rect) :=
  <[pg := default [] (m !! pg) ++ rs]> m.

(** The rectangle with half a point added on every side. *)
Definition pad (r : Rect) : Rect :=
  let '(rx0, ry0, rx1, ry1) := r in
  (rx0 - (1 # 2), ry0 - (1 # 2), rx1 + (1 # 2), ry1 + (1 # 2))%Q.

(** [sum(len(rs) for rs in page_rects.values())] *)
Definition total_rects (m : gmap nat (list Rect)) : Z :=
  map_fold (fun _ rs n => Py.len rs + n) 0 m.

Section WithHost.
Context `{Runtime}.

(** [search_for page term] is PyMuPDF's text search on a page; [n_pages]
    is the number of pages; [max_rects] and [min_len] are the policy's
    [max_rects_per_term] and [min_term_length]. *)
Variables (search_for : nat -> Py.str -> list Rect) (n_pages : nat).
Variables (max_rects min_len : Z).
Variables (chars : list CharInfo) (full_text : Py.str).

Definition has_char_map : bool := (0 <? Py.len chars) && (0 <? Py.len full_text).

Definition skip (acc : Redaction) (h : MaskingEngine.Hit) : Redaction :=
  {| annots := annots acc; stats := stats acc; out_hits := out_hits acc ++ [(h, false)] |}.

(** [stats[...] += 1; h["review_flag"] = True; h["reason"] = reason; continue] *)
Definition too_many (acc : Redaction) (h : MaskingEngine.Hit) : Redaction :=
  let st := stats acc in
  {| annots := annots acc;
     stats := {| applied_rects := applied_rects st; coord_mapped := coord_mapped st;
                 search_fallback := search_fallback st; search_misses := search_misses st;
                 skipped_too_many := skipped_too_many st + 1 |};
     out_hits := out_hits acc
                 ++ [(DocxPipeline.with_reason h (Py.lit "warning:pdf_too_many_hits"), true)] |}.

Definition search_failed (acc : Redaction) (h : MaskingEngine.Hit) : Redaction :=
  let st := stats acc in
  {| annots := annots acc;
     stats := {| applied_rects := applied_rects st; coord_mapped := coord_mapped st;
                 search_fallback := search_fallback st;
                 search_misses := search_misses st + 1;
                 skipped_too_many := skipped_too_many st |};
     out_hits := out_hits acc
                 ++ [(DocxPipeline.with_reason h (Py.lit "warning:pdf_search_failed"), true)] |}.

(** The legacy search of the term on every page. *)
Definition fallback (acc : Redaction) (h : MaskingEngine.Hit) : Redaction :=
  let term := MaskingEngine.h_original h in
  if Py.len (Normalize.strip term) <? min_len then skip acc h
  else
    let rects_by_page :=
      List.filter (fun ir => match snd ir with [] => false | _ => true end)
                  (List.map (fun i => (i, search_for i term)) (seq 0 n_pages)) in
    let total := foldl (fun n ir => n + Py.len (snd ir)) 0 rects_by_page in
    match rects_by_page with
    | [] => search_failed acc h
    | _ =>
        if max_rects <? total then too_many acc h
        else
          let st := stats acc in
          {| annots := foldl (fun m ir => add_annots m (fst ir) (snd ir))
                             (annots acc) rects_by_page;
             stats := {| applied_rects := applied_rects st + total;
                         coord_mapped := coord_mapped st;
                         search_fallback := search_fallback st + 1;
                         search_misses := search_misses st;
                         skipped_too_many := skipped_too_many st |};
             out_hits := out_hits acc ++ [(h, false)] |}
    end.

(** One iteration of [for h in report.get("hits", [])].  The rectangles
    of different pages go to different pages, so the order in which the
    pages of [page_rects] are visited does not show. *)
Definition redact_step (acc : Redaction) (h : MaskingEngine.Hit) : Redaction :=
  if Py.startswith (MaskingEngine.h_reason h) (Py.lit "keep") then skip acc h
  else
    let start := MaskingEngine.h_start h in
    let end_ := MaskingEngine.h_end h in
    match MaskingEngine.h_original h with
    | [] => skip acc h
    | _ =>
        if end_ <=? start then skip acc h
        else if has_char_map && (start <? Py.len chars) && (end_ <=? Py.len chars)
        then
          let page_rects := _get_quads_for_span chars start end_ in
          if (size page_rects =? 0)%nat then fallback acc h
          else
            let total := total_rects page_rects in
            if max_rects <? total then too_many acc h
            else
              let st := stats acc in
              {| annots := map_fold (fun pg rects m => add_annots m pg (List.map pad rects))
                                    (annots acc) page_rects;
                 stats := {| applied_rects := applied_rects st + total;
                             coord_mapped := coord_mapped st + 1;
                             search_fallback := search_fallback st;
                             search_misses := search_misses st;
                             skipped_too_many := skipped_too_many st |};
                 out_hits := out_hits acc ++ [(h, false)] |}
        else fallback acc h
    end.

Definition redact_hits (hs : list MaskingEngine.Hit) : Redaction :=
  foldl redact_step redaction0 hs.

End WithHost.

(** [process_pdf_file] up to the writing of the file: the extracted text,
    the masked text, the report, the warnings and the redactions.  [None]
    when the engine raises. *)
Definition process_pdf_file `{Runtime} (search_for : nat -> Py.str -> list Rect)
    (jp_th : Q) (max_rects min_len : Z)
    (eng : MaskingEngine.Engine) (doc : PdfExtract.Doc) (doc_id : Py.str)
    : option (Py.str * Py.str * MaskingEngine.Report * list Py.str * Redaction) :=
  let '(full_text, chars) := PdfExtract._extract_text_with_positions doc in
  let warnings :=
    (if Qltb (_japanese_ratio full_text) jp_th
     then [Py.lit "warning:pdf_low_japanese_ratio"] else [])
    ++ (if has_char_map chars full_text then [] else [Py.lit "warning:pdf_no_char_map"]) in
  match MaskingEngine.mask_text_with_report eng full_text doc_id with
  | None => None
  | Some (masked_text, report) =>
      Some (full_text, masked_text, report, warnings,
            redact_hits search_for (length doc) max_rects min_len chars full_text
                        (MaskingEngine.hits report))
  end.

End PdfProcess.

(** ** The share of Japanese characters *)

Section JapaneseFacts.
Import PdfProcess.

Lemma japanese_count_snoc s c :
  japanese_count (s ++ [c]) = japanese_count s + (if is_japanese c then 1 else 0).
Proof.
  unfold japanese_count. rewrite foldl_snoc. destruct (is_japanese c); lia.
Qed.

Lemma japanese_count_bounds s : 0 <= japanese_count s <= Py.len s.
Proof.
  induction s as [|c s IH] using rev_ind; [unfold japanese_count, Py.len; simpl; lia|].
  rewrite japanese_count_snoc, len_app. change (Py.len [c]) with 1.
  destruct (is_japanese c); lia.
Qed.

Lemma japanese_count_zero s :
  japanese_count s = 0 <-> Forall (fun c => is_japanese c = false) s.
Proof.
  induction s as [|c s IH] using rev_ind; [split; [constructor | reflexivity]|].
  rewrite japanese_count_snoc, Forall_app, Forall_singleton, <- IH.
  pose proof (japanese_count_bounds s).
  destruct (is_japanese c); split; try lia; intros [? ?]; try lia; discriminate.
Qed.

Lemma japanese_count_all s :
  japanese_count s = Py.len s <-> Forall (fun c => is_japanese c = true) s.
Proof.
  induction s as [|c s IH] using rev_ind; [split; [constructor | reflexivity]|].
  rewrite japanese_count_snoc, len_app, Forall_app, Forall_singleton, <- IH.
  change (Py.len [c]) with 1.
  pose proof (japanese_count_bounds s).
  destruct (is_japanese c); split; try lia; intros [? ?]; try lia; discriminate.
Qed.

(** X24. The ratio of [_japanese_ratio] lies between 0 and 1; it is 0
    exactly when the text holds no kana and no ideograph (so for the empty
    text), and 1 exactly when the text is not empty and holds nothing
    else. *)
Theorem X24_japanese_ratio_is_a_share (s : Py.str) :
  (0 <= _japanese_ratio s <= 1)%Q /\
  ((_japanese_ratio s == 0)%Q <-> Forall (fun c => is_japanese c = false) s) /\
  ((_japanese_ratio s == 1)%Q <-> s <> [] /\ Forall (fun c => is_japanese c = true) s).
Proof.
  destruct s as [|c s].
  - cbn [_japanese_ratio]. split; [split; discriminate|]. split.
    + split; [constructor | reflexivity].
    + split; [discriminate | intros [Hne _]; contradiction].
  - set (t := c :: s).
    assert (Hlen : 1 <= Py.len t) by (unfold t; rewrite len_cons; pose proof (len_nonneg s); lia).
    pose proof (japanese_count_bounds t) as Hb.
    assert (Hpos : Z.pos (Z.to_pos (Z.max 1 (Py.len t))) = Py.len t)
      by (rewrite Z2Pos.id; lia).
    change (_japanese_ratio t) with (japanese_count t # Z.to_pos (Z.max 1 (Py.len t))).
    unfold Qle, Qeq. cbn [Qnum Qden]. rewrite Hpos.
    rewrite <- japanese_count_zero, <- japanese_count_all.
    split; [lia|]. split; [lia|].
    split; [intros Heq; split; [discriminate | lia] | intros [_ Heq]; lia].
Qed.

End JapaneseFacts.

(** ** The redaction loop of the PDF pipeline *)

Section RedactFacts.
Context `{Runtime}.
Import PdfPipeline PdfProcess.

Variables (search_for : nat -> Py.str -> list Rect) (n_pages : nat).
Variables (max_rects min_len : Z).
Variables (chars : list CharInfo) (full_text : Py.str).

Local Abbreviation step := (redact_step search_for n_pages max_rects min_len chars full_text).
Local Abbreviation search := (fallback search_for n_pages max_rects min_len).

Lemma total_rects_insert (m : gmap nat (list Rect)) pg rs :
  total_rects (<[pg := rs]> m) = total_rects m - Py.len (default [] (m !! pg)) + Py.len rs.
Proof.
  unfold total_rects. destruct (m !! pg) as [old|] eqn:Hpg; unfold default, from_option, id.
  - rewrite <- (insert_delete_eq m pg rs).
    rewrite map_fold_insert_L; [|intros; lia|apply lookup_delete_eq].
    rewrite (map_fold_delete_L _ 0 pg old m); [lia|intros; lia|exact Hpg].
  - rewrite map_fold_insert_L; [|intros; lia|exact Hpg].
    change (Py.len []) with 0. lia.
Qed.

Lemma total_rects_add m pg rs :
  total_rects (add_annots m pg rs) = total_rects m + Py.len rs.
Proof. unfold add_annots. rewrite total_rects_insert, len_app. lia. Qed.

Lemma total_rects_coord a (pr : gmap nat (list Rect)) :
  total_rects (map_fold (fun pg rects m => add_annots m pg (List.map pad rects)) a pr)
  = total_rects a + total_rects pr.
Proof.
  apply (map_fold_weak_ind (fun res m => total_rects res = total_rects a + total_rects m)).
  - unfold total_rects at 3. rewrite map_fold_empty. lia.
  - intros pg rects m res Hpg IH.
    rewrite total_rects_add, IH, total_rects_insert, Hpg.
    unfold Py.len. rewrite List.length_map. cbn [default from_option length]. lia.
Qed.

Lemma sum_shift (l : list (nat * list Rect)) : forall k,
  foldl (fun n ir => n + Py.len (snd ir)) k l
  = k + foldl (fun n ir => n + Py.len (snd ir)) 0 l.
Proof.
  induction l as [|ir l IH]; intros k; simpl; [lia|].
  rewrite (IH (k + _)), (IH (0 + _)). lia.
Qed.

Lemma total_rects_search (l : list (nat * list Rect)) : forall a,
  total_rects (foldl (fun m ir => add_annots m (fst ir) (snd ir)) a l)
  = total_rects a + foldl (fun n ir => n + Py.len (snd ir)) 0 l.
Proof.
  induction l as [|ir l IH]; intros a; simpl; [lia|].
  rewrite IH, total_rects_add, (sum_shift l (0 + _)). lia.
Qed.

(** The hits that the loop does not pass over at once. *)
Definition redactable (h : MaskingEngine.Hit) : bool :=
  negb (Py.startswith (MaskingEngine.h_reason h) (Py.lit "keep"))
  && match MaskingEngine.h_original h with [] => false | _ => true end
  && (MaskingEngine.h_start h <? MaskingEngine.h_end h).

Definition handled (st : Stats) : Z :=
  coord_mapped st + search_fallback st + search_misses st + skipped_too_many st.

Definition flags (r : Redaction) : Z :=
  Py.len (List.filter snd (out_hits r)).

(** What the loop maintains. *)
Record accounted (r : Redaction) (n : Z) : Prop := {
  acc_applied : applied_rects (stats r) = total_rects (annots r);
  acc_flags : flags r = search_misses (stats r) + skipped_too_many (stats r);
  acc_handled : 0 <= handled (stats r) <= n;
  acc_each : 0 <= coord_mapped (stats r) /\ 0 <= search_fallback (stats r)
             /\ 0 <= search_misses (stats r) /\ 0 <= skipped_too_many (stats r)
}.

Lemma flags_snoc r o :
  Py.len (List.filter snd (out_hits r ++ [o]))
  = flags r + (if snd o then 1 else 0).
Proof.
  unfold flags. rewrite List.filter_app, len_app. cbn [List.filter].
  destruct (snd o); reflexivity.
Qed.

Lemma skip_accounted r h n : accounted r n -> accounted (skip r h) n.
Proof.
  intros [Ha Hf Hh He]. split; cbn [skip annots stats out_hits]; try assumption.
  unfold flags, skip. cbn [out_hits]. rewrite flags_snoc. cbn [snd]. lia.
Qed.

Lemma too_many_accounted r h n : accounted r n -> accounted (too_many r h) (n + 1).
Proof.
  intros [Ha Hf Hh He]. unfold handled in *.
  split; unfold handled, flags; cbn [too_many annots stats out_hits applied_rects
    coord_mapped search_fallback search_misses skipped_too_many];
    rewrite ?flags_snoc; cbn [snd]; lia.
Qed.

Lemma search_failed_accounted r h n : accounted r n -> accounted (search_failed r h) (n + 1).
Proof.
  intros [Ha Hf Hh He]. unfold handled in *.
  split; unfold handled, flags; cbn [search_failed annots stats out_hits applied_rects
    coord_mapped search_fallback search_misses skipped_too_many];
    rewrite ?flags_snoc; cbn [snd]; lia.
Qed.

Lemma accounted_weaken r n : accounted r n -> accounted r (n + 1).
Proof. intros [Ha Hf Hh He]. split; try assumption. lia. Qed.

Lemma fallback_accounted r h n : accounted r n -> accounted (search r h) (n + 1).
Proof.
  intros Hr. unfold fallback.
  destruct (Py.len (Normalize.strip (MaskingEngine.h_original h)) <? min_len).
  { apply accounted_weaken, skip_accounted, Hr. }
  set (found := List.filter _ _).
  destruct found as [|ir found'] eqn:Hfound.
  { apply search_failed_accounted, Hr. }
  rewrite <- Hfound. clear Hfound.
  destruct (max_rects <? _); [apply too_many_accounted, Hr|].
  destruct Hr as [Ha Hf Hh He]. unfold handled in *.
  split; unfold handled, flags; cbn [annots stats out_hits applied_rects
    coord_mapped search_fallback search_misses skipped_too_many];
    rewrite ?flags_snoc; cbn [snd]; try lia.
  pose proof (total_rects_search found (annots r)). lia.
Qed.

Lemma step_accounted r h n :
  accounted r n -> accounted (step r h) (n + if redactable h then 1 else 0).
Proof.
  intros Hr. unfold redact_step, redactable.
  destruct (Py.startswith (MaskingEngine.h_reason h) (Py.lit "keep"));
    cbn [negb andb]; [rewrite Z.add_0_r; apply skip_accounted, Hr|].
  destruct (MaskingEngine.h_original h) as [|c term] eqn:Hterm;
    [rewrite Z.add_0_r; apply skip_accounted, Hr|].
  clear Hterm.
  rewrite (Z.leb_antisym (MaskingEngine.h_start h)).
  destruct (MaskingEngine.h_start h <? MaskingEngine.h_end h); cbn [negb];
    [|rewrite Z.add_0_r; apply skip_accounted, Hr].
  destruct (has_char_map chars full_text && _ && _); [|apply fallback_accounted, Hr].
  destruct (size _ =? 0)%nat; [apply fallback_accounted, Hr|].
  destruct (max_rects <? _); [apply too_many_accounted, Hr|].
  destruct Hr as [Ha Hf Hh He]. unfold handled in *.
  split; unfold handled, flags; cbn [annots stats out_hits applied_rects
    coord_mapped search_fallback search_misses skipped_too_many];
    rewrite ?flags_snoc; cbn [snd andb]; try lia.
  rewrite total_rects_coord. lia.
Qed.

Lemma loop_accounted hs : forall r n,
  accounted r n ->
  accounted (foldl step r hs) (n + Py.len (List.filter redactable hs)).
Proof.
  induction hs as [|h hs IH]; intros r n Hr; simpl.
  - change (Py.len []) with 0. rewrite Z.add_0_r. exact Hr.
  - pose proof (IH _ _ (step_accounted r h n Hr)) as Hloop.
    destruct (redactable h).
    + rewrite len_cons. replace (n + (1 + Py.len (List.filter redactable hs)))
        with (n + 1 + Py.len (List.filter redactable hs)) by lia. exact Hloop.
    + rewrite Z.add_0_r in Hloop. exact Hloop.
Qed.

(** X25. The counters of the redaction loop agree with what it did: at
    the end [applied_rects] is the number of redaction annotations on all
    pages, the hits flagged for review are as many as the search misses
    and the skipped hits together, and the four outcome counters add up to
    at most the number of hits that are masked and have a non-empty
    original and span. *)
Theorem X25_redaction_counters (hs : list MaskingEngine.Hit) :
  let red := redact_hits search_for n_pages max_rects min_len chars full_text hs in
  applied_rects (stats red) = total_rects (annots red) /\
  flags red = search_misses (stats red) + skipped_too_many (stats red) /\
  0 <= handled (stats red) <= Py.len (List.filter redactable hs).
Proof.
  intros red.
  assert (H0 : accounted redaction0 0).
  { split; unfold handled, flags; cbn; try lia; reflexivity. }
  destruct (loop_accounted hs _ _ H0) as [Ha Hf Hh _].
  rewrite Z.add_0_l in Hh. repeat split; assumption || apply Hh.
Qed.

(** What the loop writes back for a hit: the hit as it was, or, for a
    hit it tried to redact, the hit flagged for review with a warning as
    its reason. *)
Definition written (h : MaskingEngine.Hit) (o : MaskingEngine.Hit * bool) : Prop :=
  o = (h, false) \/
  (redactable h = true /\
   exists w, (w = Py.lit "warning:pdf_too_many_hits" \/ w = Py.lit "warning:pdf_search_failed")
             /\ o = (DocxPipeline.with_reason h w, true)).

Lemma fallback_out r h :
  exists o, out_hits (search r h) = out_hits r ++ [o] /\
            (o = (h, false) \/
             exists w, (w = Py.lit "warning:pdf_too_many_hits"
                        \/ w = Py.lit "warning:pdf_search_failed")
                       /\ o = (DocxPipeline.with_reason h w, true)).
Proof.
  unfold fallback.
  destruct (Py.len (Normalize.strip (MaskingEngine.h_original h)) <? min_len).
  { eexists. split; [reflexivity|]. left. reflexivity. }
  destruct (List.filter _ _) as [|ir found].
  { eexists. split; [reflexivity|]. right. eexists. split; [right|]; reflexivity. }
  destruct (max_rects <? _).
  - eexists. split; [reflexivity|]. right. eexists. split; [left|]; reflexivity.
  - eexists. split; [reflexivity|]. left. reflexivity.
Qed.

Lemma step_unredactable r h : redactable h = false -> step r h = skip r h.
Proof.
  unfold redactable, redact_step. intros Hr.
  destruct (Py.startswith (MaskingEngine.h_reason h) (Py.lit "keep")); [reflexivity|].
  destruct (MaskingEngine.h_original h); [reflexivity|].
  cbn [negb andb] in Hr. rewrite Z.leb_antisym, Hr. reflexivity.
Qed.

Lemma step_out r h :
  exists o, out_hits (step r h) = out_hits r ++ [o] /\ written h o.
Proof.
  destruct (redactable h) eqn:Hr.
  2:{ rewrite step_unredactable by exact Hr. eexists. split; [reflexivity|]. left. reflexivity. }
  assert (Hsearch : exists o, out_hits (search r h) = out_hits r ++ [o] /\ written h o).
  { destruct (fallback_out r h) as (o & Ho & Hw). exists o. split; [exact Ho|].
    destruct Hw as [Hw|Hw]; [left; exact Hw | right; split; [exact Hr | exact Hw]]. }
  unfold redact_step.
  destruct (Py.startswith _ _); [eexists; split; [reflexivity | left; reflexivity]|].
  destruct (MaskingEngine.h_original h); [eexists; split; [reflexivity | left; reflexivity]|].
  destruct (_ <=? _); [eexists; split; [reflexivity | left; reflexivity]|].
  destruct (has_char_map chars full_text && _ && _); [|exact Hsearch].
  destruct (size _ =? 0)%nat; [exact Hsearch|].
  destruct (max_rects <? _).
  - eexists. split; [reflexivity|]. right. split; [exact Hr|].
    eexists. split; [left|]; reflexivity.
  - eexists. split; [reflexivity|]. left. reflexivity.
Qed.

Lemma loop_out hs : forall r,
  exists os, out_hits (foldl step r hs) = out_hits r ++ os /\ Forall2 written hs os.
Proof.
  induction hs as [|h hs IH]; intros r; simpl.
  - exists []. rewrite app_nil_r. split; [reflexivity | constructor].
  - destruct (step_out r h) as (o & Ho & Hw).
    destruct (IH (step r h)) as (os & Hos & Hws).
    exists (o :: os). rewrite Hos, Ho, <- app_assoc. split; [reflexivity|].
    constructor; assumption.
Qed.

(** Two states with the same annotations and counters. *)
Definition same_redactions (r r' : Redaction) : Prop :=
  annots r = annots r' /\ stats r = stats r'.

Lemma step_same r r' h : same_redactions r r' -> same_redactions (step r h) (step r' h).
Proof.
  destruct r as [a st o], r' as [a' st' o']. intros [Ha Hs]. cbn [annots stats] in Ha, Hs.
  subst a' st'.
  unfold redact_step, fallback, skip, too_many, search_failed. cbn [annots stats].
  repeat match goal with
         | |- context [if ?b then _ else _] => destruct b
         | |- context [match ?x with [] => _ | _ :: _ => _ end] => destruct x
         end; split; reflexivity.
Qed.

Lemma loop_same hs : forall r r',
  same_redactions r r' ->
  same_redactions (foldl step r hs) (foldl step r' (List.filter redactable hs)).
Proof.
  induction hs as [|h hs IH]; intros r r' Hrr; simpl; [exact Hrr|].
  destruct (redactable h) eqn:Hr.
  - simpl. apply IH, step_same, Hrr.
  - apply IH. rewrite step_unredactable by exact Hr. exact Hrr.
Qed.

(** X26. A hit that is kept (its reason starts with "keep"), or whose
    original or span is empty, is passed over: the annotations and the
    counters at the end are those of the loop over the other hits alone.
    The loop writes the hits back one for one, each as it was or, when it
    tried to redact the hit and could not, flagged for review with one of
    the two warnings as its reason. *)
Theorem X26_kept_hits_not_redacted (hs : list MaskingEngine.Hit) :
  let red := redact_hits search_for n_pages max_rects min_len chars full_text hs in
  let red' := redact_hits search_for n_pages max_rects min_len chars full_text
                          (List.filter redactable hs) in
  annots red = annots red' /\ stats red = stats red' /\
  Forall2 written hs (out_hits red).
Proof.
  intros red red'.
  destruct (loop_same hs redaction0 redaction0) as [Ha Hs]; [split; reflexivity|].
  split; [exact Ha|]. split; [exact Hs|].
  destruct (loop_out hs redaction0) as (os & Hos & Hws).
  unfold red, redact_hits. rewrite Hos. exact Hws.
Qed.

(** *** Annotations cover the characters *)

Lemma add_annots_keeps m pg rs pg' x :
  x ∈ rects_on m pg' -> x ∈ rects_on (add_annots m pg rs) pg'.
Proof.
  unfold rects_on, add_annots. intros Hx.
  destruct (decide (pg = pg')) as [->|Hne].
  - rewrite lookup_insert_eq. simpl. apply elem_of_app. left. exact Hx.
  - rewrite lookup_insert_ne by exact Hne. exact Hx.
Qed.

Lemma add_annots_adds m pg rs x : x ∈ rs -> x ∈ rects_on (add_annots m pg rs) pg.
Proof.
  unfold rects_on, add_annots. intros Hx. rewrite lookup_insert_eq. simpl.
  apply elem_of_app. right. exact Hx.
Qed.

Lemma coord_annots a (pr : gmap nat (list Rect)) :
  let res := map_fold (fun pg rects m => add_annots m pg (List.map pad rects)) a pr in
  (forall pg x, x ∈ rects_on a pg -> x ∈ rects_on res pg) /\
  (forall pg rects x, pr !! pg = Some rects -> x ∈ rects -> pad x ∈ rects_on res pg).
Proof.
  apply (map_fold_weak_ind
           (fun res m =>
              (forall pg x, x ∈ rects_on a pg -> x ∈ rects_on res pg) /\
              (forall pg rects x, m !! pg = Some rects -> x ∈ rects ->
                                  pad x ∈ rects_on res pg))).
  - split; [intros pg x Hx; exact Hx|]. intros pg rects x Hpg. rewrite lookup_empty in Hpg.
    discriminate.
  - intros pg rects m res Hnone [Hkeep Hadd]. split.
    + intros pg' x Hx. apply add_annots_keeps, Hkeep, Hx.
    + intros pg' rects' x Hpg' Hx.
      destruct (decide (pg = pg')) as [->|Hne].
      * rewrite lookup_insert_eq in Hpg'. injection Hpg' as <-.
        apply add_annots_adds. apply list_elem_of_In, List.in_map, list_elem_of_In, Hx.
      * rewrite lookup_insert_ne in Hpg' by exact Hne.
        apply add_annots_keeps, (Hadd _ _ _ Hpg' Hx).
Qed.

Lemma search_annots (l : list (nat * list Rect)) : forall a pg x,
  x ∈ rects_on a pg ->
  x ∈ rects_on (foldl (fun m ir => add_annots m (fst ir) (snd ir)) a l) pg.
Proof.
  induction l as [|ir l IH]; intros a pg x Hx; simpl; [exact Hx|].
  apply IH, add_annots_keeps, Hx.
Qed.

Lemma step_keeps r h pg x :
  x ∈ rects_on (annots r) pg -> x ∈ rects_on (annots (step r h)) pg.
Proof.
  intros Hx.
  assert (Hsearch : x ∈ rects_on (annots (search r h)) pg).
  { unfold fallback. destruct (_ <? min_len); [exact Hx|].
    destruct (List.filter _ _) as [|ir found] eqn:Hfound; [exact Hx|].
    rewrite <- Hfound. destruct (max_rects <? _); [exact Hx|].
    cbn [annots]. apply search_annots, Hx. }
  unfold redact_step.
  destruct (Py.startswith _ _); [exact Hx|].
  destruct (MaskingEngine.h_original h); [exact Hx|].
  destruct (_ <=? _); [exact Hx|].
  destruct (has_char_map chars full_text && _ && _); [|exact Hsearch].
  destruct (size _ =? 0)%nat; [exact Hsearch|].
  destruct (max_rects <? _); [exact Hx|].
  cbn [annots]. apply coord_annots, Hx.
Qed.

Lemma loop_keeps hs : forall r pg x,
  x ∈ rects_on (annots r) pg -> x ∈ rects_on (annots (foldl step r hs)) pg.
Proof.
  induction hs as [|h hs IH]; intros r pg x Hx; simpl; [exact Hx|].
  apply IH, step_keeps, Hx.
Qed.

Lemma covers_pad x ci : covers x ci -> covers (pad x) ci.
Proof.
  destruct x as [[[rx0 ry0] rx1] ry1]. unfold covers, pad.
  intros (H0 & H1 & H2 & H3). repeat split; lra.
Qed.

Lemma quads_cover (start end_ i : Z) (ci : CharInfo) :
  0 <= start -> end_ <= Py.len chars -> start <= i < end_ ->
  Py.index chars i = Some ci -> is_dummy ci = false ->
  exists x, x ∈ rects_on (_get_quads_for_span chars start end_) (page_idx ci) /\ covers x ci.
Proof.
  intros Hs He Hi Hci Hd. unfold _get_quads_for_span.
  destruct (Z.ltb_spec start 0); [lia|].
  destruct (Z.ltb_spec (Py.len chars) end_); [lia|].
  destruct (Z.leb_spec end_ start); [lia|].
  cbn [orb].
  apply flush_scanned, (scan_covers chars _ scan0 i); [apply range_elem| |]; assumption.
Qed.

(** The real characters of the span of [h] lie within annotations of
    their pages. *)
Definition covered (m : gmap nat (list Rect)) (h : MaskingEngine.Hit) : Prop :=
  forall i ci,
    MaskingEngine.h_start h <= i < MaskingEngine.h_end h ->
    Py.index chars i = Some ci -> is_dummy ci = false ->
    exists x, x ∈ rects_on m (page_idx ci) /\ covers x ci.

Definition has_real_char (h : MaskingEngine.Hit) : Prop :=
  exists i ci,
    MaskingEngine.h_start h <= i < MaskingEngine.h_end h /\
    Py.index chars i = Some ci /\ is_dummy ci = false.

Lemma step_covers r h :
  Py.startswith (MaskingEngine.h_reason h) (Py.lit "keep") = false ->
  MaskingEngine.h_original h <> [] ->
  0 <= MaskingEngine.h_start h < MaskingEngine.h_end h ->
  MaskingEngine.h_end h <= Py.len chars -> 0 < Py.len full_text ->
  has_real_char h ->
  let quads := _get_quads_for_span chars (MaskingEngine.h_start h) (MaskingEngine.h_end h) in
  (max_rects < total_rects quads /\ step r h = too_many r h) \/
  (total_rects quads <= max_rects /\
   out_hits (step r h) = out_hits r ++ [(h, false)] /\
   covered (annots (step r h)) h).
Proof.
  intros Hkeep Hterm Hspan Hend Htext (i0 & c0 & Hi0 & Hc0 & Hd0) quads.
  unfold redact_step. rewrite Hkeep.
  destruct (MaskingEngine.h_original h) as [|c term]; [contradiction|].
  destruct (Z.leb_spec (MaskingEngine.h_end h) (MaskingEngine.h_start h)); [lia|].
  unfold has_char_map.
  destruct (Z.ltb_spec 0 (Py.len chars)); [|lia].
  destruct (Z.ltb_spec 0 (Py.len full_text)); [|lia].
  destruct (Z.ltb_spec (MaskingEngine.h_start h) (Py.len chars)); [|lia].
  destruct (Z.leb_spec (MaskingEngine.h_end h) (Py.len chars)); [|lia].
  cbn [andb]. fold quads.
  destruct (quads_cover (MaskingEngine.h_start h) (MaskingEngine.h_end h) i0 c0
              ltac:(lia) Hend Hi0 Hc0 Hd0) as (x0 & Hx0 & _).
  fold quads in Hx0.
  assert (Hsize : size quads <> 0%nat).
  { apply (map_size_ne_0_lookup_2 _ (page_idx c0)). unfold rects_on in Hx0.
    destruct (quads !! page_idx c0); [eexists; reflexivity|]. inversion Hx0. }
  destruct (Nat.eqb_spec (size quads) 0); [contradiction|].
  destruct (Z.ltb_spec max_rects (total_rects quads)) as [Hmany|Hfew].
  - left. split; [exact Hmany | reflexivity].
  - right. split; [exact Hfew|]. split; [reflexivity|].
    cbn [annots]. intros i ci Hi Hci Hd.
    destruct (quads_cover (MaskingEngine.h_start h) (MaskingEngine.h_end h) i ci
                ltac:(lia) Hend Hi Hci Hd) as (x & Hx & Hcov).
    fold quads in Hx. unfold rects_on in Hx.
    destruct (quads !! page_idx ci) as [rects|] eqn:Hpg; [|inversion Hx].
    exists (pad x). split; [|apply covers_pad, Hcov].
    exact (proj2 (coord_annots (annots r) quads) _ _ _ Hpg Hx).
Qed.

Lemma covered_keeps hs r h :
  covered (annots r) h -> covered (annots (foldl step r hs)) h.
Proof.
  intros Hcov i ci Hi Hci Hd. destruct (Hcov i ci Hi Hci Hd) as (x & Hx & Hc).
  exists x. split; [apply loop_keeps, Hx | exact Hc].
Qed.

Lemma loop_covers hs k h :
  hs !! k = Some h ->
  Py.startswith (MaskingEngine.h_reason h) (Py.lit "keep") = false ->
  MaskingEngine.h_original h <> [] ->
  0 <= MaskingEngine.h_start h < MaskingEngine.h_end h ->
  MaskingEngine.h_end h <= Py.len chars -> 0 < Py.len full_text ->
  has_real_char h ->
  let red := redact_hits search_for n_pages max_rects min_len chars full_text hs in
  let quads := _get_quads_for_span chars (MaskingEngine.h_start h) (MaskingEngine.h_end h) in
  (max_rects < total_rects quads /\
   out_hits red !! k
   = Some (DocxPipeline.with_reason h (Py.lit "warning:pdf_too_many_hits"), true)) \/
  (total_rects quads <= max_rects /\
   out_hits red !! k = Some (h, false) /\ covered (annots red) h).
Proof.
  intros Hk Hkeep Hterm Hspan Hend Htext Hreal red quads.
  unfold red, redact_hits.
  rewrite <- (take_drop_middle hs k h Hk), foldl_app.
  set (r1 := foldl step redaction0 (take k hs)).
  destruct (loop_out (take k hs) redaction0) as (os1 & Hos1 & Hw1).
  fold r1 in Hos1. cbn [redaction0 out_hits app] in Hos1.
  assert (Hlen1 : length os1 = k).
  { rewrite <- (Forall2_length _ _ _ Hw1), length_take.
    apply lookup_lt_Some in Hk. lia. }
  cbn [foldl].
  destruct (loop_out (drop (S k) hs) (step r1 h)) as (os2 & Hos2 & _).
  rewrite Hos2.
  destruct (step_covers r1 h Hkeep Hterm Hspan Hend Htext Hreal) as [[Hmany Hstep]|(Hfew & Hout & Hcov)].
  - left. split; [exact Hmany|]. rewrite Hstep. cbn [too_many out_hits].
    rewrite Hos1, <- app_assoc, lookup_app_r by lia.
    rewrite Hlen1, Nat.sub_diag. reflexivity.
  - right. split; [exact Hfew|]. split.
    + rewrite Hout, Hos1, <- app_assoc, lookup_app_r by lia.
      rewrite Hlen1, Nat.sub_diag. reflexivity.
    + apply covered_keeps, Hcov.
Qed.

(** *** The pages of the annotations *)

Definition pages_below (n : nat) (m : gmap nat (list Rect)) : Prop :=
  forall pg, is_Some (m !! pg) -> (pg < n)%nat.

Lemma insert_pages n (m : gmap nat (list Rect)) pg rs :
  pages_below n m -> (pg < n)%nat -> pages_below n (<[pg := rs]> m).
Proof.
  intros Hm Hpg pg' Hsome. destruct (decide (pg = pg')) as [<-|Hne]; [exact Hpg|].
  rewrite lookup_insert_ne in Hsome by exact Hne. apply Hm, Hsome.
Qed.

Lemma index_elem {X} (l : list X) i x : Py.index l i = Some x -> x ∈ l.
Proof.
  unfold Py.index. intros Hi.
  destruct ((0 <=? i) && (i <? Py.len l)); [exact (list_elem_of_lookup_2 _ _ _ Hi)|].
  destruct ((- Py.len l <=? i) && (i <? 0)); [exact (list_elem_of_lookup_2 _ _ _ Hi)|].
  discriminate.
Qed.

Definition scan_pages (n : nat) (s : Scan) : Prop :=
  pages_below n (page_rects s) /\ forall pg, current_page s = Some pg -> (pg < n)%nat.

Lemma flush_pages n s : scan_pages n s -> pages_below n (flush s).
Proof.
  intros [Hm Hc]. unfold flush.
  destruct (current_rect s); [|exact Hm].
  destruct (current_page s) as [pg|]; [|exact Hm].
  apply insert_pages; [exact Hm | apply Hc; reflexivity].
Qed.

Lemma scan_step_pages n s i :
  Forall (fun ci => (page_idx ci < n)%nat) chars ->
  scan_pages n s -> scan_pages n (scan_step chars s i).
Proof.
  intros Hchars Hs. unfold scan_step.
  destruct (Py.index chars i) as [ci|] eqn:Hi; [|exact Hs].
  destruct (is_dummy ci); [exact Hs|].
  destruct (same_line s ci).
  - destruct (current_rect s) as [[[[rx0 ry0] rx1] ry1]|]; exact Hs.
  - split; cbn [page_rects current_page].
    + apply flush_pages, Hs.
    + intros pg [= <-]. rewrite Forall_forall in Hchars.
      apply Hchars, (index_elem _ _ _ Hi).
Qed.

Lemma quads_pages n start end_ :
  Forall (fun ci => (page_idx ci < n)%nat) chars ->
  pages_below n (_get_quads_for_span chars start end_).
Proof.
  intros Hchars. unfold _get_quads_for_span.
  destruct (_ || _ || _).
  { intros pg Hpg. rewrite lookup_empty in Hpg. destruct Hpg; discriminate. }
  apply flush_pages.
  assert (H0 : scan_pages n scan0).
  { split; [|discriminate]. intros pg Hpg. cbn [scan0 page_rects] in Hpg.
    rewrite lookup_empty in Hpg. destruct Hpg; discriminate. }
  revert H0. generalize scan0.
  induction (range start end_) as [|i idxs IH]; intros s Hs; simpl; [exact Hs|].
  apply IH, scan_step_pages; assumption.
Qed.

Lemma coord_pages n a (pr : gmap nat (list Rect)) :
  pages_below n a -> pages_below n pr ->
  pages_below n (map_fold (fun pg rects m => add_annots m pg (List.map pad rects)) a pr).
Proof.
  intros Ha.
  apply (map_fold_weak_ind (fun res m => pages_below n m -> pages_below n res)).
  - intros _. exact Ha.
  - intros pg rects m res Hnone IH Hm. apply insert_pages.
    + apply IH. intros pg' Hpg'. apply Hm.
      destruct (decide (pg = pg')) as [<-|Hne];
        [rewrite Hnone in Hpg'; destruct Hpg'; discriminate|].
      rewrite lookup_insert_ne by exact Hne. exact Hpg'.
    + apply Hm. rewrite lookup_insert_eq. eexists. reflexivity.
Qed.

Lemma search_pages n (l : list (nat * list Rect)) : forall a,
  Forall (fun ir => (fst ir < n)%nat) l -> pages_below n a ->
  pages_below n (foldl (fun m ir => add_annots m (fst ir) (snd ir)) a l).
Proof.
  induction l as [|ir l IH]; intros a Hl Ha; simpl; [exact Ha|].
  apply Forall_cons in Hl as [Hir Hl].
  apply IH; [exact Hl|]. apply insert_pages; assumption.
Qed.

Lemma step_pages r h :
  Forall (fun ci => (page_idx ci < n_pages)%nat) chars ->
  pages_below n_pages (annots r) -> pages_below n_pages (annots (step r h)).
Proof.
  intros Hchars Hr.
  assert (Hsearch : pages_below n_pages (annots (search r h))).
  { unfold fallback. destruct (_ <? min_len); [exact Hr|].
    destruct (List.filter _ _) as [|ir found] eqn:Hfound; [exact Hr|].
    rewrite <- Hfound. destruct (max_rects <? _); [exact Hr|].
    cbn [annots]. apply search_pages; [|exact Hr].
    rewrite Forall_forall. intros ir' Hir.
    apply list_elem_of_In, List.filter_In in Hir as [Hir _].
    apply List.in_map_iff in Hir as (i & <- & Hi). apply in_seq in Hi. cbn [fst]. lia. }
  unfold redact_step.
  destruct (Py.startswith _ _); [exact Hr|].
  destruct (MaskingEngine.h_original h); [exact Hr|].
  destruct (_ <=? _); [exact Hr|].
  destruct (has_char_map chars full_text && _ && _); [|exact Hsearch].
  destruct (size _ =? 0)%nat; [exact Hsearch|].
  destruct (max_rects <? _); [exact Hr|].
  cbn [annots]. apply coord_pages; [exact Hr | apply quads_pages, Hchars].
Qed.

Lemma loop_pages hs :
  Forall (fun ci => (page_idx ci < n_pages)%nat) chars ->
  pages_below n_pages
    (annots (redact_hits search_for n_pages max_rects min_len chars full_text hs)).
Proof.
  intros Hchars. unfold redact_hits.
  assert (H0 : pages_below n_pages (annots redaction0)).
  { intros pg Hpg. cbn [redaction0 annots] in Hpg. rewrite lookup_empty in Hpg.
    destruct Hpg; discriminate. }
  revert H0. generalize redaction0.
  induction hs as [|h hs IH]; intros r Hr; simpl; [exact Hr|].
  apply IH, step_pages; assumption.
Qed.

End RedactFacts.

(** ** The PDF pipeline from extraction to redaction *)

Section PdfEndToEnd.
Context `{Runtime}.
Import PdfPipeline PdfExtract PdfProcess.

Lemma foldl_inv {St X} (P : St -> Prop) (f : St -> X -> St) :
  (forall a x, P a -> P (f a x)) -> forall xs a, P a -> P (foldl f a xs).
Proof.
  intros Hf xs. induction xs as [|x xs IH]; intros a Ha; simpl; [exact Ha|].
  apply IH, Hf, Ha.
Qed.

Lemma fold_indexed_inv {St X} (P : St -> Prop) (f : nat -> X -> St -> St) :
  (forall i x a, P a -> P (f i x a)) ->
  forall xs k a, P a -> P (DocxSegments.fold_indexed f k xs a).
Proof.
  intros Hf xs. induction xs as [|x xs IH]; intros k a Ha; simpl; [exact Ha|].
  apply IH, Hf, Ha.
Qed.

Lemma fold_indexed_bounded {St X} (P : St -> Prop) (f : nat -> X -> St -> St) (n : nat) :
  (forall i x a, (i < n)%nat -> P a -> P (f i x a)) ->
  forall xs k a, (k + length xs <= n)%nat -> P a -> P (DocxSegments.fold_indexed f k xs a).
Proof.
  intros Hf xs. induction xs as [|x xs IH]; intros k a Hk Ha; simpl; [exact Ha|].
  simpl in Hk. apply IH; [lia|]. apply Hf; [lia | exact Ha].
Qed.

(** Every position recorded so far is on a page below [n]. *)
Definition below (n : nat) (a : Acc) : Prop :=
  Forall (fun ci => (page_idx ci < n)%nat) (all_chars a).

Lemma push_below n ci a : (page_idx ci < n)%nat -> below n a -> below n (push ci a).
Proof.
  unfold below, push. cbn [all_chars]. intros Hci Ha.
  apply Forall_app. split; [exact Ha|]. constructor; [exact Hci | constructor].
Qed.

Lemma span_step_below n pg a sp : (pg < n)%nat -> below n a -> below n (span_step pg a sp).
Proof.
  intros Hpg Ha. unfold span_step.
  destruct (span_chars sp) as [|rc rcs] eqn:Hc.
  - destruct (span_text sp) eqn:Ht; [exact Ha|].
    unfold dict_chars. destruct (span_bbox sp) as [[[sx0 sy0] sx1] sy1].
    rewrite Ht. apply fold_indexed_inv; [|exact Ha].
    intros i c a' Ha'. apply push_below; [exact Hpg | exact Ha'].
  - apply foldl_inv; [|exact Ha].
    intros a' ch Ha'. unfold raw_char.
    destruct (rc_c ch); [|exact Ha'].
    destruct (default (span_bbox sp) (rc_bbox ch)) as [[[bx0 by0] bx1] by1].
    apply push_below; [exact Hpg | exact Ha'].
Qed.

Lemma page_step_below n pg blocks a :
  (pg < n)%nat -> below n a -> below n (page_step pg blocks a).
Proof.
  intros Hpg Ha. unfold page_step. apply push_below; [exact Hpg|].
  apply foldl_inv; [|exact Ha].
  intros a' b Ha'. unfold block_step.
  destruct (negb (block_type b =? 0)); [exact Ha'|].
  apply foldl_inv; [|exact Ha'].
  intros a'' line Ha''. unfold line_step. apply push_below; [exact Hpg|].
  apply foldl_inv; [|exact Ha''].
  intros. apply span_step_below; assumption.
Qed.

Lemma extracted_below (doc : Doc) :
  Forall (fun ci => (page_idx ci < length doc)%nat) (snd (_extract_text_with_positions doc)).
Proof.
  unfold _extract_text_with_positions. cbn [snd].
  apply (fold_indexed_bounded (below (length doc)) page_step (length doc)).
  - intros. apply page_step_below; assumption.
  - simpl. lia.
  - constructor.
Qed.

Lemma extracted_lengths (doc : Doc) :
  Py.len (snd (_extract_text_with_positions doc))
  = Py.len (fst (_extract_text_with_positions doc)).
Proof.
  unfold _extract_text_with_positions. cbn [fst snd].
  set (a := DocxSegments.fold_indexed page_step 0 doc _).
  assert (Ha : in_sync a).
  { subst a. apply fold_indexed_in_sync; [|reflexivity].
    intros pg blocks a Ha. unfold page_step. apply push_in_sync.
    apply foldl_in_sync; [|exact Ha].
    intros a' b Ha'. unfold block_step.
    destruct (negb (block_type b =? 0)); [exact Ha'|].
    apply foldl_in_sync; [|exact Ha'].
    intros a'' line Ha''. unfold line_step. apply push_in_sync.
    apply foldl_in_sync; [|exact Ha''].
    intros. apply span_step_in_sync. assumption. }
  unfold in_sync in Ha. rewrite Ha. unfold Py.len. rewrite List.length_map. reflexivity.
Qed.

Lemma report_originals eng text doc_id masked rep :
  MaskingEngine.mask_text_with_report eng text doc_id = Some (masked, rep) ->
  Forall (fun h => MaskingEngine.h_original h
                   = Py.slice text (MaskingEngine.h_start h) (MaskingEngine.h_end h))
         (MaskingEngine.hits rep).
Proof.
  intros Hrun. apply run_inv in Hrun as (detected & _ & _ & -> & _).
  generalize StableId.create.
  induction (resolved_of eng detected) as [|r rs IH]; intros st; simpl; constructor.
  - apply hit_of_kept.
  - apply IH.
Qed.

Variables (search_for : nat -> Py.str -> list Rect) (jp_th : Q) (max_rects min_len : Z).
Variables (eng : MaskingEngine.Engine) (doc : Doc) (doc_id : Py.str).

Lemma process_inv text masked rep warnings red :
  process_pdf_file search_for jp_th max_rects min_len eng doc doc_id
  = Some (text, masked, rep, warnings, red) ->
  text = fst (_extract_text_with_positions doc) /\
  MaskingEngine.mask_text_with_report eng text doc_id = Some (masked, rep) /\
  red = redact_hits search_for (length doc) max_rects min_len
                    (snd (_extract_text_with_positions doc)) text (MaskingEngine.hits rep).
Proof.
  unfold process_pdf_file.
  destruct (_extract_text_with_positions doc) as [full_text chars]. cbn [fst snd].
  destruct (MaskingEngine.mask_text_with_report eng full_text doc_id) as [[m r]|] eqn:Hrun;
    [|discriminate].
  intros [= <- <- <- _ <-]. repeat split. exact Hrun.
Qed.

(** X27. In a run of the PDF pipeline, a reported hit that is masked
    (its reason does not start with "keep"), whose span lies within the
    extracted text and holds a real character, ends in one of two ways:
    its rectangles are more than [max_rects_per_term] and the hit is
    written back flagged for review with the too-many warning; or it is
    written back as it was and every real character of its span lies
    inside a redaction annotation on that character's page. *)
Theorem X27_masked_hit_covered_or_flagged text masked rep warnings red k h :
  process_pdf_file search_for jp_th max_rects min_len eng doc doc_id
  = Some (text, masked, rep, warnings, red) ->
  MaskingEngine.hits rep !! k = Some h ->
  Py.startswith (MaskingEngine.h_reason h) (Py.lit "keep") = false ->
  0 <= MaskingEngine.h_start h < MaskingEngine.h_end h ->
  MaskingEngine.h_end h <= Py.len text ->
  let chars := snd (_extract_text_with_positions doc) in
  has_real_char chars h ->
  let quads := _get_quads_for_span chars (MaskingEngine.h_start h) (MaskingEngine.h_end h) in
  (max_rects < total_rects quads /\
   out_hits red !! k
   = Some (DocxPipeline.with_reason h (Py.lit "warning:pdf_too_many_hits"), true)) \/
  (total_rects quads <= max_rects /\
   out_hits red !! k = Some (h, false) /\ covered chars (annots red) h).
Proof.
  intros Hrun Hk Hkeep Hspan Hend chars Hreal quads.
  apply process_inv in Hrun as (Htext & Hrun & ->).
  pose proof (extracted_lengths doc) as Hlen. rewrite <- Htext in Hlen. fold chars in Hlen.
  pose proof (report_originals _ _ _ _ _ Hrun) as Horig.
  rewrite Forall_forall in Horig.
  specialize (Horig h (list_elem_of_lookup_2 _ _ _ Hk)).
  apply loop_covers; try assumption; try (fold chars; lia).
  rewrite Horig. intros Hnil. apply (f_equal Py.len) in Hnil.
  rewrite len_slice_inside in Hnil by lia. change (Py.len []) with 0 in Hnil. lia.
Qed.

(** X28. Every redaction annotation of a run of the PDF pipeline is on
    a page of the document: the page index of a rectangle comes from an
    extracted character or from the search over the pages, so the loop
    never addresses a page that does not exist. *)
Theorem X28_annotations_on_document_pages text masked rep warnings red :
  process_pdf_file search_for jp_th max_rects min_len eng doc doc_id
  = Some (text, masked, rep, warnings, red) ->
  forall pg, is_Some (annots red !! pg) -> (pg < length doc)%nat.
Proof.
  intros Hrun. apply process_inv in Hrun as (_ & _ & ->).
  apply loop_pages, extracted_below.
Qed.

End PdfEndToEnd.

(** One page with the line "ab cd" in one span; the name "ab" is
    detected. *)
Definition one_line_pdf : PdfExtract.Doc :=
  [ [ {| PdfExtract.block_type := 0;
         PdfExtract.block_lines :=
           [ [ {| PdfExtract.span_text := Py.lit "ab cd";
                  PdfExtract.span_bbox := (0, 0, 50, 10)%Q;
                  PdfExtract.span_chars := [] |} ] ] |} ] ].

Definition one_line_engine : MaskingEngine.Engine :=
  Sample.engine (Py.lit "LABEL") [Sample.detection 0 2 (Py.lit "PERSON") (99 # 100)] [].

Lemma X27_masked_hit_covered_or_flagged_witness :
  exists text masked rep warnings red h,
    PdfProcess.process_pdf_file (H := Sample.runtime) (fun _ _ => []) (1 # 5) 50 2
      one_line_engine one_line_pdf (Py.lit "doc")
    = Some (text, masked, rep, warnings, red) /\
    MaskingEngine.hits rep !! 0%nat = Some h /\
    PdfProcess.out_hits red !! 0%nat = Some (h, false) /\
    covered (snd (PdfExtract._extract_text_with_positions one_line_pdf))
            (PdfProcess.annots red) h.
Proof.
  assert (Hsome : is_Some (PdfProcess.process_pdf_file (H := Sample.runtime) (fun _ _ => [])
                             (1 # 5) 50 2 one_line_engine one_line_pdf (Py.lit "doc"))).
  { vm_compute. eexists. reflexivity. }
  destruct Hsome as [[[[[text masked] rep] warnings] red] Hrun].
  assert (Hhit : is_Some (MaskingEngine.hits rep !! 0%nat)).
  { revert Hrun. vm_compute. intros [= _ _ <- _ _]. eexists. reflexivity. }
  destruct Hhit as [h Hh].
  exists text, masked, rep, warnings, red, h.
  split; [exact Hrun|]. split; [exact Hh|].
  assert (Hfacts : Py.startswith (MaskingEngine.h_reason h) (Py.lit "keep") = false
                   /\ MaskingEngine.h_start h = 0 /\ MaskingEngine.h_end h = 2
                   /\ Py.len text = 7).
  { revert Hrun Hh. vm_compute. intros [= <- _ <- _ _] [= <-]. repeat split. }
  destruct Hfacts as (Hkeep & Hs & He & Hlen).
  destruct (X27_masked_hit_covered_or_flagged (H := Sample.runtime) _ _ _ _ _ _ _
              text masked rep warnings red 0%nat h Hrun Hh Hkeep)
    as [[Hmany _]|(_ & Hout & Hcov)]; try lia.
  - exists 0. eexists. rewrite Hs, He. split; [lia|].
    split; [lazy; reflexivity | vm_compute; reflexivity].
  - exfalso. revert Hmany. rewrite Hs, He. vm_compute. discriminate.
  - split; assumption.
Defined.

Lemma X28_annotations_on_document_pages_witness :
  exists text masked rep warnings red,
    PdfProcess.process_pdf_file (H := Sample.runtime) (fun _ _ => []) (1 # 5) 50 2
      one_line_engine one_line_pdf (Py.lit "doc")
    = Some (text, masked, rep, warnings, red) /\
    is_Some (PdfProcess.annots red !! 0%nat) /\
    forall pg, is_Some (PdfProcess.annots red !! pg) -> (pg < 1)%nat.
Proof.
  assert (Hsome : is_Some (PdfProcess.process_pdf_file (H := Sample.runtime) (fun _ _ => [])
                             (1 # 5) 50 2 one_line_engine one_line_pdf (Py.lit "doc"))).
  { vm_compute. eexists. reflexivity. }
  destruct Hsome as [[[[[text masked] rep] warnings] red] Hrun].
  exists text, masked, rep, warnings, red.
  split; [exact Hrun|]. split.
  - revert Hrun. vm_compute. intros [= _ _ _ _ <-]. eexists. reflexivity.
  - exact (X28_annotations_on_document_pages (H := Sample.runtime) _ _ _ _ _ _ _
             text masked rep warnings red Hrun).
Defined.

(** ** White space of a normalised term *)

Section NormalizeFacts.
Context `{Runtime}.
Import Normalize.

(** No two white-space characters in a row, and every white-space
    character is a space; [prev_ws] tells whether the character before
    the list is white space. *)
Fixpoint single_spaced (prev_ws : bool) (l : Py.str) : Prop :=
  match l with
  | [] => True
  | c :: l' =>
      if isspace c then c = 32%N /\ prev_ws = false /\ single_spaced true l'
      else single_spaced false l'
  end.

Lemma single_spaced_weaken l : single_spaced true l -> single_spaced false l.
Proof.
  destruct l as [|c l]; [exact id|]. simpl.
  destruct (isspace c); [|exact id]. intros (_ & Hf & _). discriminate.
Qed.

Lemma single_spaced_any b l : single_spaced b l -> single_spaced false l.
Proof. destruct b; [apply single_spaced_weaken | exact id]. Qed.

Lemma ws_sub_from_single_spaced s : forall in_ws,
  single_spaced in_ws (ws_sub_from in_ws s).
Proof.
  induction s as [|c s IH]; intros in_ws; simpl; [exact I|].
  destruct (isspace c) eqn:Hc.
  - destruct in_ws; [apply IH|]. simpl.
    destruct (isspace 32%N).
    + split; [reflexivity|]. split; [reflexivity | apply IH].
    + apply single_spaced_weaken, IH.
  - simpl. rewrite Hc. apply IH.
Qed.

Lemma single_spaced_prefix l1 l2 : forall b,
  single_spaced b (l1 ++ l2) -> single_spaced b l1.
Proof.
  induction l1 as [|c l1 IH]; intros b; simpl; [intros _; exact I|].
  destruct (isspace c).
  - intros (Hc & Hb & Hl). repeat split; try assumption. apply (IH _ Hl).
  - apply IH.
Qed.

Lemma single_spaced_suffix l1 l2 : forall b,
  single_spaced b (l1 ++ l2) -> single_spaced false l2.
Proof.
  induction l1 as [|c l1 IH]; intros b; simpl; [apply single_spaced_any|].
  destruct (isspace c).
  - intros (_ & _ & Hl). apply (IH _ Hl).
  - apply IH.
Qed.

Lemma take_drop_while {X} (f : X -> bool) (l : list X) :
  Py.takewhile f l ++ Py.dropwhile f l = l.
Proof.
  induction l as [|c l IH]; [reflexivity|]. simpl.
  destruct (f c); [simpl; rewrite IH|]; reflexivity.
Qed.

Lemma dropwhile_head {X} (f : X -> bool) (l : list X) c :
  head (Py.dropwhile f l) = Some c -> f c = false.
Proof.
  induction l as [|d l IH]; simpl; [discriminate|].
  destruct (f d) eqn:Hd; [exact IH|]. simpl. intros [= <-]. exact Hd.
Qed.

(** [strip] keeps a middle part of the text. *)
Lemma strip_middle s :
  exists l r, s = l ++ strip s ++ r /\ lstrip s = strip s ++ r.
Proof.
  unfold strip, lstrip.
  exists (Py.takewhile isspace s),
         (rev (Py.takewhile isspace (rev (Py.dropwhile isspace s)))).
  assert (Hmid : Py.dropwhile isspace s
                 = rev (Py.dropwhile isspace (rev (Py.dropwhile isspace s)))
                   ++ rev (Py.takewhile isspace (rev (Py.dropwhile isspace s)))).
  { rewrite <- rev_app_distr, take_drop_while, rev_involutive. reflexivity. }
  split; [|exact Hmid].
  transitivity (Py.takewhile isspace s ++ Py.dropwhile isspace s);
    [symmetry; apply take_drop_while | f_equal; exact Hmid].
Qed.

Lemma last_rev_head {X} (l : list X) : last (rev l) = head l.
Proof. destruct l as [|c l]; [reflexivity|]. simpl. apply last_snoc. Qed.

Lemma strip_ends s :
  (forall c, head (strip s) = Some c -> isspace c = false) /\
  (forall c, last (strip s) = Some c -> isspace c = false).
Proof.
  split; intros c Hc.
  - destruct (strip_middle s) as (l & r & _ & Hl).
    apply (dropwhile_head isspace s). fold (lstrip s). rewrite Hl.
    destruct (strip s); [discriminate|]. exact Hc.
  - unfold strip in Hc. rewrite last_rev_head in Hc.
    apply (dropwhile_head _ _ _ Hc).
Qed.

Lemma single_spaced_lookup l : forall b i c,
  single_spaced b l -> l !! i = Some c -> isspace c = true ->
  c = 32%N /\ forall d, l !! S i = Some d -> isspace d = false.
Proof.
  induction l as [|x l IH]; intros b i c Hl Hi Hc; [discriminate|].
  destruct i as [|i].
  - simpl in Hi. injection Hi as ->. simpl in Hl. rewrite Hc in Hl.
    destruct Hl as (H32 & _ & Hrest). split; [exact H32|].
    intros d Hd. destruct l as [|y l]; [discriminate|].
    simpl in Hd. injection Hd as ->. simpl in Hrest.
    destruct (isspace d); [|reflexivity]. destruct Hrest as (_ & Hf & _). discriminate.
  - simpl in Hl. destruct (isspace x).
    + destruct Hl as (_ & _ & Hrest). apply (IH _ _ _ Hrest Hi Hc).
    + apply (IH _ _ _ Hl Hi Hc).
Qed.

(** X29. A normalised term has no white space at either end, and white
    space inside it is a single space: every white-space character of
    the result is U+0020 and is followed by a character that is not white
    space. *)
Theorem X29_normalized_term_single_spaced (s : Py.str) :
  let t := normalize_term s in
  (forall c, head t = Some c -> isspace c = false) /\
  (forall c, last t = Some c -> isspace c = false) /\
  (forall i c, t !! i = Some c -> isspace c = true ->
               c = 32%N /\ forall d, t !! S i = Some d -> isspace d = false).
Proof.
  intros t. unfold t, normalize_term.
  destruct (strip_ends (ws_sub (nfkc s))) as [Hhead Hlast].
  split; [exact Hhead|]. split; [exact Hlast|].
  intros i c Hi Hc.
  destruct (strip_middle (ws_sub (nfkc s))) as (l & r & Heq & _).
  pose proof (ws_sub_from_single_spaced (nfkc s) false) as Hss.
  fold (ws_sub (nfkc s)) in Hss. rewrite Heq in Hss.
  apply single_spaced_suffix, single_spaced_prefix in Hss.
  exact (single_spaced_lookup _ _ _ _ Hss Hi Hc).
Qed.

End NormalizeFacts.

(** ** From the rewrite plan to the rewriter *)

Section RewritePlanFacts.
Import DocxSegments DocxPipeline DocxRewrite.

(** The rewrite entry of one piece of a hit. *)
Definition entry_of (h : MaskingEngine.Hit) (m : SegMap) : DocxMap :=
  {| dm_seg_id := m_seg_id m;
     dm_local_start := local_start m;
     dm_local_end := local_end m;
     dm_replacement := _piece_replacement (MaskingEngine.h_replacement h)
                         (local_end m - local_start m) |}.

Definition entries_of_hit (segs : list Segment) (h : MaskingEngine.Hit) : list DocxMap :=
  if Py.startswith (MaskingEngine.h_reason h) (Py.lit "keep") then []
  else List.map (entry_of h)
         (map_hit_to_segments (MaskingEngine.h_start h) (MaskingEngine.h_end h) segs).

(** [rewrite_docx_with_maps]: the entries grouped under a segment id
    ([by_seg.get(seg_id)], which has no entry for an empty id), as the
    list [local] handed to the paragraph. *)
Definition local_replacements (dms : list DocxMap) (sid : Py.str) : list Replacement :=
  match sid with
  | [] => []
  | _ =>
      List.map (fun dm => {| rp_start := dm_local_start dm; rp_end := dm_local_end dm;
                             rp_replacement := dm_replacement dm |})
               (List.filter (fun dm => Py.eqb (dm_seg_id dm) sid) dms)
  end.

Lemma plan_step_maps segs pl h :
  docx_maps (plan_step segs pl h) = docx_maps pl ++ entries_of_hit segs h.
Proof.
  unfold plan_step, entries_of_hit.
  destruct (Py.startswith _ _); [cbn [docx_maps]; rewrite app_nil_r; reflexivity|].
  destruct (map_hit_to_segments _ _ segs) as [|m maps] eqn:Hmaps;
    [cbn [docx_maps List.map]; rewrite app_nil_r; reflexivity|].
  cbn [docx_maps]. generalize (docx_maps pl). generalize (m :: maps). clear.
  intros maps. induction maps as [|m maps IH]; intros dms; simpl;
    [rewrite app_nil_r; reflexivity|].
  rewrite IH, <- app_assoc. reflexivity.
Qed.

Lemma plan_maps segs hits :
  docx_maps (plan_docx hits segs) = flat_map (entries_of_hit segs) hits.
Proof.
  unfold plan_docx.
  assert (Hgen : forall pl, docx_maps (foldl (plan_step segs) pl hits)
                            = docx_maps pl ++ flat_map (entries_of_hit segs) hits).
  { induction hits as [|h hits IH]; intros pl; simpl; [rewrite app_nil_r; reflexivity|].
    rewrite IH, plan_step_maps, <- app_assoc. reflexivity. }
  apply Hgen.
Qed.

Local Abbreviation on_segment sid := (fun dm : DocxMap => Py.eqb (dm_seg_id dm) sid).

Lemma pieces_elsewhere h s e sid segs :
  Forall (fun x => seg_id x <> sid) segs ->
  List.filter (on_segment sid) (List.map (entry_of h) (flat_map (piece_of s e) segs)) = [].
Proof.
  induction 1 as [|x segs Hx _ IH]; [reflexivity|].
  cbn [flat_map]. rewrite List.map_app, List.filter_app, IH, app_nil_r.
  unfold piece_of. destruct (_ <? _); [|reflexivity].
  cbn [List.map List.filter entry_of dm_seg_id m_seg_id]. unfold Py.eqb.
  rewrite bool_decide_eq_false_2 by exact Hx. reflexivity.
Qed.

Lemma pieces_here h s e seg :
  List.filter (on_segment (seg_id seg)) (List.map (entry_of h) (piece_of s e seg))
  = List.map (entry_of h) (piece_of s e seg).
Proof.
  unfold piece_of. destruct (_ <? _); [|reflexivity].
  cbn [List.map List.filter entry_of dm_seg_id m_seg_id]. unfold Py.eqb.
  rewrite bool_decide_eq_true_2 by reflexivity. reflexivity.
Qed.

(** The replacements that the hits bring to one segment. *)
Definition reps_of (seg : Segment) (h : MaskingEngine.Hit) : list Replacement :=
  if Py.startswith (MaskingEngine.h_reason h) (Py.lit "keep") then []
  else List.map (fun dm => {| rp_start := dm_local_start dm; rp_end := dm_local_end dm;
                              rp_replacement := dm_replacement dm |})
         (List.map (entry_of h)
            (piece_of (MaskingEngine.h_start h) (MaskingEngine.h_end h) seg)).

Lemma local_replacements_of before seg after hits c sid :
  seg_id seg = c :: sid ->
  Forall (fun x => seg_id x <> seg_id seg) before ->
  Forall (fun x => seg_id x <> seg_id seg) after ->
  local_replacements (docx_maps (plan_docx hits (before ++ seg :: after))) (seg_id seg)
  = flat_map (reps_of seg) hits.
Proof.
  intros Hid Hb Ha. rewrite plan_maps. unfold local_replacements.
  rewrite Hid, <- Hid.
  induction hits as [|h hits IH]; [reflexivity|].
  cbn [flat_map]. rewrite List.filter_app, List.map_app, IH. f_equal.
  unfold entries_of_hit, reps_of.
  destruct (Py.startswith _ _); [reflexivity|].
  rewrite map_hit_flat, flat_map_app. cbn [flat_map].
  rewrite !List.map_app, !List.filter_app.
  rewrite (pieces_elsewhere _ _ _ _ before Hb), (pieces_elsewhere _ _ _ _ after Ha).
  rewrite pieces_here, app_nil_r. reflexivity.
Qed.

Lemma reps_in_order seg hits : forall from,
  0 <= from ->
  global_end seg = global_start seg + Py.len (DocxSegments.text seg) ->
  StronglySorted (fun a b => MaskingEngine.h_end a <= MaskingEngine.h_start b) hits ->
  Forall (fun h => from + global_start seg
                   <= Z.max (MaskingEngine.h_start h) (global_start seg)) hits ->
  in_order (Py.len (DocxSegments.text seg)) from (flat_map (reps_of seg) hits).
Proof.
  induction hits as [|h hits IH]; intros from Hfrom Hge Hsorted Hlow; [exact I|].
  apply StronglySorted_inv in Hsorted as [Hsorted Hafter].
  apply Forall_cons in Hlow as [Hh Hlow].
  cbn [flat_map]. unfold reps_of at 1.
  destruct (Py.startswith _ _); [apply IH; assumption|].
  unfold piece_of.
  destruct (Z.ltb_spec (Z.max (MaskingEngine.h_start h) (global_start seg))
                       (Z.min (MaskingEngine.h_end h) (global_end seg))) as [Hlt|Hge'];
    [|apply IH; assumption].
  cbn [List.map app in_order entry_of rp_start rp_end dm_local_start dm_local_end
       local_start local_end].
  split; [lia|]. split; [lia|].
  apply IH; [lia | exact Hge | exact Hsorted |].
  rewrite Forall_forall in Hafter. rewrite Forall_forall. intros h' Hh'.
  specialize (Hafter h' Hh'). lia.
Qed.

(** X30. When the hits are in ascending order and none overlaps the
    next, the replacements that the plan of [process_docx_file] hands to
    the rewriter for a segment (taken by the segment's id, which no other
    segment bears) are non-empty spans in ascending order, none
    overlapping the next, all within the segment's text: the condition
    under which the run-level replacement was shown to splice. *)
Theorem X30_plan_entries_in_order (d : Document) (hits : list MaskingEngine.Hit)
    (seg : Segment) :
  let segs := snd (fst (extract_docx_segments d)) in
  StronglySorted (fun a b => MaskingEngine.h_end a <= MaskingEngine.h_start b) hits ->
  seg ∈ segs ->
  (forall seg', seg' ∈ segs -> seg_id seg' = seg_id seg -> seg' = seg) ->
  in_order (Py.len (DocxSegments.text seg)) 0
           (local_replacements (docx_maps (plan_docx hits segs)) (seg_id seg)).
Proof.
  intros segs Hsorted Hin Huniq.
  destruct (seg_id seg) as [|c sid] eqn:Hid; [exact I|]. rewrite <- Hid.
  pose proof (extract_segments_facts d) as Hfacts. unfold segs in *.
  destruct (extract_docx_segments d) as [[full_text segs'] warnings]. cbn [fst snd] in *.
  destruct Hfacts as [Hlaid _].
  apply list_elem_of_split in Hin as (before & after & ->).
  destruct (laid_out_split _ _ _ _ Hlaid) as [Hb Ha].
  pose proof (laid_out_bounds _ _ Hlaid) as Hbounds.
  assert (Hseg : 0 <= global_start seg <= global_end seg /\
                 global_end seg = global_start seg + Py.len (DocxSegments.text seg)).
  { apply Forall_app in Hbounds as [_ Hbounds].
    apply Forall_cons in Hbounds as [Hseg _]. exact Hseg. }
  assert (Hother : forall l, Forall (fun x => x <> seg) l ->
                             (forall x, x ∈ l -> x ∈ before ++ seg :: after) ->
                             Forall (fun x => seg_id x <> seg_id seg) l).
  { intros l Hne Hsub. rewrite Forall_forall in Hne. rewrite Forall_forall.
    intros x Hx Hidx. apply (Hne x Hx).
    apply Huniq; [apply Hsub, Hx | rewrite <- Hid; exact Hidx]. }
  rewrite (local_replacements_of before seg after hits c sid Hid).
  - apply reps_in_order; [lia | apply Hseg | exact Hsorted |].
    rewrite Forall_forall. intros h _. lia.
  - apply Hother.
    + eapply Forall_impl; [exact Hb|]. cbn beta. intros x Hx ->. lia.
    + intros x Hx. apply elem_of_app. left. exact Hx.
  - apply Hother.
    + eapply Forall_impl; [exact Ha|]. cbn beta. intros x Hx ->. lia.
    + intros x Hx. apply elem_of_app. right. right. exact Hx.
Qed.

End RewritePlanFacts.

(** Two blackout hits, [7,8) and [9,11), in the second of the two
    paragraphs. *)
Definition black_hit (s e : Z) : MaskingEngine.Hit :=
  {| MaskingEngine.h_doc_id := Py.lit "doc";
     MaskingEngine.h_entity_type := Py.lit "PERSON";
     MaskingEngine.h_start := s; MaskingEngine.h_end := e;
     MaskingEngine.h_score := (9 # 10)%Q;
     MaskingEngine.h_original := Py.slice (Py.lit "Hello" ++ [Py.NL] ++ Py.lit "World") s e;
     MaskingEngine.h_replacement := [9632; 9632; 9632]%N;
     MaskingEngine.h_reason := Py.lit "mask:black";
     MaskingEngine.h_source := MaskingEngine.SrcAnalyzer |}.

Lemma X30_plan_entries_in_order_witness :
  let segs := snd (fst (DocxSegments.extract_docx_segments two_paragraphs)) in
  let hits := [black_hit 7 8; black_hit 9 11] in
  exists seg,
    seg ∈ segs /\
    StronglySorted (fun a b => MaskingEngine.h_end a <= MaskingEngine.h_start b) hits /\
    List.map (fun r => (DocxRewrite.rp_start r, DocxRewrite.rp_end r))
             (local_replacements
                (DocxPipeline.docx_maps (DocxPipeline.plan_docx hits segs))
                (DocxSegments.seg_id seg))
    = [(1, 2); (3, 5)] /\
    in_order (Py.len (DocxSegments.text seg)) 0
             (local_replacements
                (DocxPipeline.docx_maps (DocxPipeline.plan_docx hits segs))
                (DocxSegments.seg_id seg)).
Proof.
  intros segs hits.
  destruct (segs !! 1%nat) as [seg|] eqn:Hlook; [|vm_compute in Hlook; discriminate].
  assert (Hin : seg ∈ segs) by (eapply list_elem_of_lookup_2; exact Hlook).
  assert (Hseg : seg = {| DocxSegments.seg_id := Py.lit "P000001";
                          DocxSegments.kind := Py.lit "P";
                          DocxSegments.obj := DocxSegments.obj seg;
                          DocxSegments.text := Py.lit "World";
                          DocxSegments.global_start := 6;
                          DocxSegments.global_end := 11 |}).
  { vm_compute in Hlook. injection Hlook as <-. reflexivity. }
  assert (Hsorted : StronglySorted
                      (fun a b => MaskingEngine.h_end a <= MaskingEngine.h_start b) hits).
  { repeat constructor. cbn. lia. }
  assert (Huniq : forall seg', seg' ∈ segs ->
                               DocxSegments.seg_id seg' = DocxSegments.seg_id seg ->
                               seg' = seg).
  { intros seg' Hin' Hid. apply list_elem_of_lookup in Hin' as [i Hi].
    destruct i as [|[|i]].
    - exfalso. rewrite Hseg in Hid. vm_compute in Hi. injection Hi as <-.
      vm_compute in Hid. discriminate Hid.
    - rewrite Hlook in Hi. injection Hi as <-. reflexivity.
    - vm_compute in Hi. discriminate Hi. }
  exists seg. split; [exact Hin|]. split; [exact Hsorted|]. split.
  - rewrite Hseg. vm_compute. reflexivity.
  - exact (X30_plan_entries_in_order two_paragraphs hits seg Hsorted Hin Huniq).
Defined.
